(** * netbench: the receiver core, embedded and verified

    A shallow embedding of the receiver side of [netbench.cpp]: the frame
    parser ([ProtocolParser::consume]), the classic and the shared-ring
    buffer providers ([BufferProviderV1], [BufferProviderV2]), the ring
    set-up ([mkIoUring]), the read-completion handler of the ring engine
    ([IOUringRunner::processRead]) with the submission path under it
    ([get_sqe], [submit]), the statistics recorder ([RxStats]) and the
    readiness engine ([EPollRunner::doWrite], [doRead], [doSocket],
    [doAccept]).

    Machine integers are [Z] with the wrap-around of their C++ type written
    out; the host is little-endian (the layout the source's [Range] union
    and header [memcpy] are written for). *)

From Stdlib Require Import ZArith List Lia Bool Permutation.
From Stdlib Require Import Init.Byte.
From stdpp Require Import base option strings list sorting gmap.

Open Scope Z_scope.

(** ** Machine arithmetic *)

Definition u16 (x : Z) : Z := x mod 65536.
Definition u32 (x : Z) : Z := x mod 4294967296.
Definition u64 (x : Z) : Z := x mod 18446744073709551616.

(** An unsigned or wider value converted to [int]. *)
Definition as_int (x : Z) : Z := (x + 2147483648) mod 4294967296 - 2147483648.

(** The values a diagnostic line is made of; [Strerror errnum] is the
    text the C library's [strerror] gives for [errnum]. *)
Inductive item : Type :=
| Txt (s : string)
| Num (z : Z)
| Flag (b : bool)
| Strerror (errnum : Z).

(** What a run of modelled code can end in: a value, a fatal diagnostic, a
    read or write outside the object a pointer points into, or an exhausted
    iteration budget. *)
Inductive outcome (A : Type) : Type :=
| Done (a : A)
| Died (diag : list item)
| OutOfBounds
| OutOfFuel.
Arguments Done {A} a.
Arguments Died {A} diag.
Arguments OutOfBounds {A}.
Arguments OutOfFuel {A}.

(** Modelled from the spec: [die] is declared in [util.h], which is not
    part of the sources at hand. The spec calls every [die] site fatal
    ("report and abort", "fatal with diagnostic") and the call sites rely on
    its not returning ([nextFdIdx] reads [back()] right after it,
    [getRxEngine] marks the line after it "should not get here"); so [die]
    ends the run with its arguments as the diagnostic. *)
Definition die {A : Type} (diag : list item) : outcome A := Died diag.

(** Modelled from the spec: [checkedErrno], also from [util.h], passes a
    non-negative result through and is fatal on a negative one ("if still
    unsupported, fatal with explicit message"). *)
Definition checkedErrno (ret : Z) (what : string) : outcome Z :=
  if ret <? 0 then die [Txt what; Num ret] else Done ret.

(** ** The frame parser *)

Module Parser.

(** [struct ConsumeResults]: [size_t to_write], [uint32_t count]. *)
Record ConsumeResults : Type := mkResults { to_write : Z; count : Z }.

Definition no_results : ConsumeResults := mkResults 0 0.

(** [ConsumeResults::operator+=] *)
Definition add_results (a b : ConsumeResults) : ConsumeResults :=
  mkResults (u64 (to_write a + to_write b)) (u32 (count a + count b)).

(** [struct ProtocolParser]. [is_reading] is the decoded header
    ([length], [reply_size]); [size_buff] is the 8-byte scratch area. *)
Record ProtocolParser : Type := mkParser {
  size_buff_have : Z;
  is_reading : Z * Z;
  size_buff : list byte;
  so_far : Z
}.

(** [sizeof(is_reading)] *)
Definition sizeof_is_reading : Z := 8.

(** A parser as the constructor leaves it; the scratch area has no
    initialiser, so its eight bytes are whatever [sb] the memory held. *)
Definition fresh (sb : list byte) : ProtocolParser := mkParser 0 (0, 0) sb 0.

Definition byte_val (b : byte) : Z := Z.of_N (Byte.to_N b).

(** A little-endian unsigned integer. *)
Fixpoint le (bs : list byte) : Z :=
  match bs with
  | [] => 0
  | b :: bs' => byte_val b + 256 * le bs'
  end.

(** [memcpy(&is_reading, src, sizeof(is_reading))]: two 32-bit words. *)
Definition load_is_reading (bs : list byte) : Z * Z :=
  (le (take 4 bs), le (take 4 (drop 4 bs))).

(** [len] bytes at offset [off] of the object [mem]; [None] outside it. *)
Definition read (mem : list byte) (off len : Z) : option (list byte) :=
  if (0 <=? off) && (0 <=? len) && (off + len <=? Z.of_nat (length mem))
  then Some (take (Z.to_nat len) (drop (Z.to_nat off) mem))
  else None.

(** [memcpy(dst + off, src, |src|)]; [None] when it leaves [dst]. *)
Definition write (dst : list byte) (off : Z) (src : list byte)
  : option (list byte) :=
  if (0 <=? off) && (off + Z.of_nat (length src) <=? Z.of_nat (length dst))
  then Some (take (Z.to_nat off) dst ++ src
               ++ drop (Z.to_nat off + length src) dst)
  else None.

(** The [if (!is_reading[0]) { ... }] block of the loop body. *)
Definition read_header (mem : list byte) (data n : Z) (p : ProtocolParser)
  : option ProtocolParser :=
  if fst (is_reading p) =? 0 then
    if (sizeof_is_reading <=? n) && (size_buff_have p =? 0) then
      bs ← read mem data sizeof_is_reading;
      Some (mkParser sizeof_is_reading (load_is_reading bs)
              (size_buff p) (so_far p))
    else
      let size_buff_add :=
        Z.min (u32 n) (u32 (sizeof_is_reading - size_buff_have p)) in
      bs ← read mem data size_buff_add;
      sb ← write (size_buff p) (size_buff_have p) bs;
      let have := u32 (size_buff_have p + size_buff_add) in
      Some (mkParser have
              (if sizeof_is_reading <=? have
               then load_is_reading sb else is_reading p)
              sb (so_far p))
  else Some p.

(** [so_far = size_buff_have = 0; memset(&is_reading, 0, ...)] *)
Definition reset (p : ProtocolParser) : ProtocolParser :=
  mkParser 0 (0, 0) (size_buff p) 0.

(** The [while (n > 0)] loop of [consume]. [data] is the offset of the
    pointer of that name in the object [mem] it points into. *)
Fixpoint consume_loop (fuel : nat) (mem : list byte) (data n : Z)
    (p : ProtocolParser) (ret : ConsumeResults)
  : outcome (ConsumeResults * ProtocolParser) :=
  if n <=? 0 then Done (ret, p) else
  match fuel with
  | O => OutOfFuel
  | S fuel' =>
    let p1 := mkParser (size_buff_have p) (is_reading p) (size_buff p)
                (u32 (so_far p + n)) in
    match read_header mem data n p1 with
    | None => OutOfBounds
    | Some p2 =>
      if negb (fst (is_reading p2) =? 0)
         && (fst (is_reading p2) + sizeof_is_reading <=? so_far p2)
      then
        consume_loop fuel' mem (data + n)
          (so_far p2 - (fst (is_reading p2) + sizeof_is_reading))
          (reset p2)
          (mkResults (u64 (to_write ret + snd (is_reading p2)))
                     (u32 (count ret + 1)))
      else Done (ret, p2)
    end
  end.

(** [ProtocolParser::consume(data, n)]. Every pass after the first starts
    with [so_far = 0] and shrinks [n] by at least nine, so the budget below
    is never exhausted ([consume_returns]). *)
Definition consume (p : ProtocolParser) (mem : list byte) (data n : Z)
  : outcome (ConsumeResults * ProtocolParser) :=
  consume_loop (S (S (Z.to_nat (so_far p + n)))) mem data n p no_results.

(** Feeding a list of chunks, each in a buffer of its own, one [consume]
    call per chunk; the results of the calls in order. *)
Fixpoint feed (p : ProtocolParser) (chunks : list (list byte))
  : outcome (list ConsumeResults * ProtocolParser) :=
  match chunks with
  | [] => Done ([], p)
  | c :: cs =>
    match consume p c 0 (Z.of_nat (length c)) with
    | Done (r, p') =>
      match feed p' cs with
      | Done (rs, p'') => Done (r :: rs, p'')
      | Died d => Died d
      | OutOfBounds => OutOfBounds
      | OutOfFuel => OutOfFuel
      end
    | Died d => Died d
    | OutOfBounds => OutOfBounds
    | OutOfFuel => OutOfFuel
    end
  end.

(** The totals of a run: [(sum of to_write, sum of count)]. *)
Definition totals (rs : list ConsumeResults) : Z * Z :=
  (foldr (fun r acc => to_write r + acc) 0 rs,
   foldr (fun r acc => count r + acc) 0 rs).

(** A parser between two frames. *)
Definition at_boundary (p : ProtocolParser) : Prop :=
  size_buff_have p = 0 /\ is_reading p = (0, 0) /\ so_far p = 0
  /\ length (size_buff p) = 8%nat.

(** The two header words of the bytes of a frame. *)
Definition frame_length (f : list byte) : Z := fst (load_is_reading f).
Definition frame_reply (f : list byte) : Z := snd (load_is_reading f).

(** A frame on the wire: the header and exactly [length] payload bytes. *)
Definition well_formed (f : list byte) : Prop :=
  Z.of_nat (length f) = sizeof_is_reading + frame_length f.

(** A parser that has seen the first [k] bytes of the frame [f]. *)
Definition mid (f : list byte) (k : nat) (p : ProtocolParser) : Prop :=
  so_far p = Z.of_nat k /\ length (size_buff p) = 8%nat /\
  ((k < 8)%nat /\ size_buff_have p = Z.of_nat k /\ is_reading p = (0, 0)
     /\ take k (size_buff p) = take k f
   \/ (8 <= k)%nat /\ is_reading p = load_is_reading f).

(** The completions among the results of a run of calls: those with a
    count other than 0. *)
Definition emitted (rs : list ConsumeResults) : list ConsumeResults :=
  List.filter (fun r => negb (count r =? 0)) rs.

(** What the calls for the chunks [cs] of one frame with reply size [r]
    return when the frame is completed by the last of them. *)
Definition frame_results (r : Z) (cs : list (list byte))
  : list ConsumeResults :=
  replicate (length cs - 1) no_results ++ [mkResults r 1].

(** [cs] cuts the frame [f] into chunks, none empty. *)
Definition chunking (f : list byte) (cs : list (list byte)) : Prop :=
  concat cs = f /\ Forall (fun c => c <> []) cs.

(** A header with [length = 0] and [reply_size = 1]. *)
Definition zero_length_header : list byte :=
  [x00; x00; x00; x00; x01; x00; x00; x00].

(** The frames [(length=0, reply_size=1)] and
    [(length=3, reply_size=2, payload="abc")], back to back. *)
Definition empty_then_abc : list byte :=
  [x00; x00; x00; x00; x01; x00; x00; x00;
   x03; x00; x00; x00; x02; x00; x00; x00; x61; x62; x63].

(** The frames [(length=1, reply_size=1, payload="a")] and
    [(length=1, reply_size=2, payload="b")], back to back. *)
Definition two_frames : list byte :=
  [x01; x00; x00; x00; x01; x00; x00; x00; x61;
   x01; x00; x00; x00; x02; x00; x00; x00; x62].

(** A receive buffer of 32 zero-filled bytes into which those 18 bytes
    were received. *)
Definition two_frames_in_rcvbuff : list byte :=
  two_frames ++ replicate 14 x00.

(** The two frames of [two_frames], and the first cut after its third
    byte. *)
Definition frame_a : list byte := take 9 two_frames.
Definition frame_b : list byte := drop 9 two_frames.
Definition frame_a_chunks : list (list byte) :=
  [take 3 frame_a; drop 3 frame_a].

(** The scratch area of a parser in zero-initialised memory (the
    [new EPollData()] of the readiness engine). *)
Definition zeroed : list byte := replicate 8 x00.

(** A header whose length word is [0xffffffff], with [reply_size = 1]. *)
Definition oversized_header : list byte :=
  [xff; xff; xff; xff; x01; x00; x00; x00].

End Parser.

(** ** Receiver configuration *)

(** [struct IoUringRxConfig] (with the [RxConfig] fields it inherits that
    the receiver core reads). *)
Record IoUringRxConfig : Type := mkIoUringRxConfig {
  recv_size : Z;
  recvmsg : bool;
  workload : Z;
  provide_buffers : Z;
  fixed_files : bool;
  sqe_count : Z;
  cqe_count : Z;
  provided_buffer_count : Z;
  provided_buffer_low_watermark : Z;
  provided_buffer_compact : Z;
  huge_pages : bool;
  multishot_recv : Z;
  defer_taskrun : bool;
  cqe_skip_success_flag : Z
}.

(** The defaults of the struct's member initialisers; the low watermark is
    what [parseRx] makes of its [-1]: a quarter of the pool. *)
Definition default_cfg : IoUringRxConfig :=
  mkIoUringRxConfig 4096 false 0 2 true 64 0 8000 2000 1 false 1 false 0.

(** [addAlignment], shared by both providers ([kAlignment = 32]). *)
Definition addAlignment (n : Z) : Z := 32 * ((n + 32 - 1) / 32).

(** ** The classic buffer provider *)

Module ClassicPool.

(** [struct Range]: two [uint16_t], overlaid by [uint32_t sortable] with
    [count] in the low half. *)
Record Range : Type := mkRange { start : Z; count : Z }.

Definition sortable (r : Range) : Z := start r * 65536 + count r.

(** [bool Range::merge(uint16_t idx)]: [Some] is [true] together with the
    updated range, [None] is [false]. The comparisons are done in [int]. *)
Definition merge_index (r : Range) (idx : Z) : option Range :=
  if idx =? start r - 1 then Some (mkRange idx (u16 (count r + 1)))
  else if idx =? start r + count r
       then Some (mkRange (start r) (u16 (count r + 1)))
  else None.

(** [bool Range::merge(Range const& r)] *)
Definition merge_range (r r' : Range) : option Range :=
  if start r + count r =? start r'
  then Some (mkRange (start r) (u16 (count r + count r')))
  else if start r' + count r' =? start r
       then Some (mkRange (start r') (u16 (count r + count r')))
  else None.

(** [class BufferProviderV1]; [buffers_size] is [buffers_.size()]. *)
Record BufferProviderV1 : Type := mkProviderV1 {
  sizePerBuffer_ : Z;
  buffers_size : Z;
  toProvideCount_ : Z;
  lowWatermark_ : Z;
  toProvide_ : list Range;
  toProvide2_ : list Range
}.

Definition with_free (b : BufferProviderV1) (n : Z) (tp : list Range)
  : BufferProviderV1 :=
  mkProviderV1 (sizePerBuffer_ b) (buffers_size b) n (lowWatermark_ b)
    tp (toProvide2_ b).

(** The constructor. [emplace_back(0, count)] converts [count] to the
    [uint16_t] parameter of [Range]'s constructor. *)
Definition create (rx_cfg : IoUringRxConfig) : BufferProviderV1 :=
  let count := provided_buffer_count rx_cfg in
  mkProviderV1 (addAlignment (recv_size rx_cfg)) (Z.max 0 count) count
    (provided_buffer_low_watermark rx_cfg)
    [mkRange (u16 0) (u16 count)] [].

Definition canProvide (b : BufferProviderV1) : bool :=
  negb (length (toProvide_ b) =? 0)%nat.

Definition needsToProvide (b : BufferProviderV1) : bool :=
  lowWatermark_ b <? toProvideCount_ b.

(** [std::sort] by [sortable]. Two ranges with the same key are the same
    range, so every sorting algorithm gives this list. *)
Definition sortable_le (a b : Range) : Prop := sortable a <= sortable b.

#[global] Instance sortable_le_dec : RelDecision sortable_le :=
  fun a b => Z_le_dec (sortable a) (sortable b).

Definition sort_ranges (l : list Range) : list Range :=
  merge_sort sortable_le l.

(** One pass of the loop of [compact]: [tp2] is [toProvide2_], whose back
    absorbs [p] or is followed by it. *)
Definition coalesce_step (tp2 : list Range) (p : Range) : list Range :=
  match rev tp2 with
  | [] => tp2 ++ [p]
  | bk :: front =>
    match merge_range bk p with
    | Some bk' => rev (bk' :: front)
    | None => tp2 ++ [p]
    end
  end.

Definition compact (b : BufferProviderV1) : BufferProviderV1 :=
  match toProvide_ b with
  | [] | [_] => b
  | [r0; r1] =>
    match merge_range r0 r1 with
    | Some r => with_free b (toProvideCount_ b) [r]
    | None => b
    end
  | _ =>
    match sort_ranges (toProvide_ b) with
    | [] => b
    | r0 :: rest =>
      mkProviderV1 (sizePerBuffer_ b) (buffers_size b) (toProvideCount_ b)
        (lowWatermark_ b)
        (fold_left coalesce_step rest [r0])
        (r0 :: rest)
    end
  end.

(** [returnIndex(uint16_t i)]. [rev (toProvide_ b)] lists the vector from
    its back: [bk] is [toProvide_.back()], [r2] the range before it. *)
Definition returnIndex (b : BufferProviderV1) (i : Z) : BufferProviderV1 :=
  let i := u16 i in
  let tp := toProvide_ b in
  let tp' :=
    match rev tp with
    | [] => [mkRange i 1]
    | bk :: front =>
      match merge_index bk i with
      | Some bk' => rev (bk' :: front)
      | None =>
        match front with
        | r2 :: front' =>
          match merge_index r2 i with
          | Some r2' =>
            match merge_range r2' bk with
            | Some m => rev (m :: front')
            | None => rev (bk :: r2' :: front')
            end
          | None => tp ++ [mkRange i 1]
          end
        | [] => tp ++ [mkRange i 1]
        end
      end
    end in
  with_free b (toProvideCount_ b + 1) tp'.

(** The arguments [provide] gives [io_uring_prep_provide_buffers]:
    the buffer [buffers_[start]], [sizePerBuffer_], [count], [kBgid] and
    the first buffer id; the entry carries [IOSQE_CQE_SKIP_SUCCESS]. *)
Record ProvideBuffers : Type := mkProvide {
  pb_buffer : Z; pb_size : Z; pb_count : Z; pb_bgid : Z; pb_bid : Z
}.

Definition kBgid : Z := 1.

Inductive provided : Type :=
| Provided (sqe : ProvideBuffers) (b : BufferProviderV1)
| BackOfEmpty
| OutsideBuffers
| AssertionFailed.

(** [provide(sqe)]; [back()] of an empty vector has no meaning,
    [buffers_[r.start]] is read outside the vector when the range starts
    behind the last buffer, and the closing [assert] can fail. *)
Definition provide (b : BufferProviderV1) : provided :=
  match rev (toProvide_ b) with
  | [] => BackOfEmpty
  | r :: front =>
    if buffers_size b <=? start r then OutsideBuffers else
    let n := toProvideCount_ b - count r in
    if negb (length front =? 0)%nat || (n =? 0)
    then Provided
           (mkProvide (start r) (sizePerBuffer_ b) (count r) kBgid (start r))
           (with_free b n (rev front))
    else AssertionFailed
  end.

(** The buffers a range holds, and the sum of the counts of a free list. *)
Definition covers (r : Range) : list nat :=
  seq (Z.to_nat (start r)) (Z.to_nat (count r)).

Definition sum_counts (l : list Range) : Z :=
  foldr (fun r acc => count r + acc) 0 l.

(** Returning a list of indices one by one. *)
Definition returnAll (b : BufferProviderV1) (idxs : list Z)
  : BufferProviderV1 := fold_left returnIndex idxs b.

(** A pool whose free list is empty, as the initial publishing of the ring
    engine leaves it. *)
Definition emptied (count low_watermark : Z) : BufferProviderV1 :=
  mkProviderV1 4096 count 0 low_watermark [] [].

(** The operations of the provider, and a run of them; [None] when a
    [provide] of the run does not return. *)
Inductive operation : Type :=
| ReturnIndex (i : Z)
| Compact
| Provide.

Definition step (b : BufferProviderV1) (o : operation)
  : option BufferProviderV1 :=
  match o with
  | ReturnIndex i => Some (returnIndex b i)
  | Compact => Some (compact b)
  | Provide =>
    match provide b with
    | Provided _ b' => Some b'
    | _ => None
    end
  end.

Fixpoint run (b : BufferProviderV1) (ops : list operation)
  : option BufferProviderV1 :=
  match ops with
  | [] => Some b
  | o :: rest =>
    match step b o with
    | Some b' => run b' rest
    | None => None
    end
  end.

(** The indices an operation gives back are indices of a pool of [n]
    buffers. *)
Definition in_pool (n : Z) (o : operation) : Prop :=
  match o with
  | ReturnIndex i => 0 <= i < n
  | _ => True
  end.

(** A range that is not empty and lies below [K]. *)
Definition good (K : nat) (r : Range) : Prop :=
  0 <= start r /\ 1 <= count r /\ start r + count r <= Z.of_nat K.

(** A free list whose ranges are not empty, lie below [K], and hold
    between them the buffers [held]. *)
Definition tiles (K : nat) (fl : list Range) (held : list nat) : Prop :=
  Forall (good K) fl /\ Permutation (flat_map covers fl) held.

(** What the runs of a pool of 1 to 65535 buffers keep: the ranges of
    the free list are not empty and lie inside the pool, and
    [toProvideCount_] is the sum of their counts. *)
Definition kept (b : BufferProviderV1) : Prop :=
  1 <= buffers_size b <= 65535
  /\ Forall (good (Z.to_nat (buffers_size b))) (toProvide_ b)
  /\ toProvideCount_ b = sum_counts (toProvide_ b).

(** A pool of four buffers with watermark 1 and an empty free list, and
    the indices that come back to it in the order 2, 0, 3, 1. *)
Definition four_buffers : BufferProviderV1 := emptied 4 1.
Definition back_in_disorder : list nat := [2; 0; 3; 1]%nat.

(** A pool of four buffers from its constructor. *)
Definition cfg_of_four : IoUringRxConfig :=
  mkIoUringRxConfig 4096 false 0 1 true 64 0 4 1 1 false 1 false 0.

(** A pool of six buffers to which 4, 0 and 2 have come back: three
    ranges, no two of them adjacent. *)
Definition scattered : BufferProviderV1 := returnAll (emptied 6 1) [4; 0; 2].



End ClassicPool.

(** ** The shared-ring buffer provider *)

Module SharedPool.

(** [struct io_uring_buf]; [resv] is never written by the provider. *)
Record io_uring_buf : Type := mkBuf { addr : Z; len : Z; bid : Z }.

(** [class BufferProviderV2]. [bufs] and [ring_tail] are the mapped
    [io_uring_buf_ring]; [buffer_base] is the address of the first payload
    slot, so that [buffers_[i] = buffer_base + i * sizePerBuffer_] for
    [i < count_]. [released] lists, oldest first, every value that
    [io_uring_smp_store_release] stored to [ring_->tail]. *)
Record BufferProviderV2 : Type := mkProviderV2 {
  count_ : Z;
  sizePerBuffer_ : Z;
  bufferMmapSize_ : Z;
  buffer_base : Z;
  tailCached_ : Z;
  ringMemSize_ : Z;
  ringSize_ : Z;
  ringMask_ : Z;
  cachedIndices : Z;
  indices : list Z;
  bufs : list io_uring_buf;
  ring_tail : Z;
  released : list Z
}.

Definition kHugePageMask : Z := Z.shiftl 1 21 - 1.
Definition kBufferAlignMask : Z := 31.

(** [while (ringSize_ < count_) ringSize_ *= 2], on a [uint32_t]. After 32
    doublings [ringSize_] is 0 for good, so 33 passes decide the loop. *)
Fixpoint ring_size_loop (fuel : nat) (ringSize count : Z) : outcome Z :=
  if ringSize <? count then
    match fuel with
    | O => OutOfFuel
    | S fuel' => ring_size_loop fuel' (u32 (ringSize * 2)) count
    end
  else Done ringSize.

(** [getData(i)]: [buffers_[i]]. *)
Definition getData (count base size : Z) (i : Z) : option Z :=
  if (0 <=? i) && (i <? count) then Some (base + i * size) else None.

(** [populate(b, i)] applied to the ring entry at [pos]. *)
Definition populate (count base size : Z) (ring : list io_uring_buf)
    (pos : Z) (i : Z) : option (list io_uring_buf) :=
  a ← getData count base size i;
  old ← ring !! Z.to_nat pos;
  Some (<[Z.to_nat pos := mkBuf a (u32 size) i]> ring).

(** [for (uint16_t i = 0; i < count_; i++) { ring_->bufs[i] = {};
    populate(ring_->bufs[i], i); }]: the entries written for the [n]
    indices from [i] on. The guard before the loop keeps [count_] below
    65535, so [i] does not wrap. *)
Fixpoint populate_from (n : nat) (i base size : Z) : list io_uring_buf :=
  match n with
  | O => []
  | S n' => mkBuf (base + i * size) (u32 size) i
              :: populate_from n' (i + 1) base size
  end.

(** The ring after that loop: the zero-filled mapping of [ringSize]
    entries with its first [count] entries populated. *)
Definition populate_all (count base size ringSize : Z)
  : list io_uring_buf :=
  populate_from (Z.to_nat count) 0 base size
  ++ replicate (Z.to_nat (ringSize - count)) (mkBuf 0 0 0).

(** What [mmap] gives: the address of the mapping, or [MAP_FAILED] and
    [errno]. *)
Inductive mapped : Type :=
| Mapped (addr : Z)
| MAP_FAILED (errno : Z).

(** The constructor; [mmap_addr] is what [mmap] returned. With
    [huge_pages] the source first calls [checkHugePages] of [util.h], taken
    to return. *)
Definition create (rx_cfg : IoUringRxConfig) (mmap_addr : mapped)
  : outcome BufferProviderV2 :=
  let count := u64 (provided_buffer_count rx_cfg) in
  let size := addAlignment (recv_size rx_cfg) in
  match ring_size_loop 33 1 count with
  | Done ringSize =>
    let ringMask := ringSize - 1 in
    let ringMemSize :=
      Z.land (ringSize * 16 + kBufferAlignMask) (Z.lnot kBufferAlignMask) in
    let mmapSize := count * size + ringMemSize in
    let mmapSize :=
      if huge_pages rx_cfg
      then Z.land (mmapSize + kHugePageMask) (Z.lnot kHugePageMask)
      else mmapSize in
    match mmap_addr with
    | MAP_FAILED errnoCopy =>
      die [Txt "unable to allocate pages of size "; Num mmapSize; Txt ": ";
           Strerror errnoCopy]
    | Mapped m =>
      let base := m + ringMemSize in
      if 65535 <=? count
      then die [Txt "buffer count too large: "; Num count]
      else
        Done (mkProviderV2 count size mmapSize base (u16 count)
                ringMemSize ringSize ringMask 0 (replicate 32 0)
                (populate_all count base size ringSize)
                (u16 count) [u16 count])
    end
  | Died d => Died d
  | OutOfBounds => OutOfBounds
  | OutOfFuel => OutOfFuel
  end.

(** The body of [for (uint16_t idx : indices)] in [returnIndex], on the
    pair (ring entries, [tailCached_]). *)
Definition flush_step (count base size mask : Z)
    (st : option (list io_uring_buf * Z)) (idx : Z)
  : option (list io_uring_buf * Z) :=
  '(ring, tail) ← st;
  ring' ← populate count base size ring (Z.land tail mask) idx;
  Some (ring', u16 (tail + 1)).

(** [returnIndex(uint16_t i)] *)
Definition returnIndex (b : BufferProviderV2) (i : Z)
  : outcome BufferProviderV2 :=
  let i := u16 i in
  if (0 <=? cachedIndices b) && (cachedIndices b <? 32) then
    let indices' := <[Z.to_nat (cachedIndices b) := i]> (indices b) in
    let cached := u32 (cachedIndices b + 1) in
    if cached <? Z.of_nat (length indices') then
      Done (mkProviderV2 (count_ b) (sizePerBuffer_ b) (bufferMmapSize_ b)
              (buffer_base b) (tailCached_ b) (ringMemSize_ b) (ringSize_ b)
              (ringMask_ b) cached indices' (bufs b) (ring_tail b)
              (released b))
    else
      match fold_left
              (flush_step (count_ b) (buffer_base b) (sizePerBuffer_ b)
                 (ringMask_ b))
              indices' (Some (bufs b, tailCached_ b)) with
      | None => OutOfBounds
      | Some (ring, tail) =>
        Done (mkProviderV2 (count_ b) (sizePerBuffer_ b) (bufferMmapSize_ b)
                (buffer_base b) tail (ringMemSize_ b) (ringSize_ b)
                (ringMask_ b) 0 indices' ring tail (released b ++ [tail]))
      end
  else OutOfBounds.

(** Returning a list of indices one by one. *)
Fixpoint returnAll (b : BufferProviderV2) (idxs : list Z)
  : outcome BufferProviderV2 :=
  match idxs with
  | [] => Done b
  | i :: rest =>
    match returnIndex b i with
    | Done b' => returnAll b' rest
    | other => other
    end
  end.

(** The value of the [j]-th release-store after the constructor's, for a
    pool of [c] buffers. *)
Definition nth_release (c : Z) (j : nat) : Z := u16 (c + 32 * Z.of_nat j).

(** A provider of [c] buffers that has flushed [q] batches and holds [r]
    staged indices. *)
Definition batched (c : Z) (b : BufferProviderV2) (q r : nat) : Prop :=
  count_ b = c /\ (r < 32)%nat /\ cachedIndices b = Z.of_nat r
  /\ length (indices b) = 32%nat
  /\ Forall (fun i => 0 <= i < c) (take r (indices b))
  /\ tailCached_ b = nth_release c q
  /\ released b = map (nth_release c) (seq 0 (S q))
  /\ exists e, 0 <= e /\ ringMask_ b = 2 ^ e - 1
                /\ 2 ^ e <= Z.of_nat (length (bufs b)).

(** A configuration with [n] provided buffers. *)
Definition cfg_with_count (n : Z) : IoUringRxConfig :=
  mkIoUringRxConfig 4096 false 0 2 true 64 0 n (n / 4) 1 false 1 false 0.

(** A list of tail values none of which is below an earlier one. *)
Definition never_decreases (l : list Z) : Prop :=
  forall (i j : nat) (x y : Z),
    (i <= j)%nat -> l !! i = Some x -> l !! j = Some y -> x <= y.

(** The indices [0, 1, ..., n-1]. *)
Definition first_indices (n : nat) : list Z := map Z.of_nat (seq 0 n).

(** The fields that only the constructor writes. *)
Definition layout (b : BufferProviderV2) : Z * Z * Z * Z * Z * Z * Z :=
  (count_ b, sizePerBuffer_ b, bufferMmapSize_ b, buffer_base b,
   ringMemSize_ b, ringSize_ b, ringMask_ b).

End SharedPool.

(** ** Creating the ring *)

Module RingSetup.

(** Flag values of the kernel's [io_uring.h]. *)
Definition IORING_SETUP_CQSIZE : Z := Z.shiftl 1 3.
Definition IORING_SETUP_R_DISABLED : Z := Z.shiftl 1 6.
Definition IORING_SETUP_SUBMIT_ALL : Z := Z.shiftl 1 7.
Definition IORING_SETUP_COOP_TASKRUN : Z := Z.shiftl 1 8.
Definition IORING_SETUP_SINGLE_ISSUER : Z := Z.shiftl 1 12.
Definition IORING_SETUP_DEFER_TASKRUN : Z := Z.shiftl 1 13.
Definition IORING_FEAT_CQE_SKIP : Z := Z.shiftl 1 11.
Definition IOSQE_CQE_SKIP_SUCCESS : Z := Z.shiftl 1 6.

(** The fields of [struct io_uring_params] that [mkIoUring] sets; the
    kernel answers with [features]. *)
Record io_uring_params : Type := mkParams { flags : Z; cq_entries : Z }.

(** One call of [io_uring_queue_init_params(entries, &ring, &params)]. *)
Record init_call : Type := mkCall { entries : Z; params : io_uring_params }.

(** [int cqe_count = rx_cfg.cqe_count <= 0 ? 128 * rx_cfg.sqe_count
                                           : rx_cfg.cqe_count] *)
Definition cqe_count_for (rx_cfg : IoUringRxConfig) : Z :=
  if cqe_count rx_cfg <=? 0 then 128 * sqe_count rx_cfg
  else cqe_count rx_cfg.

Definition with_skip_flag (c : IoUringRxConfig) (f : Z) : IoUringRxConfig :=
  mkIoUringRxConfig (recv_size c) (recvmsg c) (workload c)
    (provide_buffers c) (fixed_files c) (sqe_count c) (cqe_count c)
    (provided_buffer_count c) (provided_buffer_low_watermark c)
    (provided_buffer_compact c) (huge_pages c) (multishot_recv c)
    (defer_taskrun c) f.

Section Kernel.

(** The kernel: what a call returns and the [features] it reports. *)
Variable io_uring_queue_init_params : init_call -> Z * Z.

(** [mkIoUring(rx_cfg)]: the calls made, in order, and the configuration
    returned (the ring itself is the kernel's). *)
Definition mkIoUring (rx_cfg : IoUringRxConfig)
  : list init_call * outcome IoUringRxConfig :=
  let cqe_count := cqe_count_for rx_cfg in
  let newer_flags :=
    Z.lor IORING_SETUP_SUBMIT_ALL IORING_SETUP_COOP_TASKRUN in
  let flags0 := Z.lor newer_flags IORING_SETUP_CQSIZE in
  let flags1 :=
    if defer_taskrun rx_cfg
    then Z.lor (Z.lor (Z.lor flags0 IORING_SETUP_DEFER_TASKRUN)
                  IORING_SETUP_SINGLE_ISSUER) IORING_SETUP_R_DISABLED
    else flags0 in
  let call1 := mkCall (sqe_count rx_cfg) (mkParams flags1 (u32 cqe_count)) in
  let finish (features : Z) : IoUringRxConfig :=
    if Z.land features IORING_FEAT_CQE_SKIP =? 0 then rx_cfg
    else with_skip_flag rx_cfg IOSQE_CQE_SKIP_SUCCESS in
  let '(ret, features) := io_uring_queue_init_params call1 in
  if ret <? 0 then
    let call2 :=
      mkCall (sqe_count rx_cfg)
        (mkParams (Z.land flags1 (Z.lnot newer_flags)) (u32 cqe_count)) in
    let '(ret2, features2) := io_uring_queue_init_params call2 in
    ([call1; call2],
     match checkedErrno ret2 "io_uring_queue_init_params" with
     | Done _ => Done (finish features2)
     | Died d => Died d
     | OutOfBounds => OutOfBounds
     | OutOfFuel => OutOfFuel
     end)
  else ([call1], Done (finish features)).

End Kernel.

(** What every call to the kernel asks for. *)
Definition asks_for (rx_cfg : IoUringRxConfig) (c : init_call) : Prop :=
  entries c = sqe_count rx_cfg
  /\ cq_entries (params c)
     = (if cqe_count rx_cfg <=? 0 then 128 * sqe_count rx_cfg
        else cqe_count rx_cfg)
  /\ Z.land (flags (params c)) IORING_SETUP_CQSIZE = IORING_SETUP_CQSIZE.

(** A kernel that accepts every call and reports no features. *)
Definition accepting_kernel (c : init_call) : Z * Z := (0, 0).

(** [sqe_count = 64] with an explicit [cqe_count = 100]. *)
Definition small_cq_cfg : IoUringRxConfig :=
  mkIoUringRxConfig 4096 false 0 2 true 64 100 8000 2000 1 false 1 false 0.

(** A kernel that knows [IORING_FEAT_CQE_SKIP] but not yet
    [IORING_SETUP_SUBMIT_ALL]: it refuses a call with that flag ([-EINVAL])
    and accepts the others. *)
Definition older_kernel (c : init_call) : Z * Z :=
  if Z.testbit (flags (params c)) 7 then (-22, 0)
  else (0, IORING_FEAT_CQE_SKIP).

End RingSetup.

(** ** The statistics recorder *)

Module Stats.

(** [struct tms], the two fields read. *)
Record tms : Type := mkTms { tms_utime : Z; tms_stime : Z }.

(** What the clocks say during one call: [steady_clock::now()] in
    nanoseconds, and the return value and buffer of [times]. *)
Record clocks : Type := mkClocks {
  steady_now : Z;
  times_ret : Z;
  times_buf : tms
}.

(** [class RxStats]; time points and durations are in nanoseconds. *)
Record RxStats : Type := mkStats {
  name_ : string;
  countReads_ : bool;
  reads_ : list Z;
  lastStats_ : Z;
  ticksPerSecond_ : Z;
  lastTimes_ : tms;
  lastClock_ : Z;
  loops_ : Z;
  overflows_ : Z;
  waitStarted_ : Z;
  idle_ : Z;
  lastBytes_ : Z;
  lastRequests_ : Z;
  lastRps_ : Z
}.

(** The [read_per_loop] part of a line: the three percentiles and the
    average as total over size. *)
Record read_stats : Type := mkReadStats {
  p10 : Z; p50 : Z; p90 : Z; avg_total : Z; avg_size : Z
}.

(** One summary line: the values [snprintf] formats. [rps] and [bps] are
    doubles in the source; the line keeps the counter differences they are
    computed from and the interval [l_interval_ms] they are divided by. *)
Record line : Type := mkLine {
  l_name : string;
  l_requests : Z;
  l_bytes : Z;
  l_interval_ms : Z;
  l_idle_ms : Z;
  l_user_ms : Z;
  l_system_ms : Z;
  l_wall_ms : Z;
  l_loops : Z;
  l_overflows : Z;
  l_reads : option read_stats
}.

Definition second_ns : Z := 1000000000.
Definition kEpsilon_ns : Z := 100000.

(** The constructor. *)
Definition create (name : string) (countReads : bool) (ticksPerSecond : Z)
    (c : clocks) : outcome RxStats :=
  match checkedErrno (times_ret c) "initial times" with
  | Done clk =>
    Done (mkStats name countReads [] (steady_now c) ticksPerSecond
            (times_buf c) clk 0 0 0 0 0 0 0)
  | Died d => Died d
  | OutOfBounds => OutOfBounds
  | OutOfFuel => OutOfFuel
  end.

Definition startWait (s : RxStats) (now : Z) : RxStats :=
  mkStats (name_ s) (countReads_ s) (reads_ s) (lastStats_ s)
    (ticksPerSecond_ s) (lastTimes_ s) (lastClock_ s) (loops_ s)
    (overflows_ s) now (idle_ s) (lastBytes_ s) (lastRequests_ s)
    (lastRps_ s).

Definition doneWait (s : RxStats) (now : Z) : RxStats :=
  mkStats (name_ s) (countReads_ s) (reads_ s) (lastStats_ s)
    (ticksPerSecond_ s) (lastTimes_ s) (lastClock_ s) (loops_ s)
    (overflows_ s) (waitStarted_ s)
    (if waitStarted_ s + kEpsilon_ns <? now
     then idle_ s + (now - waitStarted_ s) else idle_ s)
    (lastBytes_ s) (lastRequests_ s) (lastRps_ s).

(** [getMs(from, to)] *)
Definition getMs (s : RxStats) (from to : Z) : Z :=
  if to <=? from then 0 else ((to - from) * 1000) / ticksPerSecond_ s.

(** [getReadStats]: [None] is the empty text of an empty [reads_].
    [(int)(size * 0.9)] is [size * 9 / 10] for every size a vector has. *)
Definition getReadStats (reads : list Z) : option read_stats :=
  match reads with
  | [] => None
  | _ =>
    let sorted := merge_sort Z.le reads in
    let size := Z.of_nat (length sorted) in
    let at_ (i : Z) := default 0 (sorted !! Z.to_nat i) in
    Some (mkReadStats (at_ (size / 10)) (at_ (size / 2))
            (at_ (size * 9 / 10)) (foldr Z.add 0 sorted) size)
  end.

Section Doubles.

(** [(size_t) (((d) * 1000.0) / millis)]: the rate, a double, as stored
    back into [lastRps_]. *)
Variable rate_as_size_t : Z -> Z -> Z.

(** [doLog(bytes, requests, now, duration)]; [snprintf] is taken to
    succeed. The lines logged and the recorder afterwards. *)
Definition doLog (s : RxStats) (c : clocks) (bytes requests : Z)
    (duration : Z) : outcome (list line * RxStats) :=
  let millis := duration / 1000000 in
  match checkedErrno (times_ret c) "loop times" with
  | Done clock_now =>
    let times_now := times_buf c in
    let out :=
      if (lastRequests_ s <? requests) && negb (lastRps_ s =? 0) then
        [mkLine (name_ s) (u64 (requests - lastRequests_ s))
           (u64 (bytes - lastBytes_ s)) millis
           (idle_ s / 1000000)
           (getMs s (tms_utime (lastTimes_ s)) (tms_utime times_now))
           (getMs s (tms_stime (lastTimes_ s)) (tms_stime times_now))
           (getMs s (lastClock_ s) clock_now)
           (loops_ s) (overflows_ s)
           (if countReads_ s then getReadStats (reads_ s) else None)]
      else [] in
    let reads :=
      if (lastRequests_ s <? requests) && negb (lastRps_ s =? 0)
         && countReads_ s
      then [] else reads_ s in
    Done (out,
          mkStats (name_ s) (countReads_ s) reads (steady_now c)
            (ticksPerSecond_ s) times_now clock_now 0 0 (waitStarted_ s) 0
            bytes requests
            (rate_as_size_t (u64 (requests - lastRequests_ s)) millis))
  | Died d => Died d
  | OutOfBounds => OutOfBounds
  | OutOfFuel => OutOfFuel
  end.

(** [doneLoop(bytes, requests, reads, is_overflow)] *)
Definition doneLoop (s : RxStats) (c : clocks) (bytes requests reads : Z)
    (is_overflow : bool) : outcome (list line * RxStats) :=
  let now := steady_now c in
  let duration := now - lastStats_ s in
  let s1 :=
    mkStats (name_ s) (countReads_ s)
      (if countReads_ s then reads_ s ++ [reads] else reads_ s)
      (lastStats_ s) (ticksPerSecond_ s) (lastTimes_ s) (lastClock_ s)
      (u64 (loops_ s + 1))
      (if is_overflow then u64 (overflows_ s + 1) else overflows_ s)
      (waitStarted_ s) (idle_ s) (lastBytes_ s) (lastRequests_ s)
      (lastRps_ s) in
  if second_ns <=? duration then doLog s1 c bytes requests duration
  else Done ([], s1).

End Doubles.

(** The condition under which [doLog] prints. *)
Definition prints (s : RxStats) (requests : Z) : bool :=
  (lastRequests_ s <? requests) && negb (lastRps_ s =? 0).

(** The rate with the division done exactly. *)
Definition exact_rate (d millis : Z) : Z := d * 1000 / millis.

(** A recorder made at time 0 and a first loop that ends one second and
    ten requests later. *)
Definition at_start : clocks := mkClocks 0 1000 (mkTms 0 0).
Definition one_second_later : clocks :=
  mkClocks 1000000000 1100 (mkTms 40 20).

End Stats.

(** ** The write path of the readiness engine *)

Module Epoll.

Definition EPOLLIN : Z := 1.
Definition EPOLLOUT : Z := 4.
Definition EPOLLET : Z := Z.shiftl 1 31.
Definition EAGAIN : Z := 11.

(** [struct EPollData], without the parser, which [doWrite] leaves alone. *)
Record EPollData : Type := mkData {
  type : Z;
  fd : Z;
  to_write : Z;
  write_in_epoll : bool
}.

(** The part of [EPollRunner] that [doWrite] touches: the size of
    [rcvbuff] and, behind [epoll_fd], the notifier's interest list: the
    event mask each registered descriptor is watched for. *)
Record EPollRunner : Type := mkRunner {
  rcvbuff_size : Z;
  interest : gmap Z Z
}.

(** What one [send] call gives: its return value and [errno]. *)
Record sent : Type := mkSent { res : Z; errno : Z }.

(** [epoll_ctl(epoll_fd, EPOLL_CTL_MOD, fd, &ev)]: 0 and the new interest
    list, or -1 for a descriptor that is not registered. *)
Definition epoll_ctl_mod (m : gmap Z Z) (fd events : Z) : Z * gmap Z Z :=
  match m !! fd with
  | Some _ => (0, <[fd := events]> m)
  | None => (-1, m)
  end.

(** The [while (ed->to_write)] loop; [sends] is what the kernel answers to
    the successive [send] calls. The pending byte count when the loop is
    left; [OutOfFuel] when the answers run out before it is. *)
Fixpoint write_loop (sends : list sent) (to_write : Z) : outcome Z :=
  if to_write =? 0 then Done to_write else
  match sends with
  | [] => OutOfFuel
  | s :: rest =>
    if (res s <? 0) && (errno s =? EAGAIN) then Done to_write
    else if res s <? 0 then write_loop rest 0
    else write_loop rest (to_write - Z.min (u32 to_write) (u32 (res s)))
  end.

(** [doWrite(ed)] *)
Definition doWrite (sends : list sent) (r : EPollRunner) (ed : EPollData)
  : outcome (EPollRunner * EPollData) :=
  match write_loop sends (to_write ed) with
  | Done pending =>
    if write_in_epoll ed && (pending =? 0) then
      let '(ret, m) := epoll_ctl_mod (interest r) (fd ed) EPOLLIN in
      match checkedErrno ret "epoll_remove_write" with
      | Done _ => Done (mkRunner (rcvbuff_size r) m,
                        mkData (type ed) (fd ed) pending false)
      | Died d => Died d
      | OutOfBounds => OutOfBounds
      | OutOfFuel => OutOfFuel
      end
    else if negb (write_in_epoll ed) && negb (pending =? 0) then
      let '(ret, m) :=
        epoll_ctl_mod (interest r) (fd ed) (Z.lor EPOLLIN EPOLLOUT) in
      match checkedErrno ret "epoll_add_write" with
      | Done _ => Done (mkRunner (rcvbuff_size r) m,
                        mkData (type ed) (fd ed) pending true)
      | Died d => Died d
      | OutOfBounds => OutOfBounds
      | OutOfFuel => OutOfFuel
      end
    else Done (r, mkData (type ed) (fd ed) pending (write_in_epoll ed))
  | Died d => Died d
  | OutOfBounds => OutOfBounds
  | OutOfFuel => OutOfFuel
  end.

(** Write interest as the notifier has it: the descriptor is registered
    with [EPOLLOUT] in its mask. *)
Definition armed (r : EPollRunner) (fd : Z) : bool :=
  match interest r !! fd with
  | Some ev => negb (Z.land ev EPOLLOUT =? 0)
  | None => false
  end.

(** A live connection: registered, and [write_in_epoll] says what the
    notifier holds. [doAccept] makes it so ([EPOLLIN | EPOLLET], [false]). *)
Definition live (r : EPollRunner) (ed : EPollData) : Prop :=
  is_Some (interest r !! fd ed) /\ armed r (fd ed) = write_in_epoll ed.

(** A connection on descriptor 7 as [doAccept] registers it, with ten
    reply bytes pending, and a kernel that takes five bytes and then has
    no room left. *)
Definition accepted : EPollRunner :=
  mkRunner 4096 {[ 7 := Z.lor EPOLLIN EPOLLET ]}.
Definition ten_pending : EPollData := mkData 0 7 10 false.
Definition five_then_full : list sent := [mkSent 5 0; mkSent (-1) EAGAIN].

(** A kernel whose first answer to [send] is [-1] with [EPIPE]. *)
Definition broken_pipe : list sent := [mkSent (-1) 32].

End Epoll.

(** ** The read completions of the ring engine *)

Module RingEngine.

Definition ENOBUFS : Z := 105.
Definition ECONNRESET : Z := 104.
Definition IORING_CQE_F_BUFFER : Z := Z.shiftl 1 0.
Definition IORING_CQE_F_MORE : Z := Z.shiftl 1 1.
Definition IORING_CQE_BUFFER_SHIFT : Z := 16.
Definition IOSQE_FIXED_FILE : Z := Z.shiftl 1 0.
Definition IOSQE_BUFFER_SELECT : Z := Z.shiftl 1 5.
Definition IORING_RECV_MULTISHOT : Z := Z.shiftl 1 1.
Definition MSG_WAITALL : Z := 256.

Definition kAccept : Z := 1.
Definition kRead : Z := 2.
Definition kWrite : Z := 3.
Definition kOther : Z := 0.

(** [tag], [untag], [get_tag]: the kind of a submission in the low bits of
    the address of its 16-byte aligned object. The checks of [tag] are
    compiled in unless [NDEBUG] is defined; as with [assert], the model is
    the build that has them. [x] is an [int], converted to [size_t] for
    the [|]. *)
Definition tag (ptr x : Z) : outcome Z :=
  if negb (Z.land ptr 15 =? 0) then die [Txt "bad ptr"]
  else if 4 <? x then die [Txt "bad tag"]
  else Done (Z.lor ptr (u64 x)).
Definition untag (ptr : Z) : Z := Z.land ptr (Z.lnot 15).
Definition get_tag (ptr : Z) : Z := Z.land ptr 15.

Record io_uring_cqe : Type := mkCqe { user_data : Z; res : Z; flags : Z }.

(** A completion as the engine meets it: the entry, the bytes of the
    buffer the kernel filled for it (the provided buffer it selected, or
    the socket's own [buff]), and for a multishot [recvmsg] what
    [io_uring_recvmsg_validate] and the payload accessors of liburing say:
    [None] for an invalid envelope, else offset and length of the payload. *)
Record completion : Type := mkCompletion {
  cqe : io_uring_cqe;
  buffer : list byte;
  recvmsg_out : option (Z * Z)
}.

(** What the [io_uring_prep_*] calls of the engine put into an entry. *)
Inductive sqe_op : Type :=
| Recv (fd len : Z)
| Recvmsg (fd : Z)
| Send (fd len msg_flags : Z)
| Close (fd : Z)
| CloseDirect (file_index : Z)
| ProvideBuffersOp (pb : ClassicPool.ProvideBuffers).

Record io_uring_sqe : Type := mkSqe {
  op : sqe_op;
  sqe_flags : Z;
  ioprio : Z;
  buf_group : Z;
  sqe_user_data : Z
}.

(** [struct BasicSock] ([cfg_] is the runner's [rxCfg_]). *)
Record BasicSock : Type := mkSock {
  fd_ : Z;
  parser : Parser.ProtocolParser;
  do_send : Parser.ConsumeResults;
  closed_ : bool
}.

(** [TSock::TBufferProvider]: the classic provider unless the shared ring
    is selected. *)
Inductive provider : Type :=
| Classic (b : ClassicPool.BufferProviderV1)
| Shared (b : SharedPool.BufferProviderV2).

(** [struct IOUringRunner]. [sq] holds the entries of the submission
    queue that are filled and that the kernel has not taken yet,
    [sq_entries] is the size of that queue, [submits] what the calls of
    [io_uring_submit] still to come will return; [heap] holds the [TSock]
    objects alive, by address; [closed_fds] lists the descriptors given to
    [::close], [logged] the lines given to [log]. *)
Record IOUringRunner : Type := mkRunner {
  rxCfg_ : IoUringRxConfig;
  expected : Z;
  stopping : bool;
  sq : list io_uring_sqe;
  buffers_ : provider;
  enobuffCount_ : Z;
  requestsRx_ : Z;
  bytesRx_ : Z;
  socks_ : Z;
  sendBuff_size : Z;
  heap : gmap Z BasicSock;
  closed_fds : list Z;
  logged : list (list item);
  sq_entries : Z;
  submits : list Z
}.

(** [kUseBufferProviderVersion], from the flags [makeIoUringRx] derives
    from [provide_buffers]. *)
Definition kUseBufferProviderVersion (r : IOUringRunner) : Z :=
  if provide_buffers (rxCfg_ r) =? 2 then 2
  else if provide_buffers (rxCfg_ r) =? 1 then 1 else 0.

(** [sizeof(buff)]: [BasicSockPicker] gives the socket 64 bytes with the
    classic provider and 4096 otherwise. *)
Definition ReadSize (r : IOUringRunner) : Z :=
  if provide_buffers (rxCfg_ r) =? 1 then 64 else 4096.

(** Engine code: it runs on the runner and ends in an [outcome]. *)
Definition M (A : Type) : Type := IOUringRunner -> outcome A * IOUringRunner.

Definition ret {A : Type} (a : A) : M A := fun r => (Done a, r).

Definition bind {A B : Type} (m : M A) (k : A -> M B) : M B :=
  fun r =>
    match m r with
    | (Done a, r') => k a r'
    | (Died d, r') => (Died d, r')
    | (OutOfBounds, r') => (OutOfBounds, r')
    | (OutOfFuel, r') => (OutOfFuel, r')
    end.

Definition lift {A : Type} (o : outcome A) : M A := fun r => (o, r).
Definition get : M IOUringRunner := fun r => (Done r, r).
Definition put (r : IOUringRunner) : M unit := fun _ => (Done tt, r).

#[local] Notation "x <- m ; k" := (bind m (fun x => k))
  (at level 20, m at level 100, k at level 200, only parsing).
#[local] Notation "' x <- m ; k" := (bind m (fun x => k))
  (at level 20, x pattern, m at level 100, k at level 200, only parsing).
#[local] Notation "m >> k" := (bind m (fun _ => k))
  (at level 100, k at level 200, only parsing, right associativity).

Definition when (b : bool) (m : M unit) : M unit := if b then m else ret tt.

(** Filling the entry that [get_sqe] handed out: from then on it is in
    the queue for the kernel to take. *)
Definition fill_sqe (e : io_uring_sqe) : M unit :=
  r <- get ;
  put (mkRunner (rxCfg_ r) (expected r) (stopping r) (sq r ++ [e])
         (buffers_ r) (enobuffCount_ r) (requestsRx_ r) (bytesRx_ r)
         (socks_ r) (sendBuff_size r) (heap r) (closed_fds r) (logged r)
         (sq_entries r) (submits r)).

Definition set_expected (n : Z) : M unit :=
  r <- get ;
  put (mkRunner (rxCfg_ r) n (stopping r) (sq r) (buffers_ r)
         (enobuffCount_ r) (requestsRx_ r) (bytesRx_ r) (socks_ r)
         (sendBuff_size r) (heap r) (closed_fds r) (logged r) (sq_entries r)
         (submits r)).

(** [io_uring_submit(&ring)]: what the kernel answers, having taken that
    many entries off the queue (none with an error). *)
Definition io_uring_submit : M Z :=
  r <- get ;
  match submits r with
  | [] => lift OutOfFuel
  | got :: rest =>
    put (mkRunner (rxCfg_ r) (expected r) (stopping r)
           (drop (Z.to_nat got) (sq r)) (buffers_ r) (enobuffCount_ r)
           (requestsRx_ r) (bytesRx_ r) (socks_ r) (sendBuff_size r) (heap r)
           (closed_fds r) (logged r) (sq_entries r) rest) >>
    ret got
  end.

(** The [while (expected)] loop of [submit]; every pass takes one answer
    of the kernel, so their number bounds it. *)
Fixpoint submit_loop (fuel : nat) : M unit :=
  r <- get ;
  if expected r =? 0 then ret tt else
  match fuel with
  | O => lift OutOfFuel
  | S fuel' =>
    got <- io_uring_submit ;
    (if negb (got =? expected r) && (got =? 0) then
       if stopping r then set_expected (expected r - 1)
       else lift (die [Txt "literally submitted nothing, wanted ";
                       Num (expected r)])
     else ret tt) >>
    r' <- get ;
    set_expected (expected r' - got) >>
    submit_loop fuel'
  end.

(** [submit()] *)
Definition submit : M unit :=
  r <- get ; submit_loop (length (submits r)).

(** [io_uring_get_sqe] returns no entry when as many as the queue has are
    waiting for the kernel. *)
Definition sq_full (r : IOUringRunner) : bool :=
  sq_entries r <=? Z.of_nat (length (sq r)).

(** [get_sqe()]. The [std::runtime_error] it throws ends the program:
    [run] logs it and throws it on. *)
Definition get_sqe : M unit :=
  r <- get ;
  (if sq_full r then
     submit >>
     r' <- get ;
     if sq_full r' then lift (Died [Txt "no sqe available"]) else ret tt
   else ret tt) >>
  r' <- get ;
  set_expected (expected r' + 1).

Definition set_buffers (b : provider) : M unit :=
  r <- get ;
  put (mkRunner (rxCfg_ r) (expected r) (stopping r) (sq r) b
         (enobuffCount_ r) (requestsRx_ r) (bytesRx_ r) (socks_ r)
         (sendBuff_size r) (heap r) (closed_fds r) (logged r) (sq_entries r)
         (submits r)).

Definition set_heap (h : gmap Z BasicSock) : M unit :=
  r <- get ;
  put (mkRunner (rxCfg_ r) (expected r) (stopping r) (sq r) (buffers_ r)
         (enobuffCount_ r) (requestsRx_ r) (bytesRx_ r) (socks_ r)
         (sendBuff_size r) h (closed_fds r) (logged r) (sq_entries r)
         (submits r)).

(** [++enobuffCount_], the new value. *)
Definition incr_enobuffCount : M Z :=
  r <- get ;
  put (mkRunner (rxCfg_ r) (expected r) (stopping r) (sq r) (buffers_ r)
         (u32 (enobuffCount_ r + 1)) (requestsRx_ r) (bytesRx_ r) (socks_ r)
         (sendBuff_size r) (heap r) (closed_fds r) (logged r) (sq_entries r)
         (submits r)) >>
  ret (u32 (enobuffCount_ r + 1)).

(** [finishedRequests(n)], [didRead(x)], [delSock()] of [RunnerBase]
    (verbose-only logging left out); [n] is an [int]. *)
Definition finishedRequests (n : Z) : M unit :=
  r <- get ;
  put (mkRunner (rxCfg_ r) (expected r) (stopping r) (sq r) (buffers_ r)
         (enobuffCount_ r) (u64 (requestsRx_ r + as_int n)) (bytesRx_ r)
         (socks_ r)
         (sendBuff_size r) (heap r) (closed_fds r) (logged r) (sq_entries r)
         (submits r)).

Definition didRead (x : Z) : M unit :=
  r <- get ;
  put (mkRunner (rxCfg_ r) (expected r) (stopping r) (sq r) (buffers_ r)
         (enobuffCount_ r) (requestsRx_ r) (u64 (bytesRx_ r + x)) (socks_ r)
         (sendBuff_size r) (heap r) (closed_fds r) (logged r) (sq_entries r)
         (submits r)).

Definition delSock : M unit :=
  r <- get ;
  put (mkRunner (rxCfg_ r) (expected r) (stopping r) (sq r) (buffers_ r)
         (enobuffCount_ r) (requestsRx_ r) (bytesRx_ r) (socks_ r - 1)
         (sendBuff_size r) (heap r) (closed_fds r) (logged r) (sq_entries r)
         (submits r)).

Definition grow_sendBuff (len : Z) : M unit :=
  r <- get ;
  put (mkRunner (rxCfg_ r) (expected r) (stopping r) (sq r) (buffers_ r)
         (enobuffCount_ r) (requestsRx_ r) (bytesRx_ r) (socks_ r)
         (Z.max (sendBuff_size r) len) (heap r) (closed_fds r) (logged r) (sq_entries r)
         (submits r)).

Definition close_fd (fd : Z) : M unit :=
  r <- get ;
  put (mkRunner (rxCfg_ r) (expected r) (stopping r) (sq r) (buffers_ r)
         (enobuffCount_ r) (requestsRx_ r) (bytesRx_ r) (socks_ r)
         (sendBuff_size r) (heap r) (closed_fds r ++ [fd]) (logged r) (sq_entries r)
         (submits r)).

Definition log (l : list item) : M unit :=
  r <- get ;
  put (mkRunner (rxCfg_ r) (expected r) (stopping r) (sq r) (buffers_ r)
         (enobuffCount_ r) (requestsRx_ r) (bytesRx_ r) (socks_ r)
         (sendBuff_size r) (heap r) (closed_fds r) (logged r ++ [l])
         (sq_entries r) (submits r)).

(** Dereferencing a [TSock*]: an address without a live object is a
    dangling pointer. *)
Definition sock_at (ptr : Z) : M BasicSock :=
  r <- get ;
  match heap r !! ptr with
  | Some s => ret s
  | None => lift OutOfBounds
  end.

Definition store_sock (ptr : Z) (s : BasicSock) : M unit :=
  r <- get ; set_heap (<[ptr := s]> (heap r)).

Definition isFixedFiles (r : IOUringRunner) : bool := fixed_files (rxCfg_ r).
Definition isMultiShotRecv (r : IOUringRunner) : bool :=
  negb (multishot_recv (rxCfg_ r) =? 0).

(** The provider interface as the engine uses it. *)
Definition toProvideCount (b : provider) : Z :=
  match b with
  | Classic b => ClassicPool.toProvideCount_ b
  | Shared b => SharedPool.cachedIndices b
  end.

Definition needsToProvide (b : provider) : bool :=
  match b with
  | Classic b => ClassicPool.needsToProvide b
  | Shared _ => false
  end.

Definition sizePerBuffer (b : provider) : Z :=
  match b with
  | Classic b => ClassicPool.sizePerBuffer_ b
  | Shared b => SharedPool.sizePerBuffer_ b
  end.

(** [getData(uint16_t i)]: is [buffers_[i]] inside the vector? *)
Definition hasData (b : provider) (i : Z) : bool :=
  match b with
  | Classic b => u16 i <? ClassicPool.buffers_size b
  | Shared b => u16 i <? SharedPool.count_ b
  end.

Definition returnIndex (i : Z) : M unit :=
  r <- get ;
  match buffers_ r with
  | Classic b => set_buffers (Classic (ClassicPool.returnIndex b i))
  | Shared b =>
    b' <- lift (SharedPool.returnIndex b i) ; set_buffers (Shared b')
  end.

(** The [while (buffers_.canProvide())] loop of [provideBuffers]; every
    pass pops one range, so the length of the free list bounds it. *)
Fixpoint provide_loop (fuel : nat) : M unit :=
  r <- get ;
  match buffers_ r with
  | Classic b =>
    if ClassicPool.canProvide b then
      match fuel with
      | O => lift OutOfFuel
      | S fuel' =>
        get_sqe >>
        match ClassicPool.provide b with
        | ClassicPool.Provided pb b' =>
          set_buffers (Classic b') >>
          fill_sqe (mkSqe (ProvideBuffersOp pb)
                      RingSetup.IOSQE_CQE_SKIP_SUCCESS 0 0 0) >>
          provide_loop fuel'
        | ClassicPool.BackOfEmpty => lift OutOfBounds
        | ClassicPool.OutsideBuffers => lift OutOfBounds
        | ClassicPool.AssertionFailed =>
          lift (die [Txt "assert(toProvide_.size() != 0 || toProvideCount_ == 0)"])
        end
      end
    else ret tt
  | Shared _ => ret tt
  end.

(** [provideBuffers(force)] *)
Definition provideBuffers (force : bool) : M unit :=
  r <- get ;
  if negb (kUseBufferProviderVersion r =? 1) then ret tt
  else if negb (force || needsToProvide (buffers_ r)) then ret tt
  else
    match buffers_ r with
    | Classic b =>
      (if negb (provided_buffer_compact (rxCfg_ r) =? 0)
       then set_buffers (Classic (ClassicPool.compact b)) else ret tt) >>
      r' <- get ;
      match buffers_ r' with
      | Classic b' => provide_loop (length (ClassicPool.toProvide_ b'))
      | Shared _ => ret tt
      end
    | Shared _ => ret tt
    end.

(** [providedBufferIdx(cqe)] *)
Definition providedBufferIdx (c : io_uring_cqe) : Z :=
  if Z.land (flags c) IORING_CQE_F_BUFFER =? 0 then -1
  else Z.shiftr (flags c) IORING_CQE_BUFFER_SHIFT.

(** [struct DidReadResult] *)
Record DidReadResult : Type := mkDidRead {
  amount : Z;
  recycleBufferIdx : Z
}.

(** The private [TSock::didRead(b, n)]: parse, run the workload (which
    only burns CPU), add to [do_send]. [data] is the offset of [b] in the
    completion's buffer. *)
Definition sock_consume (ptr : Z) (mem : list byte) (data n : Z) : M unit :=
  s <- sock_at ptr ;
  '(consumed, p') <- lift (Parser.consume (parser s) mem data n) ;
  store_sock ptr
    (mkSock (fd_ s) p' (Parser.add_results (do_send s) consumed) (closed_ s)).

(** [TSock::didRead(provider, cqe)] *)
Definition sock_didRead (ptr : Z) (c : completion) : M DidReadResult :=
  r <- get ;
  let res0 := res (cqe c) in
  if res0 <=? 0 then ret (mkDidRead res0 (-1))
  else if negb (kUseBufferProviderVersion r =? 0) then
    let idx := providedBufferIdx (cqe c) in
    if negb (hasData (buffers_ r) idx) then lift OutOfBounds
    else if isMultiShotRecv r && recvmsg (rxCfg_ r) then
      if idx <? 0 then lift (die [Txt "bad recycleBufferIdx"])
      else
        match recvmsg_out c with
        | None => ret (mkDidRead 0 idx)
        | Some (payload, payload_length) =>
          sock_consume ptr (buffer c) payload payload_length >>
          ret (mkDidRead payload_length idx)
        end
    else
      sock_consume ptr (buffer c) 0 res0 >>
      ret (mkDidRead res0 idx)
  else
    sock_consume ptr (buffer c) 0 res0 >>
    ret (mkDidRead res0 (-1)).

(** [addRead(sock)]: [get_sqe], [TSock::addRead], the [kRead] tag. *)
Definition addRead (ptr : Z) : M unit :=
  get_sqe >>
  r <- get ;
  s <- sock_at ptr ;
  let fixed := if isFixedFiles r then IOSQE_FIXED_FILE else 0 in
  data <- lift (tag ptr kRead) ;
  if negb (kUseBufferProviderVersion r =? 0) then
    let size :=
      if isMultiShotRecv r then 0 else sizePerBuffer (buffers_ r) in
    let multi := if isMultiShotRecv r then IORING_RECV_MULTISHOT else 0 in
    fill_sqe
      (mkSqe (if recvmsg (rxCfg_ r) then Recvmsg (fd_ s)
              else Recv (fd_ s) size)
         (Z.lor IOSQE_BUFFER_SELECT fixed) multi ClassicPool.kBgid data)
  else if recvmsg (rxCfg_ r) then
    fill_sqe (mkSqe (Recvmsg (fd_ s)) fixed 0 0 data)
  else
    fill_sqe (mkSqe (Recv (fd_ s) (ReadSize r)) fixed 0 0 data).

(** [addSend(sock, len)]; [len] is a [uint32_t]. *)
Definition addSend (ptr : Z) (len : Z) : M unit :=
  let len := u32 len in
  grow_sendBuff len >>
  get_sqe >>
  r <- get ;
  s <- sock_at ptr ;
  data <- lift (tag ptr kWrite) ;
  fill_sqe
    (mkSqe (Send (fd_ s) len MSG_WAITALL)
       (Z.lor (if isFixedFiles r then IOSQE_FIXED_FILE else 0)
          (cqe_skip_success_flag (rxCfg_ r)))
       0 0 data).

(** [didSend()] *)
Definition didSend (ptr : Z) : M unit :=
  s <- sock_at ptr ;
  store_sock ptr (mkSock (fd_ s) (parser s) Parser.no_results (closed_ s)).

(** [processRead(cqe)] *)
Definition processRead (c : completion) : M unit :=
  let sock := untag (user_data (cqe c)) in
  got <- sock_didRead sock c ;
  when (0 <? recycleBufferIdx got)
    (returnIndex (recycleBufferIdx got) >> provideBuffers false) >>
  if 0 <? amount got then
    s <- sock_at sock ;
    when (0 <? Parser.to_write (do_send s))
      (finishedRequests (Parser.count (do_send s)) >>
       addSend sock (Parser.to_write (do_send s)) >>
       didSend sock) >>
    didRead (amount got) >>
    r <- get ;
    when (negb (isMultiShotRecv r)
          || (Z.land (flags (cqe c)) IORING_CQE_F_MORE =? 0))
      (addRead sock)
  else
    if res (cqe c) =? - ENOBUFS then
      n <- incr_enobuffCount ;
      r <- get ;
      lift (die (A := unit)
              [Txt "not enough buffers, but will just requeue. so far have ";
                 Num n;
                 Txt "state: can provide=";
                 Num (toProvideCount (buffers_ r));
                 Txt " need=";
                 Flag (needsToProvide (buffers_ r))]) >>
      addRead sock
    else
      r <- get ;
      when ((res (cqe c) <? 0) && negb (stopping r)
            && negb (res (cqe c) =? - ECONNRESET))
        (log [Txt "unexpected read: "; Num (res (cqe c)); Txt "(";
              Strerror (- res (cqe c)); Txt ") deleting "; Num sock]) >>
      if isFixedFiles r then
        get_sqe >>
        s <- sock_at sock ;
        store_sock sock (mkSock (fd_ s) (parser s) (do_send s) true) >>
        data <- lift (tag sock kOther) ;
        fill_sqe (mkSqe (CloseDirect (fd_ s)) 0 0 0 data)
      else
        s <- sock_at sock ;
        close_fd (fd_ s) >>
        set_heap (delete sock (heap r)) >>
        delSock.

Definition LIBURING_UDATA_TIMEOUT : Z := 18446744073709551615.

Section Dispatch.

(** The two handlers that read completions never reach. *)
Variables processAccept processClose : completion -> M unit.

(** [processCqe(cqe, reads)]; the new value of [reads]. *)
Definition processCqe (c : completion) (reads : Z) : M Z :=
  let t := get_tag (user_data (cqe c)) in
  if t =? kAccept then
    _ <- processAccept c ; ret reads
  else if t =? kRead then
    _ <- processRead c ; ret (u32 (reads + 1))
  else if t =? kWrite then
    (if res (cqe c) <? 0 then
       s <- sock_at (untag (user_data (cqe c))) ;
       when (negb (closed_ s))
         (log [Txt "bad socket write "; Num (res (cqe c));
               Txt " closing="; Flag (closed_ s);
               Txt " fd="; Num (fd_ s)])
     else ret tt) >>
    ret reads
  else if t =? kOther then
    (if user_data (cqe c) =? 0 then ret tt
     else
       s <- sock_at (untag (user_data (cqe c))) ;
       when (closed_ s) (processClose c)) >>
    ret reads
  else if user_data (cqe c) =? LIBURING_UDATA_TIMEOUT then ret reads
  else
    lift (die [Txt "unexpected completion:"; Num (user_data (cqe c))]).

(** [io_uring_for_each_cqe(&ring, head, cqe) { processCqe(cqe, reads); }]
    over the completions that are ready. *)
Fixpoint drain (cs : list completion) (reads : Z) : M Z :=
  match cs with
  | [] => ret reads
  | c :: rest => reads' <- processCqe c reads ; drain rest reads'
  end.

End Dispatch.

(** Handlers that do nothing, to run the dispatch on read completions. *)
Definition no_handler (c : completion) : M unit := ret tt.

(** The runner with [enobuffCount_] incremented and nothing else
    touched. *)
Definition counted_enobufs (r : IOUringRunner) : IOUringRunner :=
  mkRunner (rxCfg_ r) (expected r) (stopping r) (sq r) (buffers_ r)
    (u32 (enobuffCount_ r + 1)) (requestsRx_ r) (bytesRx_ r) (socks_ r)
    (sendBuff_size r) (heap r) (closed_fds r) (logged r) (sq_entries r)
    (submits r).

(** The diagnostic of the [-ENOBUFS] branch. *)
Definition enobufs_diagnostic (r : IOUringRunner) : list item :=
  [Txt "not enough buffers, but will just requeue. so far have ";
   Num (u32 (enobuffCount_ r + 1));
   Txt "state: can provide=";
   Num (toProvideCount (buffers_ r));
   Txt " need=";
   Flag (needsToProvide (buffers_ r))].

(** A runner with one connection, descriptor 5, at address 4096, and a
    read completion for it that carries [-ENOBUFS]. *)
Definition one_sock : IOUringRunner :=
  mkRunner default_cfg 0 false []
    (Shared (SharedPool.mkProviderV2 8 4096 0 0 8 128 8 7 0
               (replicate 32 0) (replicate 8 (SharedPool.mkBuf 0 0 0)) 8 [8]))
    0 0 0 1 2048
    {[ 4096 := mkSock 5 (Parser.fresh (replicate 8 x00))
                 Parser.no_results false ]}
    [] [] 64 [].

Definition enobufs_completion : completion :=
  mkCompletion (mkCqe (Z.lor 4096 kRead) (- ENOBUFS) 0) [] None.

(** A later completion of the same iteration: nine bytes, one frame. *)
Definition next_completion : completion :=
  mkCompletion (mkCqe (Z.lor 4096 kRead) 9 (Z.lor 1 (Z.shiftl 3 16)))
    [x01; x00; x00; x00; x01; x00; x00; x00; x61] None.

(** A computation that leaves the buffer provider as it found it,
    whatever it ends in. *)
Definition keeps_buffers {A : Type} (m : M A) : Prop :=
  forall r : IOUringRunner, buffers_ (snd (m r)) = buffers_ r.

(** The entry [provideBuffers] fills for a range of the free list:
    [provide] and then [io_uring_sqe_set_data(sqe, NULL)]. *)
Definition provide_sqe (size : Z) (x : ClassicPool.Range) : io_uring_sqe :=
  mkSqe (ProvideBuffersOp
           (ClassicPool.mkProvide (ClassicPool.start x) size
              (ClassicPool.count x) ClassicPool.kBgid (ClassicPool.start x)))
    RingSetup.IOSQE_CQE_SKIP_SUCCESS 0 0 0.

(** A runner without buffer provider, fixed files and multishot
    ([provide_buffers=0 fixed_files=0 multishot_recv=0]), with one
    connection, descriptor 5, at address 4096. *)
Definition plain_cfg : IoUringRxConfig :=
  mkIoUringRxConfig 4096 false 0 0 false 64 0 8000 2000 1 false 0 false 0.

Definition plain_sock : IOUringRunner :=
  mkRunner plain_cfg 0 false [] (Classic (ClassicPool.emptied 0 0)) 0 0 0 1
    2048 {[ 4096 := mkSock 5 (Parser.fresh Parser.zeroed) Parser.no_results
                      false ]} [] [] 64 [].

(** Completions for that connection: a read of 9 bytes that are one
    frame, the end of the stream, and a send that failed with [EPIPE]. *)
Definition one_frame_completion : completion :=
  mkCompletion (mkCqe (Z.lor 4096 kRead) 9 0)
    [x01; x00; x00; x00; x01; x00; x00; x00; x61] None.

Definition eof_completion : completion :=
  mkCompletion (mkCqe (Z.lor 4096 kRead) 0 0) [] None.

Definition failed_send_completion : completion :=
  mkCompletion (mkCqe (Z.lor 4096 kWrite) (-32) 0) [] None.

(** A read of 9 bytes into the provided buffer with id 0. *)
Definition buffer_zero_completion : completion :=
  mkCompletion (mkCqe (Z.lor 4096 kRead) 9 IORING_CQE_F_BUFFER)
    [x01; x00; x00; x00; x01; x00; x00; x00; x61] None.

(** A runner with the classic provider of four buffers as its constructor
    finds it before the first [provideBuffers(true)]. *)
Definition classic_runner : IOUringRunner :=
  mkRunner ClassicPool.cfg_of_four 0 false []
    (Classic (ClassicPool.create ClassicPool.cfg_of_four)) 0 0 0 0 2048 ∅
    [] [] 64 [].

(** A runner whose submission queue of two entries is full, and a
    kernel that takes both at the next [io_uring_submit]. *)
Definition full_queue : IOUringRunner :=
  mkRunner plain_cfg 2 false
    [mkSqe (Recv 5 4096) 0 0 0 (Z.lor 4096 kRead);
     mkSqe (Recv 6 4096) 0 0 0 (Z.lor 8192 kRead)]
    (Classic (ClassicPool.emptied 0 0)) 0 0 0 2 2048 ∅ [] [] 2 [2].

End RingEngine.

(** ** The read path and the dispatch of the readiness engine *)

Module EpollLoop.

Definition kSocket : Z := 0.
Definition kAccept4 : Z := 1.
Definition kAccept6 : Z := 2.

(** [struct EPollData] whole: the fields [doWrite] works on, and the
    parser. *)
Record Conn : Type := mkConn {
  ed : Epoll.EPollData;
  parser : Parser.ProtocolParser
}.

(** [struct EPollRunner]. [interest] is the notifier's list behind
    [epoll_fd]; [sockets_] holds the [EPollData] objects of the set of that
    name, by address (an object is inserted when it is made and erased when
    it is deleted); [closed_fds] lists the descriptors given to [close].
    [socks_] is an [int], kept in range by wrapping. *)
Record Engine : Type := mkEngine {
  interest : gmap Z Z;
  rcvbuff : list byte;
  batch_send : bool;
  sockets_ : gmap Z Conn;
  bytesRx_ : Z;
  requestsRx_ : Z;
  socks_ : Z;
  closed_fds : list Z
}.

(** The part of the engine that [doWrite] works on. *)
Definition runner_of (e : Engine) : Epoll.EPollRunner :=
  Epoll.mkRunner (Z.of_nat (length (rcvbuff e))) (interest e).

(** What one [recv] (or [recvmsg], whose only [iovec] is [rcvbuff] too)
    gives: its return value, [errno], and the bytes the kernel has to
    deliver, of which the first [res] are written to the start of
    [rcvbuff]. *)
Record received : Type := mkReceived { res : Z; errno : Z; data : list byte }.

Definition recv_into (buff : list byte) (a : received) : list byte :=
  if 0 <? res a then
    let d := take (Z.to_nat (res a)) (data a) in
    take (length buff) (d ++ drop (length d) buff)
  else buff.

(** [epoll_ctl] with [EPOLL_CTL_DEL] and [EPOLL_CTL_ADD]: -1 for a
    descriptor that is not registered ([ENOENT]), that is registered
    already ([EEXIST]), or that is no descriptor. *)
Definition epoll_ctl_del (m : gmap Z Z) (fd : Z) : Z * gmap Z Z :=
  match m !! fd with
  | Some _ => (0, delete fd m)
  | None => (-1, m)
  end.

Definition epoll_ctl_add (m : gmap Z Z) (fd events : Z) : Z * gmap Z Z :=
  if fd <? 0 then (-1, m)
  else match m !! fd with
       | Some _ => (-1, m)
       | None => (0, <[fd := events]> m)
       end.

(** The branch of [doRead] that gives the connection up: deregister,
    [delSock], [close], erase and delete; the return value is -1. *)
Definition drop_socket (e : Engine) (ptr : Z) (c : Conn)
  : outcome (Z * Engine) :=
  let '(ret, m) := epoll_ctl_del (interest e) (Epoll.fd (ed c)) in
  match checkedErrno ret "epoll_del fd=" with
  | Done _ =>
    Done (-1,
          mkEngine m (rcvbuff e) (batch_send e) (delete ptr (sockets_ e))
            (bytesRx_ e) (requestsRx_ e) (as_int (socks_ e - 1))
            (closed_fds e ++ [Epoll.fd (ed c)]))
  | Died d => Died d
  | OutOfBounds => OutOfBounds
  | OutOfFuel => OutOfFuel
  end.

(** [doRead(ed)]; [recvs] is what the kernel answers to the successive
    receive calls. The return value and the engine afterwards; [OutOfFuel]
    when the answers run out before the loop is left. [runWorkload] only
    spends time. *)
Fixpoint doRead (recvs : list received) (e : Engine) (ptr : Z)
  : outcome (Z * Engine) :=
  match sockets_ e !! ptr with
  | None => OutOfBounds
  | Some c =>
    match recvs with
    | [] => OutOfFuel
    | a :: rest =>
      if res a <=? 0 then
        if (res a <? 0) && (errno a =? Epoll.EAGAIN) then Done (0, e)
        else drop_socket e ptr c
      else
        let buff := recv_into (rcvbuff e) a in
        match Parser.consume (parser c) buff 0 (res a) with
        | Done (consumed, p') =>
          let c' :=
            mkConn (Epoll.mkData (Epoll.type (ed c)) (Epoll.fd (ed c))
                      (u64 (Epoll.to_write (ed c)
                            + Parser.to_write consumed))
                      (Epoll.write_in_epoll (ed c)))
              p' in
          let e' :=
            mkEngine (interest e) buff (batch_send e)
              (<[ptr := c']> (sockets_ e))
              (u64 (bytesRx_ e + res a))
              (u64 (requestsRx_ e + as_int (Parser.count consumed)))
              (socks_ e) (closed_fds e) in
          if res a =? as_int (Z.of_nat (length buff)) then doRead rest e' ptr
          else Done (0, e')
        | Died d => Died d
        | OutOfBounds => OutOfBounds
        | OutOfFuel => OutOfFuel
        end
    end
  end.

(** [doSocket(ed, events, write_queue, reads)]: the engine, the write
    queue and [reads] afterwards. *)
Definition doSocket (recvs : list received) (sends : list Epoll.sent)
    (e : Engine) (ptr events : Z) (write_queue : list Z) (reads : Z)
  : outcome (Engine * list Z * Z) :=
  let readable := negb (Z.land events Epoll.EPOLLIN =? 0) in
  let reads' := if readable then u32 (reads + 1) else reads in
  match (if readable then doRead recvs e ptr else Done (0, e)) with
  | Done (ret, e1) =>
    if negb (ret =? 0) then Done (e1, write_queue, reads')
    else
      match sockets_ e1 !! ptr with
      | None => OutOfBounds
      | Some c =>
        if negb (Z.land events Epoll.EPOLLOUT =? 0)
           || (negb (Epoll.to_write (ed c) =? 0) && negb (batch_send e1))
        then
          match Epoll.doWrite sends (runner_of e1) (ed c) with
          | Done (r', ed') =>
            Done (mkEngine (Epoll.interest r') (rcvbuff e1) (batch_send e1)
                    (<[ptr := mkConn ed' (parser c)]> (sockets_ e1))
                    (bytesRx_ e1) (requestsRx_ e1) (socks_ e1)
                    (closed_fds e1),
                  write_queue, reads')
          | Died d => Died d
          | OutOfBounds => OutOfBounds
          | OutOfFuel => OutOfFuel
          end
        else if negb (Epoll.to_write (ed c) =? 0)
        then Done (e1, write_queue ++ [ptr], reads')
        else Done (e1, write_queue, reads')
      end
  | Died d => Died d
  | OutOfBounds => OutOfBounds
  | OutOfFuel => OutOfFuel
  end.

(** What one [accept4] call gives, and the address at which
    [new EPollData()] makes the object for the connection. *)
Record incoming : Type :=
  mkIncoming { sock_fd : Z; accept_errno : Z; at_ : Z }.

(** [doAccept(fd, isv6)]; [accepts] is what the kernel answers to the
    successive [accept4] calls on the listening descriptor. The object is
    value-initialised: all zero, the scratch area of the parser included. *)
Fixpoint doAccept (accepts : list incoming) (e : Engine) : outcome Engine :=
  match accepts with
  | [] => OutOfFuel
  | a :: rest =>
    if (sock_fd a =? -1) && (accept_errno a =? Epoll.EAGAIN) then Done e
    else
      match (if sock_fd a =? -1 then checkedErrno (sock_fd a) "accept4"
             else Done (sock_fd a)) with
      | Done _ =>
        let '(ret, m) :=
          epoll_ctl_add (interest e) (sock_fd a)
            (Z.lor Epoll.EPOLLIN Epoll.EPOLLET) in
        match checkedErrno ret "epoll add sock" with
        | Done _ =>
          doAccept rest
            (mkEngine m (rcvbuff e) (batch_send e)
               (<[at_ a := mkConn (Epoll.mkData kSocket (sock_fd a) 0 false)
                             (Parser.fresh Parser.zeroed)]> (sockets_ e))
               (bytesRx_ e) (requestsRx_ e) (as_int (socks_ e + 1))
               (closed_fds e))
        | Died d => Died d
        | OutOfBounds => OutOfBounds
        | OutOfFuel => OutOfFuel
        end
      | Died d => Died d
      | OutOfBounds => OutOfBounds
      | OutOfFuel => OutOfFuel
      end
  end.

(** What the engine keeps true of its connections: each is registered
    with the notifier as [write_in_epoll] says, and no two share a
    descriptor. *)
Definition sound (e : Engine) : Prop :=
  (forall (ptr : Z) (c : Conn),
     sockets_ e !! ptr = Some c -> Epoll.live (runner_of e) (ed c))
  /\ (forall (p1 p2 : Z) (c1 c2 : Conn),
        sockets_ e !! p1 = Some c1 -> sockets_ e !! p2 = Some c2 ->
        Epoll.fd (ed c1) = Epoll.fd (ed c2) -> p1 = p2).

(** Answers of [accept4] as a kernel and an allocator give them:
    descriptors that are not negative, not registered and not handed out
    twice, objects at addresses not in use. *)
Fixpoint fresh_for (e : Engine) (accepts : list incoming) : Prop :=
  match accepts with
  | [] => True
  | a :: rest =>
    0 <= sock_fd a /\ interest e !! sock_fd a = None
    /\ sockets_ e !! at_ a = None
    /\ Forall (fun b => sock_fd b <> sock_fd a /\ at_ b <> at_ a) rest
    /\ fresh_for e rest
  end.

(** The answer that ends the loop of [doAccept]. *)
Definition no_more : incoming := mkIncoming (-1) Epoll.EAGAIN 0.

(** An engine with a receive buffer of 32 bytes and no connection, and
    the listening descriptor 3 registered. *)
Definition idle_engine : Engine :=
  mkEngine {[ 3 := Epoll.EPOLLIN ]} (replicate 32 x00) false ∅ 0 0 0 [].

(** That engine with a connection, descriptor 7, at address 4096. *)
Definition one_connection : Engine :=
  mkEngine {[ 3 := Epoll.EPOLLIN; 7 := Z.lor Epoll.EPOLLIN Epoll.EPOLLET ]}
    (replicate 32 x00) false
    {[ 4096 := mkConn (Epoll.mkData kSocket 7 0 false)
                 (Parser.fresh Parser.zeroed) ]}
    0 0 1 [].

(** That connection owing three reply bytes, with write interest armed. *)
Definition owing_a_reply : Engine :=
  mkEngine {[ 3 := Epoll.EPOLLIN; 7 := Z.lor Epoll.EPOLLIN Epoll.EPOLLOUT ]}
    (replicate 32 x00) false
    {[ 4096 := mkConn (Epoll.mkData kSocket 7 3 true)
                 (Parser.fresh Parser.zeroed) ]}
    0 0 1 [].

(** The kernel delivering the 18 bytes of [Parser.two_frames]. *)
Definition two_frames_arrive : list received :=
  [mkReceived 18 0 Parser.two_frames].

(** Two connections waiting on the listening descriptor. *)
Definition two_arrivals : list incoming :=
  [mkIncoming 7 0 4096; mkIncoming 8 0 8192; no_more].

End EpollLoop.

(** * Properties *)

(** ** The frame parser *)

Module ParserFacts.
Import Parser.

Lemma byte_val_bound (b : byte) : 0 <= byte_val b < 256.
Proof.
  unfold byte_val. pose proof (Byte.to_N_bounded b) as H. lia.
Qed.

Lemma le_bound (bs : list byte) : 0 <= le bs < 256 ^ Z.of_nat (length bs).
Proof.
  induction bs as [|b bs IH]; cbn [le length].
  - change (Z.of_nat 0) with 0. rewrite Z.pow_0_r. lia.
  - pose proof (byte_val_bound b). rewrite Nat2Z.inj_succ, Z.pow_succ_r by lia.
    lia.
Qed.

Lemma le_word (bs : list byte) : 0 <= le (take 4 bs) < 4294967296.
Proof.
  pose proof (le_bound (take 4 bs)) as H.
  assert (Hl : (length (take 4 bs) <= 4)%nat) by (rewrite length_take; lia).
  assert (256 ^ Z.of_nat (length (take 4 bs)) <= 256 ^ 4)
    by (apply Z.pow_le_mono_r; lia).
  change (256 ^ 4) with 4294967296 in *. lia.
Qed.

Lemma load_take (n : nat) (l : list byte) :
  (8 <= n)%nat -> load_is_reading (take n l) = load_is_reading l.
Proof.
  intros Hn. unfold load_is_reading.
  rewrite take_take, Nat.min_l by lia.
  rewrite skipn_firstn_comm, take_take, Nat.min_l by lia.
  reflexivity.
Qed.

Lemma read_prefix (c : list byte) (n : Z) :
  0 <= n <= Z.of_nat (length c) -> read c 0 n = Some (take (Z.to_nat n) c).
Proof.
  intros Hn. unfold read.
  replace ((0 <=? 0) && (0 <=? n) && (0 + n <=? Z.of_nat (length c)))
    with true by (symmetry; rewrite !andb_true_iff; repeat split; lia).
  reflexivity.
Qed.

Lemma write_inside (dst src : list byte) (off : Z) :
  0 <= off -> off + Z.of_nat (length src) <= Z.of_nat (length dst) ->
  write dst off src
  = Some (take (Z.to_nat off) dst ++ src
            ++ drop (Z.to_nat off + length src) dst).
Proof.
  intros H0 H1. unfold write.
  replace ((0 <=? off)
           && (off + Z.of_nat (length src) <=? Z.of_nat (length dst)))
    with true by (symmetry; rewrite andb_true_iff; split; lia).
  reflexivity.
Qed.

Lemma consume_loop_done (fuel : nat) mem data n p ret :
  n <= 0 -> consume_loop fuel mem data n p ret = Done (ret, p).
Proof.
  intros Hn. destruct fuel; cbn [consume_loop];
    (replace (n <=? 0) with true by (symmetry; lia)); reflexivity.
Qed.

Lemma consume_loop_step (fuel : nat) mem data n p ret :
  0 < n ->
  consume_loop (S fuel) mem data n p ret
  = match read_header mem data n
            (mkParser (size_buff_have p) (is_reading p) (size_buff p)
               (u32 (so_far p + n))) with
    | None => OutOfBounds
    | Some p2 =>
      if negb (fst (is_reading p2) =? 0)
         && (fst (is_reading p2) + sizeof_is_reading <=? so_far p2)
      then
        consume_loop fuel mem (data + n)
          (so_far p2 - (fst (is_reading p2) + sizeof_is_reading))
          (reset p2)
          (mkResults (u64 (to_write ret + snd (is_reading p2)))
                     (u32 (count ret + 1)))
      else Done (ret, p2)
    end.
Proof.
  intros Hn. cbn [consume_loop].
  replace (n <=? 0) with false by (symmetry; lia). reflexivity.
Qed.

Lemma read_header_so_far mem data n p p2 :
  read_header mem data n p = Some p2 -> so_far p2 = so_far p.
Proof.
  unfold read_header. intros H.
  destruct (fst (is_reading p) =? 0); [|congruence].
  destruct ((sizeof_is_reading <=? n) && (size_buff_have p =? 0)).
  - destruct (read mem data sizeof_is_reading); simpl in H; [|discriminate].
    inversion H; reflexivity.
  - destruct (read mem data _); simpl in H; [|discriminate].
    destruct (write _ _ _); simpl in H; [|discriminate].
    inversion H; reflexivity.
Qed.

Lemma read_header_word mem data n p p2 :
  0 <= fst (is_reading p) ->
  read_header mem data n p = Some p2 -> 0 <= fst (is_reading p2).
Proof.
  unfold read_header. intros Hp H.
  destruct (fst (is_reading p) =? 0); [|congruence].
  destruct ((sizeof_is_reading <=? n) && (size_buff_have p =? 0)).
  - destruct (read mem data sizeof_is_reading) as [bs|]; simpl in H;
      [|discriminate].
    inversion H; subst; simpl. apply le_word.
  - destruct (read mem data _); simpl in H; [|discriminate].
    destruct (write _ _ _) as [sb|]; simpl in H; [|discriminate].
    inversion H; subst; simpl.
    destruct (sizeof_is_reading <=? _); [apply le_word | assumption].
Qed.

(** The loop cannot use up a budget above [n] once [so_far] is 0. *)
Lemma consume_loop_returns (fuel : nat) : forall mem data n p ret,
  so_far p = 0 -> 0 <= fst (is_reading p) -> (Z.to_nat n < fuel)%nat ->
  consume_loop fuel mem data n p ret <> OutOfFuel.
Proof.
  induction fuel as [|fuel IH]; intros mem data n p ret Hs Hw Hf; [lia|].
  destruct (Z_le_gt_dec n 0) as [Hn|Hn].
  - rewrite consume_loop_done by assumption. discriminate.
  - rewrite consume_loop_step by lia.
    destruct (read_header _ _ _ _) as [p2|] eqn:Hh; [|discriminate].
    pose proof (read_header_so_far _ _ _ _ _ Hh) as Hsf.
    assert (Hw2 : 0 <= fst (is_reading p2))
      by (eapply read_header_word; [|exact Hh]; exact Hw).
    simpl in Hsf.
    destruct (negb _ && _) eqn:Hc; [|discriminate].
    apply andb_true_iff in Hc as [Hc1 Hc2].
    apply negb_true_iff, Z.eqb_neq in Hc1. apply Z.leb_le in Hc2.
    apply IH; simpl; try lia.
    rewrite Hs in Hsf. unfold u32, sizeof_is_reading in *.
    assert (0 + n mod 4294967296 <= n) by (apply Z.mod_le; lia).
    replace (0 + n) with n in Hsf by lia. lia.
Qed.

(** [consume] always returns: it never runs out of its budget. *)
Lemma consume_returns p mem data n :
  0 <= so_far p -> 0 <= fst (is_reading p) ->
  consume p mem data n <> OutOfFuel.
Proof.
  intros Hs Hw. unfold consume.
  destruct (Z_le_gt_dec n 0) as [Hn|Hn].
  - rewrite consume_loop_done by assumption. discriminate.
  - rewrite consume_loop_step by lia.
    destruct (read_header _ _ _ _) as [p2|] eqn:Hh; [|discriminate].
    pose proof (read_header_so_far _ _ _ _ _ Hh) as Hsf.
    assert (Hw2 : 0 <= fst (is_reading p2))
      by (eapply read_header_word; [|exact Hh]; exact Hw).
    simpl in Hsf.
    destruct (negb _ && _) eqn:Hc; [|discriminate].
    apply andb_true_iff in Hc as [Hc1 Hc2].
    apply negb_true_iff, Z.eqb_neq in Hc1. apply Z.leb_le in Hc2.
    apply consume_loop_returns; simpl; try lia.
    unfold u32, sizeof_is_reading in *.
    assert ((so_far p + n) mod 4294967296 <= so_far p + n)
      by (apply Z.mod_le; lia).
    lia.
Qed.

Lemma read_header_chunk (f c : list byte) (k : nat) (p : ProtocolParser) :
  frame_length f <> 0 -> (8 <= length f)%nat ->
  Z.of_nat (length f) < 4294967296 ->
  mid f k p -> c <> [] -> c = take (length c) (drop k f) ->
  (k + length c <= length f)%nat ->
  exists p2,
    read_header c 0 (Z.of_nat (length c))
      (mkParser (size_buff_have p) (is_reading p) (size_buff p)
         (Z.of_nat (k + length c))) = Some p2
    /\ mid f (k + length c) p2.
Proof.
  intros HL H8 Hlt (Hsf & Hsb & Hmid) Hne Hc Hle.
  set (m := length c) in *.
  assert (Hm : (1 <= m)%nat) by (destruct c; [congruence | simpl in m; lia]).
  unfold read_header; cbn [is_reading size_buff_have size_buff so_far].
  destruct Hmid as [(Hk & Hhave & Hrd & Htk) | (Hk & Hrd)].
  - rewrite Hrd; cbn [fst]. rewrite Z.eqb_refl, Hhave.
    destruct ((sizeof_is_reading <=? Z.of_nat m) && (Z.of_nat k =? 0)) eqn:Hfast.
    + apply andb_true_iff in Hfast as [Hf1 Hf2].
      apply Z.leb_le in Hf1. apply Z.eqb_eq in Hf2.
      unfold sizeof_is_reading in *.
      assert (k = 0%nat) by lia. subst k.
      rewrite read_prefix by (fold m; lia). cbn [mbind option_bind].
      eexists; split; [reflexivity|].
      repeat split; cbn [so_far size_buff is_reading]; try assumption.
      right. split; [lia|].
      change (Z.to_nat 8) with 8%nat. rewrite load_take by lia.
      rewrite Hc. rewrite drop_0. apply load_take. lia.
    + assert (Hslow : ~ (8 <= m /\ k = 0)%nat).
      { intros [Ha Hb]. subst k.
        unfold sizeof_is_reading in Hfast.
        replace (8 <=? Z.of_nat m) with true in Hfast by (symmetry; lia).
        simpl in Hfast. discriminate. }
      unfold sizeof_is_reading, u32.
      rewrite (Z.mod_small (Z.of_nat m)) by lia.
      rewrite (Z.mod_small (8 - Z.of_nat k)) by lia.
      set (a := Nat.min m (8 - k)).
      replace (Z.min (Z.of_nat m) (8 - Z.of_nat k)) with (Z.of_nat a)
        by (unfold a; lia).
      rewrite (Z.mod_small (Z.of_nat k + Z.of_nat a)) by (unfold a; lia).
      rewrite read_prefix by (fold m; unfold a; lia).
      cbn [mbind option_bind]. rewrite Nat2Z.id.
      assert (Hla : length (take a c) = a)
        by (rewrite length_take; fold m; unfold a; lia).
      rewrite write_inside by (rewrite ?Hla, ?Hsb; unfold a; lia).
      cbn [mbind option_bind]. rewrite Nat2Z.id, Hla.
      eexists; split; [reflexivity|].
      assert (Hc' : take a c = take a (drop k f)).
      { rewrite Hc at 1. rewrite take_take. f_equal. unfold a; lia. }
      destruct (8 <=? Z.of_nat k + Z.of_nat a) eqn:Hfull.
      * apply Z.leb_le in Hfull.
        assert (Ha : a = (8 - k)%nat) by (unfold a in *; lia).
        split; [|split]; cbn [so_far size_buff is_reading size_buff_have].
        -- reflexivity.
        -- rewrite !length_app, length_take, Hla, length_drop, Hsb. lia.
        -- right. split; [unfold a in *; lia|].
           rewrite Htk, Hc', (drop_ge (size_buff p)) by lia.
           rewrite app_nil_r, Ha, take_take_drop.
           apply load_take. lia.
      * apply Z.leb_gt in Hfull.
        assert (Ha : a = m) by (unfold a in *; lia).
        split; [|split]; cbn [so_far size_buff is_reading size_buff_have].
        -- reflexivity.
        -- rewrite !length_app, length_take, Hla, length_drop, Hsb. lia.
        -- left. split; [lia|]. split; [lia|]. split; [reflexivity|].
           rewrite app_assoc, take_app_length'
             by (rewrite length_app, length_take, Hla, Hsb; lia).
           rewrite Htk, Hc', Ha. apply take_take_drop.
  - assert ((fst (is_reading p) =? 0) = false) as ->
      by (apply Z.eqb_neq; rewrite Hrd; exact HL).
    eexists; split; [reflexivity|].
    repeat split; cbn [so_far size_buff is_reading]; try assumption.
    right. split; [lia | assumption].
Qed.

(** One call with the next chunk of a frame: nothing is emitted before
    the last byte of the frame, and the call with that byte emits the
    frame and leaves the parser between frames. *)
Lemma consume_chunk (f c : list byte) (k : nat) (p : ProtocolParser) :
  well_formed f -> frame_length f <> 0 ->
  Z.of_nat (length f) < 4294967296 ->
  mid f k p -> c <> [] -> c = take (length c) (drop k f) ->
  (k + length c <= length f)%nat ->
  exists p',
    consume p c 0 (Z.of_nat (length c))
    = Done (if (k + length c =? length f)%nat
            then mkResults (frame_reply f) 1 else no_results, p')
    /\ if (k + length c =? length f)%nat then at_boundary p'
       else mid f (k + length c) p'.
Proof.
  intros Hwf HL Hlt Hmid Hne Hc Hle.
  assert (HLb : 0 <= frame_length f < 4294967296)
    by (unfold frame_length, load_is_reading; cbn [fst]; apply le_word).
  unfold well_formed, sizeof_is_reading in Hwf.
  assert (H8 : (8 <= length f)%nat) by lia.
  destruct (read_header_chunk f c k p HL H8 Hlt Hmid Hne Hc Hle)
    as (p2 & Hh & Hmid2).
  assert (Hm : (1 <= length c)%nat) by (destruct c; [congruence | simpl; lia]).
  destruct Hmid as (Hsf & _).
  unfold consume. rewrite consume_loop_step by lia.
  replace (u32 (so_far p + Z.of_nat (length c)))
    with (Z.of_nat (k + length c))
    by (unfold u32; rewrite Z.mod_small; lia).
  rewrite Hh.
  destruct Hmid2 as (Hsf2 & Hsb2 & [(Hk & Hhave & Hrd & Htk) | (Hk & Hrd)]).
  - rewrite Hrd; cbn [fst negb andb Z.eqb].
    replace (k + length c =? length f)%nat with false
      by (symmetry; apply Nat.eqb_neq; lia).
    eexists; split; [reflexivity|].
    repeat split; try assumption. left. repeat split; assumption.
  - rewrite Hrd. fold (frame_length f).
    replace (negb (frame_length f =? 0)) with true
      by (symmetry; apply negb_true_iff, Z.eqb_neq; exact HL).
    cbn [andb]. rewrite Hsf2. unfold sizeof_is_reading.
    destruct (k + length c =? length f)%nat eqn:Hend.
    + apply Nat.eqb_eq in Hend.
      replace (frame_length f + 8 <=? Z.of_nat (k + length c)) with true
        by (symmetry; apply Z.leb_le; lia).
      rewrite consume_loop_done by lia.
      eexists; split.
      * f_equal. f_equal. unfold no_results; cbn [to_write count].
        fold (frame_reply f).
        assert (0 <= frame_reply f < 4294967296).
        { unfold frame_reply, load_is_reading; cbn [snd]. apply le_word. }
        unfold u64, u32. rewrite !Z.mod_small by lia. reflexivity.
      * unfold at_boundary, reset; cbn. tauto.
    + apply Nat.eqb_neq in Hend.
      replace (frame_length f + 8 <=? Z.of_nat (k + length c)) with false
        by (symmetry; apply Z.leb_gt; lia).
      eexists; split; [reflexivity|].
      repeat split; try assumption. right. split; assumption.
Qed.

Lemma feed_app (a b : list (list byte)) : forall p rs p' rs' p'',
  feed p a = Done (rs, p') -> feed p' b = Done (rs', p'') ->
  feed p (a ++ b) = Done (rs ++ rs', p'').
Proof.
  induction a as [|c a IH]; intros p rs p' rs' p'' Ha Hb; cbn [feed app] in *.
  - inversion Ha; subst. exact Hb.
  - destruct (consume p c 0 _) as [[r p1]| | |]; try discriminate.
    destruct (feed p1 a) as [[rs1 p2]| | |] eqn:H1; try discriminate.
    inversion Ha; subst.
    rewrite (IH _ _ _ _ _ H1 Hb). reflexivity.
Qed.

Lemma boundary_mid (f : list byte) (p : ProtocolParser) :
  at_boundary p -> mid f 0 p.
Proof.
  intros (Hh & Hr & Hs & Hl). split; [exact Hs|]. split; [exact Hl|].
  left. repeat split; try assumption. lia.
Qed.

Lemma concat_nonempty (cs : list (list byte)) :
  Forall (fun c => c <> []) cs -> concat cs = [] -> cs = [].
Proof.
  intros Hall Hnil. destruct cs as [|c cs]; [reflexivity|].
  inversion Hall as [|? ? Hc _]; subst.
  destruct c; [congruence | discriminate].
Qed.

(** The calls for the chunks of the rest of one frame. *)
Lemma feed_frame (f : list byte) :
  well_formed f -> frame_length f <> 0 ->
  Z.of_nat (length f) < 4294967296 ->
  forall cs k p,
    mid f k p -> (k < length f)%nat -> concat cs = drop k f ->
    Forall (fun c => c <> []) cs ->
    exists p', feed p cs = Done (frame_results (frame_reply f) cs, p')
               /\ at_boundary p'.
Proof.
  intros Hwf HL Hlt cs.
  induction cs as [|c cs IH]; intros k p Hmid Hk Hcat Hall.
  - exfalso. assert (Hlen : length (drop k f) = 0%nat)
      by (rewrite <- Hcat; reflexivity).
    rewrite length_drop in Hlen. lia.
  - inversion Hall as [|? ? Hc Hall']; subst. cbn [concat] in Hcat.
    assert (Hlen : (length c + length (concat cs) = length f - k)%nat)
      by (rewrite <- length_app, Hcat, length_drop; reflexivity).
    assert (Hck : c = take (length c) (drop k f))
      by (rewrite <- Hcat, take_app_length; reflexivity).
    assert (Hrest : concat cs = drop (k + length c) f).
    { rewrite <- drop_drop, <- Hcat, drop_app_length. reflexivity. }
    assert (Hle : (k + length c <= length f)%nat) by lia.
    destruct (consume_chunk f c k p Hwf HL Hlt Hmid Hc Hck Hle)
      as (p1 & Hcons & Hp1).
    cbn [feed]. rewrite Hcons.
    destruct (k + length c =? length f)%nat eqn:Hend.
    + apply Nat.eqb_eq in Hend.
      assert (cs = []) as ->.
      { apply concat_nonempty; [assumption|].
        rewrite Hrest. apply drop_ge. lia. }
      cbn [feed]. exists p1. split; [reflexivity | assumption].
    + apply Nat.eqb_neq in Hend.
      destruct (IH (k + length c)%nat p1 Hp1 ltac:(lia) Hrest Hall')
        as (p' & Hfeed & Hb).
      rewrite Hfeed. exists p'. split; [|assumption].
      unfold frame_results. cbn [length].
      destruct cs as [|c' cs']; [|cbn [length]].
      * exfalso. cbn [concat] in Hrest.
        assert (Hl0 : length (drop (k + length c) f) = 0%nat)
          by (rewrite <- Hrest; reflexivity).
        rewrite length_drop in Hl0. lia.
      * replace (S (S (length cs')) - 1)%nat with (S (length cs')) by lia.
        replace (S (length cs') - 1)%nat with (length cs') by lia.
        reflexivity.
Qed.

(** The calls for a sequence of frames, each cut into chunks of its own. *)
Lemma feed_frames (fs : list (list byte)) :
  forall (css : list (list (list byte))) (p : ProtocolParser),
    at_boundary p ->
    Forall (fun f => well_formed f /\ frame_length f <> 0
                     /\ Z.of_nat (length f) < 4294967296) fs ->
    Forall2 chunking fs css ->
    exists p',
      feed p (concat css)
      = Done (concat (zip_with (fun f cs => frame_results (frame_reply f) cs)
                        fs css), p')
      /\ at_boundary p'.
Proof.
  induction fs as [|f fs IH]; intros css p Hb Hfs Hch.
  - inversion Hch; subst. exists p. split; [reflexivity | assumption].
  - inversion Hch as [|? cs ? css' [Hcat Hne] Hch']; subst.
    inversion Hfs as [|? ? (Hwf & HL & Hlt) Hfs']; subst.
    assert (Hpos : (0 < length (concat cs))%nat).
    { unfold well_formed, sizeof_is_reading in Hwf.
      assert (0 <= frame_length (concat cs)) by
        (unfold frame_length, load_is_reading; cbn [fst]; apply le_word).
      lia. }
    destruct (feed_frame (concat cs) Hwf HL Hlt cs 0%nat p
                (boundary_mid _ _ Hb) Hpos (eq_sym (drop_0 _)) Hne)
      as (p1 & Hfeed & Hb1).
    destruct (IH css' p1 Hb1 Hfs' Hch') as (p' & Hrest & Hb').
    exists p'. split; [|assumption].
    cbn [concat zip_with]. eapply feed_app; eassumption.
Qed.

Lemma emitted_app (a b : list ConsumeResults) :
  emitted (a ++ b) = emitted a ++ emitted b.
Proof. apply List.filter_app. Qed.

Lemma emitted_frame_results (r : Z) (cs : list (list byte)) :
  emitted (frame_results r cs) = [mkResults r 1].
Proof.
  unfold frame_results. rewrite emitted_app.
  assert (Hz : forall n, emitted (replicate n no_results) = []).
  { induction n as [|n IHn]; [reflexivity | exact IHn]. }
  rewrite Hz. reflexivity.
Qed.

(** C1 (as amended). For every parser state at a frame boundary, feeding
    [consume] an 8-byte header whose first word ([length]) is 0 and whose
    second word ([reply_size]) is [R] emits no frame: the call returns
    [to_write = 0] and [count = 0], and the parser is not reset but left
    with [size_buff_have = 8], [so_far = 8] and [is_reading = {0, R}]; the
    zero in [is_reading[0]] is what the parser reads as "no header yet". *)
Theorem zero_length_header_is_not_completed
    (p : ProtocolParser) (hdr : list byte) (R : Z) :
  at_boundary p -> length hdr = 8%nat -> load_is_reading hdr = (0, R) ->
  consume p hdr 0 8 = Done (no_results, mkParser 8 (0, R) (size_buff p) 8).
Proof.
  intros (Hh & Hr & Hs & Hl) Hlen Hload.
  unfold consume. rewrite consume_loop_step by lia.
  unfold read_header; cbn [is_reading size_buff_have size_buff so_far].
  rewrite Hr, Hh, Hs; cbn [fst]. change (0 =? 0) with true.
  change (sizeof_is_reading <=? 8) with true. cbn [andb].
  unfold sizeof_is_reading. rewrite read_prefix by lia.
  cbn [mbind option_bind is_reading so_far].
  change (Z.to_nat 8) with 8%nat.
  rewrite (take_ge hdr 8) by lia. rewrite Hload. cbn [fst].
  change (0 =? 0) with true. cbn [negb andb]. reflexivity.
Qed.

Lemma zero_length_header_is_not_completed_witness :
  at_boundary (fresh zeroed) /\ length zero_length_header = 8%nat
  /\ load_is_reading zero_length_header = (0, 1)
  /\ consume (fresh zeroed) zero_length_header 0 8
     = Done (no_results, mkParser 8 (0, 1) zeroed 8).
Proof.
  assert (Hb : at_boundary (fresh zeroed))
    by (unfold at_boundary; cbn; repeat split; reflexivity).
  split; [exact Hb|]. split; [reflexivity|]. split; [reflexivity|].
  apply (zero_length_header_is_not_completed (fresh zeroed)
           zero_length_header 1 Hb); reflexivity.
Defined.

(** C1, as stated, fails: on a fresh parser the header
    [(length=0, reply_size=1)] gives a result with [count = 0] and
    [to_write = 0], not 1 and 1, and the parser is not back at a frame
    boundary. *)
Lemma zero_length_header_counterexample :
  exists r p',
    consume (fresh zeroed) zero_length_header 0 8 = Done (r, p')
    /\ count r = 0 /\ to_write r = 0 /\ size_buff_have p' = 8
    /\ ~ at_boundary p'.
Proof.
  eexists; eexists. split; [vm_compute; reflexivity|].
  cbn. repeat split; try reflexivity.
  intros (Hh & _). cbn in Hh. discriminate.
Qed.

(** C2 (as amended). For every sequence of well-formed frames with
    nonzero lengths [L_i] (and [8 + L_i < 2^32]) and reply sizes [R_i], and
    every cutting of the byte stream into non-empty chunks none of which
    holds bytes of two frames, feeding the chunks one [consume] call each,
    from a frame boundary on: every call returns; the call that delivers
    the last byte of frame [i] returns [to_write = R_i], [count = 1] and
    every other call returns [0, 0]; so the completions are [N], with the
    reply sizes [R_i] in arrival order, and the parser ends at a frame
    boundary. *)
Theorem frames_in_chunks_of_their_own
    (fs : list (list byte)) (css : list (list (list byte)))
    (p : ProtocolParser) :
  at_boundary p ->
  Forall (fun f => well_formed f /\ frame_length f <> 0
                   /\ Z.of_nat (length f) < 4294967296) fs ->
  Forall2 chunking fs css ->
  exists rs p',
    feed p (concat css) = Done (rs, p')
    /\ rs = concat (zip_with (fun f cs => frame_results (frame_reply f) cs)
                      fs css)
    /\ emitted rs = map (fun f => mkResults (frame_reply f) 1) fs
    /\ at_boundary p'.
Proof.
  intros Hb Hfs Hch.
  destruct (feed_frames fs css p Hb Hfs Hch) as (p' & Hfeed & Hb').
  eexists; exists p'. split; [exact Hfeed|]. split; [reflexivity|].
  split; [|exact Hb'].
  clear Hfeed Hfs Hb Hb'. induction Hch as [|f cs fs css _ _ IH].
  - reflexivity.
  - cbn [zip_with concat map]. rewrite emitted_app, emitted_frame_results, IH.
    reflexivity.
Qed.

Lemma frames_in_chunks_of_their_own_witness :
  exists rs p',
    feed (fresh zeroed) (concat [frame_a_chunks; [frame_b]]) = Done (rs, p')
    /\ rs = concat (zip_with (fun f cs => frame_results (frame_reply f) cs)
                      [frame_a; frame_b] [frame_a_chunks; [frame_b]])
    /\ emitted rs = map (fun f => mkResults (frame_reply f) 1)
                      [frame_a; frame_b]
    /\ at_boundary p'.
Proof.
  apply (frames_in_chunks_of_their_own [frame_a; frame_b]
           [frame_a_chunks; [frame_b]] (fresh zeroed)).
  - unfold at_boundary; cbn; repeat split; reflexivity.
  - repeat constructor; vm_compute; congruence.
  - repeat constructor; vm_compute; congruence.
Defined.

(** C2, as stated, fails: the frames [(length=0, reply_size=1)] and
    [(length=3, reply_size=2, "abc")] lie whole in one call of 19 bytes,
    and that call emits neither: it returns [count = 0], [to_write = 0]. *)
Lemma two_frames_in_one_call_counterexample :
  exists r p',
    consume (fresh zeroed) empty_then_abc 0 19 = Done (r, p')
    /\ count r = 0 /\ to_write r = 0.
Proof.
  eexists; eexists. split; [vm_compute; reflexivity|]. split; reflexivity.
Qed.

(** C3 (the code at the failing input). The 18 bytes of the frames
    [(1, 1, "a")] and [(1, 2, "b")]: fed one byte per call they give the
    totals [(3, 2)]; fed whole, the loop completes the first frame, moves
    [data] past all 18 bytes instead of past the 9 it used, and reads the
    second header from there: outside the buffer when the buffer is just
    those bytes, and as [(0, 0)] from the zeros that follow them in a 32
    byte receive buffer, where the totals are [(1, 1)]. *)
Theorem whole_buffer_loses_second_frame :
  (exists rs p',
     feed (fresh zeroed) (map (fun b => [b]) two_frames) = Done (rs, p')
     /\ totals rs = (3, 2))
  /\ consume (fresh zeroed) two_frames 0 18 = OutOfBounds
  /\ (exists r p',
        consume (fresh zeroed) two_frames_in_rcvbuff 0 18 = Done (r, p')
        /\ totals [r] = (1, 1)).
Proof.
  split; [|split].
  - eexists; eexists. split; vm_compute; reflexivity.
  - vm_compute; reflexivity.
  - eexists; eexists. split; vm_compute; reflexivity.
Qed.

Lemma consume_loop_not_died (fuel : nat) : forall mem data n p ret d,
  consume_loop fuel mem data n p ret <> Died d.
Proof.
  induction fuel as [|fuel IH]; intros mem data n p ret d; cbn [consume_loop].
  - destruct (n <=? 0); discriminate.
  - destruct (n <=? 0); [discriminate|].
    destruct (read_header _ _ _ _) as [p2|]; [|discriminate].
    destruct (negb _ && _); [apply IH | discriminate].
Qed.

(** X1. [consume] ends on every input: for a parser whose counters are
    the unsigned values they are in the source, a call either returns its
    results or follows [data] out of the buffer it was given; the
    [while (n > 0)] loop never runs on for ever and nothing in it is
    fatal. *)
Theorem consume_always_terminates (p : ProtocolParser) (mem : list byte)
    (data n : Z) :
  0 <= so_far p -> 0 <= fst (is_reading p) ->
  consume p mem data n = OutOfBounds
  \/ exists r p', consume p mem data n = Done (r, p').
Proof.
  intros Hs Hw. pose proof (consume_returns p mem data n Hs Hw) as Hf.
  destruct (consume p mem data n) as [[r p']|d| |] eqn:Hc.
  - right. exists r, p'. reflexivity.
  - exfalso. revert Hc. apply consume_loop_not_died.
  - left. reflexivity.
  - congruence.
Qed.

Lemma consume_always_terminates_witness :
  0 <= so_far (fresh zeroed) /\ 0 <= fst (is_reading (fresh zeroed))
  /\ (consume (fresh zeroed) two_frames 0 18 = OutOfBounds
      \/ exists r p', consume (fresh zeroed) two_frames 0 18 = Done (r, p')).
Proof.
  split; [cbn; lia|]. split; [cbn; lia|].
  apply (consume_always_terminates (fresh zeroed) two_frames 0 18); cbn; lia.
Defined.

(** A call that completes nothing, followed by calls that complete
    nothing. *)
Lemma feed_cons_quiet (p p' p'' : ProtocolParser) (c : list byte)
    (cs : list (list byte)) (n : nat) :
  consume p c 0 (Z.of_nat (length c)) = Done (no_results, p') ->
  feed p' cs = Done (replicate n no_results, p'') ->
  feed p (c :: cs) = Done (replicate (S n) no_results, p'').
Proof. intros H1 H2. cbn [feed]. rewrite H1, H2. reflexivity. Qed.

(** [so_far] is a [uint32_t]: it never reaches [length + 8] once
    [length] is [2^32 - 8] or more. *)
Lemma oversized_call (p : ProtocolParser) (c : list byte) :
  4294967288 <= fst (is_reading p) ->
  exists p',
    consume p c 0 (Z.of_nat (length c)) = Done (no_results, p')
    /\ is_reading p' = is_reading p.
Proof.
  intros HL. unfold consume.
  destruct (Z_le_gt_dec (Z.of_nat (length c)) 0) as [Hn|Hn].
  - rewrite consume_loop_done by assumption. eauto.
  - rewrite consume_loop_step by lia.
    unfold read_header; cbn [is_reading size_buff_have size_buff so_far].
    replace (fst (is_reading p) =? 0) with false by (symmetry; lia).
    cbn [is_reading so_far negb andb].
    replace (fst (is_reading p) + sizeof_is_reading
             <=? u32 (so_far p + Z.of_nat (length c))) with false.
    + rewrite andb_false_r. eexists; split; reflexivity.
    + symmetry. apply Z.leb_gt. unfold u32, sizeof_is_reading.
      pose proof (Z.mod_pos_bound (so_far p + Z.of_nat (length c)) 4294967296).
      lia.
Qed.

Lemma oversized_feed (chunks : list (list byte)) : forall p : ProtocolParser,
  4294967288 <= fst (is_reading p) ->
  exists p',
    feed p chunks = Done (replicate (length chunks) no_results, p')
    /\ is_reading p' = is_reading p.
Proof.
  induction chunks as [|c cs IH]; intros p HL.
  - exists p. split; reflexivity.
  - destruct (oversized_call p c HL) as (p1 & H1 & E1).
    destruct (IH p1) as (p2 & H2 & E2); [rewrite E1; exact HL|].
    exists p2. split; [|congruence].
    cbn [length]. eapply feed_cons_quiet; eassumption.
Qed.

(** A whole header in one call at a frame boundary takes the fast path;
    nothing is completed by it unless the frame is longer than 0 bytes and
    already in. *)
Lemma header_call (p : ProtocolParser) (hdr : list byte) :
  at_boundary p -> length hdr = 8%nat ->
  frame_length hdr = 0 \/ 1 <= frame_length hdr ->
  consume p hdr 0 (Z.of_nat (length hdr))
  = Done (no_results, mkParser 8 (load_is_reading hdr) (size_buff p) 8).
Proof.
  intros (Hh & Hr & Hs & Hl) Hlen HL. rewrite Hlen.
  change (Z.of_nat 8) with 8.
  unfold consume. rewrite consume_loop_step by lia.
  unfold read_header; cbn [is_reading size_buff_have size_buff so_far].
  rewrite Hr, Hh, Hs; cbn [fst]. change (0 =? 0) with true.
  change (sizeof_is_reading <=? 8) with true. cbn [andb].
  unfold sizeof_is_reading. rewrite read_prefix by lia.
  cbn [mbind option_bind is_reading so_far].
  change (Z.to_nat 8) with 8%nat.
  rewrite (take_ge hdr 8) by lia. unfold frame_length in HL.
  change (u32 (0 + 8)) with 8.
  destruct HL as [HL|HL].
  - rewrite HL. reflexivity.
  - replace (fst (load_is_reading hdr) =? 0) with false by (symmetry; lia).
    replace (fst (load_is_reading hdr) + 8 <=? 8) with false
      by (symmetry; lia).
    reflexivity.
Qed.

(** X2. A header that announces [2^32 - 8] payload bytes or more is never
    completed: [so_far] is a 32-bit counter and [length + 8] is computed
    in 64 bits, so whatever is fed after such a header, in whatever
    chunks, every call returns [to_write = 0], [count = 0] and the
    parser keeps that header. *)
Theorem oversized_frame_is_never_completed
    (p : ProtocolParser) (hdr : list byte) (chunks : list (list byte)) :
  at_boundary p -> length hdr = 8%nat -> 4294967288 <= frame_length hdr ->
  exists p',
    feed p (hdr :: chunks)
    = Done (replicate (S (length chunks)) no_results, p')
    /\ is_reading p' = load_is_reading hdr.
Proof.
  intros Hb Hlen HL.
  pose proof (header_call p hdr Hb Hlen ltac:(right; lia)) as H1.
  destruct (oversized_feed chunks
              (mkParser 8 (load_is_reading hdr) (size_buff p) 8))
    as (p' & H2 & E2); [exact HL|].
  exists p'. split; [|exact E2].
  eapply feed_cons_quiet; eassumption.
Qed.

Lemma oversized_frame_is_never_completed_witness :
  at_boundary (fresh zeroed) /\ length oversized_header = 8%nat
  /\ 4294967288 <= frame_length oversized_header
  /\ exists p',
       feed (fresh zeroed) [oversized_header; frame_a; frame_b]
       = Done (replicate 3 no_results, p')
       /\ is_reading p' = load_is_reading oversized_header.
Proof.
  assert (Hb : at_boundary (fresh zeroed))
    by (unfold at_boundary; cbn; repeat split; reflexivity).
  split; [exact Hb|]. split; [reflexivity|].
  split; [vm_compute; discriminate|].
  apply (oversized_frame_is_never_completed (fresh zeroed) oversized_header
           [frame_a; frame_b] Hb); [reflexivity | vm_compute; discriminate].
Defined.

(** After a header with [length = 0] the parser holds
    [size_buff_have = 8] and a zero in [is_reading[0]]: every later call
    copies 0 bytes and decodes the header again from the scratch area. *)
Lemma wedged_call (p : ProtocolParser) (c : list byte) :
  size_buff_have p = 8 -> fst (is_reading p) = 0 ->
  length (size_buff p) = 8%nat -> fst (load_is_reading (size_buff p)) = 0 ->
  exists p',
    consume p c 0 (Z.of_nat (length c)) = Done (no_results, p')
    /\ size_buff_have p' = 8 /\ fst (is_reading p') = 0
    /\ size_buff p' = size_buff p.
Proof.
  intros Hh Hr Hl Hz. unfold consume.
  destruct (Z_le_gt_dec (Z.of_nat (length c)) 0) as [Hn|Hn].
  - rewrite consume_loop_done by assumption. exists p. auto.
  - rewrite consume_loop_step by lia.
    unfold read_header; cbn [is_reading size_buff_have size_buff so_far].
    rewrite Hr, Hh. change (0 =? 0) with true. change (8 =? 0) with false.
    rewrite andb_false_r.
    change (u32 (sizeof_is_reading - 8)) with 0.
    assert (Hu : 0 <= u32 (Z.of_nat (length c)))
      by (unfold u32; pose proof (Z.mod_pos_bound (Z.of_nat (length c))
                                    4294967296); lia).
    rewrite Z.min_r by exact Hu.
    rewrite read_prefix by lia. change (Z.to_nat 0) with 0%nat.
    rewrite take_0. cbn [mbind option_bind].
    rewrite write_inside by (cbn [length]; lia).
    cbn [mbind option_bind length]. change (Z.to_nat 8) with 8%nat.
    assert (Esb : take 8 (size_buff p) ++ [] ++ drop (8 + 0) (size_buff p)
                  = size_buff p).
    { rewrite take_ge, drop_ge by lia. cbn [app]. apply app_nil_r. }
    rewrite Esb.
    change (u32 (8 + 0)) with 8. change (sizeof_is_reading <=? 8) with true.
    cbn [is_reading so_far]. rewrite Hz. cbn [negb andb].
    change (0 =? 0) with true. cbn [negb andb].
    eexists. split; [reflexivity|]. cbn. auto.
Qed.

Lemma wedged_feed (chunks : list (list byte)) : forall p : ProtocolParser,
  size_buff_have p = 8 -> fst (is_reading p) = 0 ->
  length (size_buff p) = 8%nat -> fst (load_is_reading (size_buff p)) = 0 ->
  exists p', feed p chunks = Done (replicate (length chunks) no_results, p').
Proof.
  induction chunks as [|c cs IH]; intros p Hh Hr Hl Hz.
  - exists p. reflexivity.
  - destruct (wedged_call p c Hh Hr Hl Hz) as (p1 & H1 & Hh1 & Hr1 & Esb).
    destruct (IH p1) as (p2 & H2); try assumption; try (rewrite Esb; assumption).
    exists p2. cbn [length]. eapply feed_cons_quiet; eassumption.
Qed.

(** X3. A zero-length frame wedges its connection. At a frame boundary,
    with a scratch area whose first word is 0 (the zero-initialised
    [EPollData] of the readiness engine), after a header with [length = 0]
    has arrived in one call, every later call returns [to_write = 0],
    [count = 0], whatever bytes it brings: no later request on that
    connection is completed. *)
Theorem zero_length_frame_wedges_the_parser
    (p : ProtocolParser) (hdr : list byte) (chunks : list (list byte)) :
  at_boundary p -> fst (load_is_reading (size_buff p)) = 0 ->
  length hdr = 8%nat -> frame_length hdr = 0 ->
  exists p',
    feed p (hdr :: chunks)
    = Done (replicate (S (length chunks)) no_results, p').
Proof.
  intros Hb Hz Hlen HL.
  pose proof (header_call p hdr Hb Hlen ltac:(left; exact HL)) as H1.
  destruct Hb as (_ & _ & _ & Hl).
  destruct (wedged_feed chunks
              (mkParser 8 (load_is_reading hdr) (size_buff p) 8))
    as (p' & H2); try assumption; try reflexivity.
  exists p'. eapply feed_cons_quiet; eassumption.
Qed.

Lemma zero_length_frame_wedges_the_parser_witness :
  at_boundary (fresh zeroed)
  /\ fst (load_is_reading (size_buff (fresh zeroed))) = 0
  /\ length zero_length_header = 8%nat
  /\ frame_length zero_length_header = 0
  /\ exists p',
       feed (fresh zeroed) [zero_length_header; frame_a; frame_b]
       = Done (replicate 3 no_results, p').
Proof.
  assert (Hb : at_boundary (fresh zeroed))
    by (unfold at_boundary; cbn; repeat split; reflexivity).
  split; [exact Hb|]. split; [reflexivity|]. split; [reflexivity|].
  split; [reflexivity|].
  apply (zero_length_frame_wedges_the_parser (fresh zeroed)
           zero_length_header [frame_a; frame_b] Hb); reflexivity.
Defined.

End ParserFacts.

(** ** The classic buffer provider *)

Module ClassicPoolFacts.
Import ClassicPool.

Lemma u16_small (x : Z) : 0 <= x < 65536 -> u16 x = x.
Proof. intros H. unfold u16. apply Z.mod_small. exact H. Qed.

Lemma sum_counts_app (l l' : list Range) :
  sum_counts (l ++ l') = sum_counts l + sum_counts l'.
Proof.
  induction l as [|r l IH]; cbn [sum_counts foldr app] in *; [reflexivity|].
  fold (sum_counts (l ++ l')). fold (sum_counts l). lia.
Qed.

Lemma sum_counts_cons (r : Range) (l : list Range) :
  sum_counts (r :: l) = count r + sum_counts l.
Proof. reflexivity. Qed.

Lemma sum_counts_nil : sum_counts [] = 0.
Proof. reflexivity. Qed.

Lemma rev_cons_inv {A : Type} (l front : list A) (x : A) :
  rev l = x :: front -> l = rev front ++ [x].
Proof.
  intros H. rewrite <- (rev_involutive l), H. reflexivity.
Qed.

(** *** Coalescing *)

Lemma covers_length (r : Range) : length (covers r) = Z.to_nat (count r).
Proof. unfold covers. apply length_seq. Qed.

Lemma covers_In (r : Range) (x : nat) :
  In x (covers r) <->
  (Z.to_nat (start r) <= x < Z.to_nat (start r) + Z.to_nat (count r))%nat.
Proof. unfold covers. apply in_seq. Qed.

Lemma tiles_perm (K : nat) (fl : list Range) (held held' : list nat) :
  tiles K fl held -> Permutation held held' -> tiles K fl held'.
Proof.
  intros [Hg Hp] Hpp. split; [exact Hg|].
  eapply Permutation_trans; eassumption.
Qed.

Lemma covers_merge_index (K : nat) (r r' : Range) (i : nat) :
  Z.of_nat K <= 65535 -> (i < K)%nat -> good K r ->
  merge_index r (Z.of_nat i) = Some r' ->
  good K r' /\ Permutation (covers r') (i :: covers r).
Proof.
  intros HK Hi (Hs & Hc & He). unfold merge_index.
  destruct (Z.of_nat i =? start r - 1) eqn:H1.
  - apply Z.eqb_eq in H1. intros H; inversion H; subst; clear H.
    rewrite u16_small by lia. unfold good, covers; cbn [start count].
    split; [lia|].
    replace (Z.to_nat (count r + 1)) with (S (Z.to_nat (count r))) by lia.
    cbn [seq]. rewrite Nat2Z.id.
    replace (S i) with (Z.to_nat (start r)) by lia. reflexivity.
  - destruct (Z.of_nat i =? start r + count r) eqn:H2; [|discriminate].
    apply Z.eqb_eq in H2. intros H; inversion H; subst; clear H.
    rewrite u16_small by lia. unfold good, covers; cbn [start count].
    split; [lia|].
    replace (Z.to_nat (count r + 1)) with (S (Z.to_nat (count r))) by lia.
    rewrite seq_S.
    replace (Z.to_nat (start r) + Z.to_nat (count r))%nat with i by lia.
    symmetry. apply Permutation_cons_append.
Qed.

Lemma covers_merge_range (K : nat) (a b m : Range) :
  Z.of_nat K <= 65535 -> good K a -> good K b -> merge_range a b = Some m ->
  good K m /\ Permutation (covers m) (covers a ++ covers b).
Proof.
  intros HK (Has & Hac & Hae) (Hbs & Hbc & Hbe). unfold merge_range.
  destruct (start a + count a =? start b) eqn:H1.
  - apply Z.eqb_eq in H1. intros H; inversion H; subst; clear H.
    rewrite u16_small by lia. unfold good, covers; cbn [start count].
    split; [lia|].
    replace (Z.to_nat (count a + count b))
      with (Z.to_nat (count a) + Z.to_nat (count b))%nat by lia.
    rewrite seq_app.
    replace (Z.to_nat (start a) + Z.to_nat (count a))%nat
      with (Z.to_nat (start b)) by lia.
    reflexivity.
  - destruct (start b + count b =? start a) eqn:H2; [|discriminate].
    apply Z.eqb_eq in H2. intros H; inversion H; subst; clear H.
    rewrite u16_small by lia. unfold good, covers; cbn [start count].
    split; [lia|].
    replace (Z.to_nat (count a + count b))
      with (Z.to_nat (count b) + Z.to_nat (count a))%nat by lia.
    rewrite seq_app.
    replace (Z.to_nat (start b) + Z.to_nat (count b))%nat
      with (Z.to_nat (start a)) by lia.
    apply Permutation_app_comm.
Qed.

Lemma good_one (K : nat) (i : nat) :
  (i < K)%nat ->
  good K (mkRange (Z.of_nat i) 1)
  /\ covers (mkRange (Z.of_nat i) 1) = [i].
Proof.
  intros Hi. unfold good, covers; cbn [start count]. split; [lia|].
  rewrite Nat2Z.id. reflexivity.
Qed.

(** [returnIndex] puts buffer [i] into the ranges of the free list. *)
Lemma returnIndex_tiles (K : nat) (b : BufferProviderV1) (i : nat)
    (held : list nat) :
  Z.of_nat K <= 65535 -> (i < K)%nat -> tiles K (toProvide_ b) held ->
  tiles K (toProvide_ (returnIndex b (Z.of_nat i))) (i :: held).
Proof.
  intros HK Hi [Hg Hp]. unfold returnIndex, with_free; cbn [toProvide_].
  rewrite (u16_small (Z.of_nat i)) by lia.
  destruct (good_one K i Hi) as [Hg1 Hc1].
  assert (Hpush : tiles K (toProvide_ b ++ [mkRange (Z.of_nat i) 1])
                    (i :: held)).
  { split; [apply Forall_app; split; [assumption | apply Forall_singleton; assumption]|].
    rewrite flat_map_app. cbn [flat_map]. rewrite Hc1, app_nil_r.
    rewrite <- Permutation_cons_append. constructor. exact Hp. }
  destruct (rev (toProvide_ b)) as [|bk front] eqn:Hrev.
  - apply (f_equal (@rev Range)) in Hrev. rewrite rev_involutive in Hrev.
    rewrite Hrev in Hpush. exact Hpush.
  - apply rev_cons_inv in Hrev.
    destruct (merge_index bk (Z.of_nat i)) as [bk'|] eqn:Hm1.
    + clear Hpush. rewrite Hrev in *. clear Hrev.
      apply Forall_app in Hg as [Hfront Hbk].
      inversion Hbk as [|? ? Hbk0 _]; subst.
      destruct (covers_merge_index K bk bk' i HK Hi Hbk0 Hm1) as [Hg' Hp'].
      cbn [rev]. split.
      * apply Forall_app; split; [assumption | apply Forall_singleton; assumption].
      * rewrite flat_map_app in Hp |- *. cbn [flat_map] in Hp |- *.
        rewrite app_nil_r in Hp |- *. rewrite Hp'.
        rewrite <- Hp. symmetry. apply Permutation_middle.
    + destruct front as [|r2 front']; [exact Hpush|].
      destruct (merge_index r2 (Z.of_nat i)) as [r2'|] eqn:Hm2;
        [|exact Hpush].
      clear Hpush. rewrite Hrev in *. clear Hrev. cbn [rev] in *.
      apply Forall_app in Hg as [Hfront Hbk].
      inversion Hbk as [|? ? Hbk0 _]; subst.
      apply Forall_app in Hfront as [Hfront' Hr2].
      inversion Hr2 as [|? ? Hr20 _]; subst.
      destruct (covers_merge_index K r2 r2' i HK Hi Hr20 Hm2) as [Hg2 Hp2].
      rewrite !flat_map_app in Hp. cbn [flat_map] in Hp.
      rewrite !app_nil_r in Hp.
      assert (Hheld : Permutation
                        (flat_map covers (rev front') ++ covers r2' ++ covers bk)
                        (i :: held)).
      { rewrite Hp2. rewrite <- Hp. cbn [app].
        rewrite <- app_assoc. symmetry. apply Permutation_middle. }
      destruct (merge_range r2' bk) as [m|] eqn:Hm3.
      * destruct (covers_merge_range K r2' bk m HK Hg2 Hbk0 Hm3) as [Hgm Hpm].
        split.
        -- apply Forall_app; split; [assumption | apply Forall_singleton; assumption].
        -- rewrite flat_map_app. cbn [flat_map]. rewrite app_nil_r, Hpm.
           exact Hheld.
      * split.
        -- repeat (apply Forall_app; split); try assumption;
             apply Forall_singleton; assumption.
        -- rewrite !flat_map_app. cbn [flat_map]. rewrite !app_nil_r.
           rewrite <- app_assoc. exact Hheld.
Qed.

Lemma returnAll_tiles (K : nat) (l : list nat) :
  Z.of_nat K <= 65535 -> Forall (fun i => (i < K)%nat) l ->
  forall (b : BufferProviderV1) (held : list nat),
    tiles K (toProvide_ b) held ->
    tiles K (toProvide_ (returnAll b (map Z.of_nat l))) (l ++ held).
Proof.
  intros HK Hl. induction Hl as [|i l Hi _ IH]; intros b held Ht.
  - exact Ht.
  - cbn [map]. unfold returnAll in *. cbn [fold_left].
    eapply tiles_perm; [apply IH, returnIndex_tiles; eassumption|].
    cbn [app]. symmetry. apply Permutation_middle.
Qed.

Lemma returnAll_count (l : list Z) : forall b : BufferProviderV1,
  toProvideCount_ (returnAll b l) = toProvideCount_ b + Z.of_nat (length l)
  /\ lowWatermark_ (returnAll b l) = lowWatermark_ b.
Proof.
  induction l as [|i l IH]; intros b.
  - cbn. split; [lia | reflexivity].
  - unfold returnAll in *. cbn [fold_left length].
    destruct (IH (returnIndex b i)) as [H1 H2]. rewrite H1, H2.
    unfold returnIndex, with_free; cbn [toProvideCount_ lowWatermark_].
    split; [lia | reflexivity].
Qed.

Lemma compact_count (b : BufferProviderV1) :
  toProvideCount_ (compact b) = toProvideCount_ b
  /\ lowWatermark_ (compact b) = lowWatermark_ b.
Proof.
  unfold compact.
  destruct (toProvide_ b) as [|r0 [|r1 [|r2 l]]]; try (split; reflexivity).
  - destruct (merge_range r0 r1); split; reflexivity.
  - destruct (sort_ranges _); split; reflexivity.
Qed.

(** The range that starts lowest in a tiling of [lo, lo + n) starts at
    [lo], and the others tile what it leaves. *)
Lemma tile_head (K : nat) (r : Range) (l : list Range) (lo n : nat) :
  good K r -> Forall (fun r' => start r <= start r') l ->
  Forall (good K) l ->
  Permutation (covers r ++ flat_map covers l) (seq lo n) ->
  Z.to_nat (start r) = lo /\ (Z.to_nat (count r) <= n)%nat
  /\ Permutation (flat_map covers l)
       (seq (lo + Z.to_nat (count r)) (n - Z.to_nat (count r))).
Proof.
  intros (Hs & Hc & He) Hle Hg Hp.
  assert (Hlen : (Z.to_nat (count r) + length (flat_map covers l) = n)%nat).
  { apply Permutation_length in Hp.
    rewrite length_app, covers_length, length_seq in Hp. exact Hp. }
  assert (Hmin : forall x, In x (covers r ++ flat_map covers l) ->
                           (Z.to_nat (start r) <= x)%nat).
  { intros x Hx. apply in_app_iff in Hx as [Hx|Hx].
    - apply covers_In in Hx. lia.
    - apply in_flat_map in Hx as (r' & Hr' & Hx).
      apply covers_In in Hx.
      rewrite List.Forall_forall in Hle, Hg.
      pose proof (Hle r' Hr'). destruct (Hg r' Hr') as (? & ? & ?). lia. }
  assert (Hin : In (Z.to_nat (start r)) (seq lo n)).
  { eapply Permutation_in; [exact Hp|]. apply in_app_iff. left.
    apply covers_In. lia. }
  apply in_seq in Hin.
  assert (Hlo : In lo (covers r ++ flat_map covers l)).
  { eapply Permutation_in; [symmetry; exact Hp|]. apply in_seq. lia. }
  apply Hmin in Hlo.
  assert (Hst : Z.to_nat (start r) = lo) by lia.
  split; [exact Hst|]. split; [lia|].
  apply (Permutation_app_inv_l (covers r)).
  rewrite Hp. unfold covers. rewrite Hst, <- seq_app.
  replace (Z.to_nat (count r) + (n - Z.to_nat (count r)))%nat with n by lia.
  reflexivity.
Qed.

#[local] Instance sortable_le_total : Total sortable_le.
Proof. intros a b. unfold sortable_le. lia. Qed.

#[local] Instance sortable_le_trans : Transitive sortable_le.
Proof. intros a b c. unfold sortable_le. lia. Qed.

Lemma sortable_le_start (K : nat) (a b : Range) :
  Z.of_nat K <= 65535 -> good K a -> good K b -> sortable_le a b ->
  start a <= start b.
Proof.
  intros HK (? & ? & ?) (? & ? & ?). unfold sortable_le, sortable. lia.
Qed.

Lemma sorted_by_start (K : nat) (l : list Range) :
  Z.of_nat K <= 65535 -> Forall (good K) l -> StronglySorted sortable_le l ->
  StronglySorted (fun a b => start a <= start b) l.
Proof.
  intros HK Hg Hs. induction Hs as [|a l Hs IH Ha]; [constructor|].
  inversion Hg as [|? ? Hga Hgl]; subst.
  constructor; [apply IH; assumption|].
  rewrite List.Forall_forall in Ha, Hgl |- *. intros x Hx.
  eapply sortable_le_start; eauto.
Qed.

(** The loop of [compact] on ranges sorted by start that tile the [n]
    buffers after the back [bk] of [toProvide2_]: they all end up in it. *)
Lemma coalesce_tiles (K : nat) (l : list Range) :
  Z.of_nat K <= 65535 ->
  forall (front : list Range) (bk : Range) (n : nat),
    good K bk -> Forall (good K) l ->
    StronglySorted (fun a b => start a <= start b) l ->
    Permutation (flat_map covers l)
      (seq (Z.to_nat (start bk) + Z.to_nat (count bk)) n) ->
    fold_left coalesce_step l (front ++ [bk])
    = front ++ [mkRange (start bk) (count bk + Z.of_nat n)].
Proof.
  intros HK. induction l as [|p l IH]; intros front bk n Hbk Hg Hs Hp.
  - cbn [flat_map] in Hp. apply Permutation_length in Hp.
    rewrite length_seq in Hp. cbn in Hp. subst n. cbn [fold_left].
    destruct bk as [s c]; cbn [start count]. do 3 f_equal. lia.
  - inversion Hg as [|? ? Hgp Hgl]; subst.
    apply StronglySorted_inv in Hs as [Hs Hple].
    cbn [flat_map] in Hp.
    destruct (tile_head K p l _ n Hgp Hple Hgl Hp) as (Hst & Hcn & Hrest).
    destruct Hbk as (Hbs & Hbc & Hbe). destruct Hgp as (Hps & Hpc & Hpe).
    cbn [fold_left]. unfold coalesce_step at 2.
    rewrite rev_unit. unfold merge_range.
    replace (start bk + count bk =? start p) with true
      by (symmetry; apply Z.eqb_eq; lia).
    rewrite u16_small by lia. cbn [rev]. rewrite rev_involutive.
    rewrite (IH front (mkRange (start bk) (count bk + count p))
               (n - Z.to_nat (count p))%nat); try assumption.
    + cbn [start count]. do 3 f_equal. lia.
    + unfold good; cbn [start count]. lia.
    + cbn [start count].
      replace (Z.to_nat (start bk) + Z.to_nat (count bk + count p))%nat
        with (Z.to_nat (start bk) + Z.to_nat (count bk)
              + Z.to_nat (count p))%nat by lia.
      exact Hrest.
Qed.

(** [compact] on a free list that tiles the buffers [0 .. k-1]. *)
Lemma compact_tiles (k : nat) (b : BufferProviderV1) :
  (0 < k)%nat /\ Z.of_nat k <= 65535 -> tiles k (toProvide_ b) (seq 0 k) ->
  toProvide_ (compact b) = [mkRange 0 (Z.of_nat k)].
Proof.
  intros Hk [Hg Hp]. unfold compact.
  destruct (toProvide_ b) as [|r0 [|r1 [|r2 l]]] eqn:Htp.
  - apply Permutation_length in Hp. rewrite length_seq in Hp. cbn in Hp. lia.
  - rewrite Htp. inversion Hg as [|? ? Hg0 _]; subst.
    cbn [flat_map] in Hp.
    destruct (tile_head k r0 [] 0 k Hg0 ltac:(constructor)
                ltac:(constructor) Hp) as (Hst & Hcn & Hrest).
    cbn [flat_map] in Hrest. apply Permutation_length in Hrest.
    rewrite length_seq in Hrest. cbn in Hrest.
    destruct Hg0 as (? & ? & ?). destruct r0 as [s c]; cbn [start count] in *.
    do 2 f_equal; lia.
  - inversion Hg as [|? ? Hg0 Hg']; subst.
    inversion Hg' as [|? ? Hg1 _]; subst.
    cbn [flat_map] in Hp. rewrite app_nil_r in Hp.
    assert (Hnil : forall r n, good k r ->
              Permutation (covers r) (seq n (k - n)) ->
              Z.to_nat (start r) = n /\ Z.to_nat (count r) = (k - n)%nat).
    { intros r n Hgr Hpr.
      destruct (tile_head k r [] n (k - n) Hgr ltac:(constructor)
                  ltac:(constructor)) as (Hst & Hcn & Hrest).
      - cbn [flat_map]. rewrite app_nil_r. exact Hpr.
      - apply Permutation_length in Hpr.
        rewrite covers_length, length_seq in Hpr. split; assumption. }
    destruct (Z_le_gt_dec (start r0) (start r1)) as [Hle|Hgt].
    + destruct (tile_head k r0 [r1] 0 k Hg0) as (Hst & Hcn & Hrest);
        [apply Forall_singleton; exact Hle | apply Forall_singleton; exact Hg1
        | cbn [flat_map]; rewrite app_nil_r; exact Hp |].
      cbn [flat_map] in Hrest. rewrite app_nil_r in Hrest. cbn [Nat.add] in Hrest.
      destruct (Hnil r1 _ Hg1 Hrest) as [Hs1 Hc1].
      destruct Hg0 as (? & ? & ?). destruct Hg1 as (? & ? & ?).
      unfold merge_range.
      replace (start r0 + count r0 =? start r1) with true
        by (symmetry; apply Z.eqb_eq; lia).
      rewrite u16_small by lia. unfold with_free; cbn [toProvide_].
      do 2 f_equal; lia.
    + destruct (tile_head k r1 [r0] 0 k Hg1) as (Hst & Hcn & Hrest);
        [apply Forall_singleton; lia | apply Forall_singleton; exact Hg0
        | cbn [flat_map]; rewrite app_nil_r;
          rewrite Permutation_app_comm; exact Hp |].
      cbn [flat_map] in Hrest. rewrite app_nil_r in Hrest. cbn [Nat.add] in Hrest.
      destruct (Hnil r0 _ Hg0 Hrest) as [Hs0 Hc0].
      destruct Hg0 as (? & ? & ?). destruct Hg1 as (? & ? & ?).
      unfold merge_range.
      replace (start r0 + count r0 =? start r1) with false
        by (symmetry; apply Z.eqb_neq; lia).
      replace (start r1 + count r1 =? start r0) with true
        by (symmetry; apply Z.eqb_eq; lia).
      rewrite u16_small by lia. unfold with_free; cbn [toProvide_].
      do 2 f_equal; lia.
  - pose proof (merge_sort_Permutation sortable_le (r0 :: r1 :: r2 :: l))
      as Hperm.
    pose proof (StronglySorted_merge_sort sortable_le (r0 :: r1 :: r2 :: l))
      as Hsorted.
    fold (sort_ranges (r0 :: r1 :: r2 :: l)) in Hperm, Hsorted.
    destruct (sort_ranges (r0 :: r1 :: r2 :: l)) as [|s0 rest] eqn:Hsort.
    + apply Permutation_length in Hperm. cbn in Hperm. lia.
    + cbn [toProvide_].
      assert (Hg' : Forall (good k) (s0 :: rest))
        by (eapply Permutation_Forall; [symmetry; exact Hperm | exact Hg]).
      assert (Hp' : Permutation (flat_map covers (s0 :: rest)) (seq 0 k)).
      { rewrite <- Hp. apply Permutation_flat_map. exact Hperm. }
      apply (sorted_by_start k) in Hsorted; [|lia|exact Hg'].
      apply StronglySorted_inv in Hsorted as [Hsr Hs0le].
      inversion Hg' as [|? ? Hgs0 Hgrest]; subst.
      cbn [flat_map] in Hp'.
      destruct (tile_head k s0 rest 0 k Hgs0 Hs0le Hgrest Hp')
        as (Hst & Hcn & Hrest).
      change [s0] with ([] ++ [s0]).
      rewrite (coalesce_tiles k rest ltac:(lia) [] s0
                 (k - Z.to_nat (count s0))%nat Hgs0 Hgrest Hsr).
      * destruct Hgs0 as (? & ? & ?). cbn [app]. do 2 f_equal; lia.
      * rewrite Hst. exact Hrest.
Qed.

(** C5. For every [k] (from 1 to 65535, the range of a 16-bit count) and
    every permutation [l] of the indices [0, 1, ..., k-1]: returning them
    one by one with [returnIndex] to a provider whose free list is empty
    and then calling [compact] leaves the free list holding exactly the
    one range [{start: 0, count: k}]; [toProvideCount_] has grown by [k],
    so [needsToProvide] says whether that exceeds the low watermark. (The
    witness is the pool with [count = 4], [low_watermark = 1] and the order
    2, 0, 3, 1: one range [{0, 4}] and [needsToProvide() = true].) *)
Theorem returned_indices_coalesce
    (k : nat) (l : list nat) (b : BufferProviderV1) :
  (0 < k)%nat /\ Z.of_nat k <= 65535 -> Permutation l (seq 0 k) -> toProvide_ b = [] ->
  let b' := compact (returnAll b (map Z.of_nat l)) in
  toProvide_ b' = [mkRange 0 (Z.of_nat k)]
  /\ toProvideCount_ b' = toProvideCount_ b + Z.of_nat k
  /\ needsToProvide b'
     = (lowWatermark_ b <? toProvideCount_ b + Z.of_nat k).
Proof.
  intros Hk Hperm Hempty b'.
  assert (Hl : Forall (fun i => (i < k)%nat) l).
  { apply List.Forall_forall. intros i Hi.
    apply (Permutation_in _ Hperm), in_seq in Hi. lia. }
  assert (Ht : tiles k (toProvide_ (returnAll b (map Z.of_nat l))) (seq 0 k)).
  { eapply tiles_perm.
    - apply (returnAll_tiles k l ltac:(lia) Hl b []).
      rewrite Hempty. split; [constructor | reflexivity].
    - rewrite app_nil_r. exact Hperm. }
  destruct (compact_count (returnAll b (map Z.of_nat l))) as [Hc1 Hw1].
  destruct (returnAll_count (map Z.of_nat l) b) as [Hc2 Hw2].
  rewrite length_map, (Permutation_length Hperm), length_seq in Hc2.
  split; [apply compact_tiles; assumption|].
  unfold needsToProvide. subst b'. rewrite Hc1, Hw1, Hc2, Hw2.
  split; reflexivity.
Qed.

Lemma returned_indices_coalesce_witness :
  ((0 < 4)%nat /\ Z.of_nat 4 <= 65535) /\ Permutation back_in_disorder (seq 0 4)
  /\ toProvide_ four_buffers = []
  /\ toProvide_ (compact (returnAll four_buffers
                            (map Z.of_nat back_in_disorder)))
     = [mkRange 0 4]
  /\ needsToProvide (compact (returnAll four_buffers
                                (map Z.of_nat back_in_disorder))) = true.
Proof.
  assert (Hk : (0 < 4)%nat /\ Z.of_nat 4 <= 65535) by (split; [lia | cbn; lia]).
  assert (Hp : Permutation back_in_disorder (seq 0 4)).
  { unfold back_in_disorder. cbn [seq].
    apply (perm_trans (l' := [0; 2; 3; 1]%nat)); [apply perm_swap|].
    apply perm_skip.
    apply (perm_trans (l' := [2; 1; 3]%nat));
      [apply perm_skip, perm_swap | apply perm_swap]. }
  assert (He : toProvide_ four_buffers = []) by reflexivity.
  destruct (returned_indices_coalesce 4 back_in_disorder four_buffers
              Hk Hp He) as (H1 & H2 & H3).
  split; [exact Hk|]. split; [exact Hp|]. split; [exact He|].
  split; [exact H1|]. rewrite H3. reflexivity.
Defined.

(** *** Publishing and returning, beyond the count *)

(** X5. [returnIndex(i)] adds buffer [i] to the free list and nothing
    else, whichever of its branches runs (new range, merge into the last
    range, merge into the one before it, join of the two): the buffers the
    ranges hold afterwards are [i] and those held before, and every range
    is still non-empty and inside the pool (pools of at most 65535
    buffers). *)
Theorem returnIndex_adds_exactly_one_buffer
    (K : nat) (b : BufferProviderV1) (i : nat) (held : list nat) :
  Z.of_nat K <= 65535 -> (i < K)%nat -> tiles K (toProvide_ b) held ->
  Forall (good K) (toProvide_ (returnIndex b (Z.of_nat i)))
  /\ Permutation (flat_map covers (toProvide_ (returnIndex b (Z.of_nat i))))
       (i :: held).
Proof. intros HK Hi Ht. exact (returnIndex_tiles K b i held HK Hi Ht). Qed.

Lemma scattered_tiles : tiles 6 (toProvide_ scattered) [4; 0; 2]%nat.
Proof.
  split; [|reflexivity].
  repeat (apply List.Forall_cons; [vm_compute; intuition discriminate|]).
  apply List.Forall_nil.
Qed.

Lemma returnIndex_adds_exactly_one_buffer_witness :
  Z.of_nat 6 <= 65535 /\ (3 < 6)%nat /\ tiles 6 (toProvide_ scattered) [4; 0; 2]%nat
  /\ Permutation (flat_map covers (toProvide_ (returnIndex scattered 3)))
       [3; 4; 0; 2]%nat.
Proof.
  assert (HK : Z.of_nat 6 <= 65535) by (cbn; lia).
  assert (Hi : (3 < 6)%nat) by lia.
  split; [exact HK|]. split; [exact Hi|]. split; [exact scattered_tiles|].
  exact (proj2 (returnIndex_adds_exactly_one_buffer 6 scattered 3 _ HK Hi
                  scattered_tiles)).
Defined.

(** One pass of the loop of [compact] keeps the buffers held. *)
Lemma coalesce_step_keeps (K : nat) (tp2 : list Range) (p : Range)
    (held : list nat) :
  Z.of_nat K <= 65535 -> tiles K tp2 held -> good K p ->
  tiles K (coalesce_step tp2 p) (held ++ covers p).
Proof.
  intros HK [Hg Hp] Hgp.
  assert (Hpush : tiles K (tp2 ++ [p]) (held ++ covers p)).
  { split; [apply Forall_app; split; [assumption | apply Forall_singleton; assumption]|].
    rewrite flat_map_app. cbn [flat_map]. rewrite app_nil_r, Hp. reflexivity. }
  unfold coalesce_step.
  destruct (rev tp2) as [|bk front] eqn:Hrev; [exact Hpush|].
  destruct (merge_range bk p) as [bk'|] eqn:Hm; [|exact Hpush].
  clear Hpush. apply rev_cons_inv in Hrev. subst tp2.
  apply Forall_app in Hg as [Hfront Hbk].
  inversion Hbk as [|? ? Hbk0 _]; subst.
  destruct (covers_merge_range K bk p bk' HK Hbk0 Hgp Hm) as [Hg' Hp'].
  cbn [rev]. split.
  - apply Forall_app; split; [assumption | apply Forall_singleton; assumption].
  - rewrite flat_map_app in Hp |- *. cbn [flat_map] in Hp |- *.
    rewrite app_nil_r in Hp |- *. rewrite Hp', <- Hp, app_assoc. reflexivity.
Qed.

Lemma coalesce_keeps (K : nat) (l : list Range) :
  Z.of_nat K <= 65535 -> Forall (good K) l ->
  forall (tp2 : list Range) (held : list nat),
    tiles K tp2 held ->
    tiles K (fold_left coalesce_step l tp2) (held ++ flat_map covers l).
Proof.
  intros HK Hl. induction Hl as [|p l Hp _ IH]; intros tp2 held Ht.
  - cbn [fold_left flat_map]. rewrite app_nil_r. exact Ht.
  - cbn [fold_left flat_map]. rewrite app_assoc.
    apply IH, coalesce_step_keeps; assumption.
Qed.

(** [compact] holds the same buffers before and after. *)
Lemma compact_keeps (K : nat) (b : BufferProviderV1) (held : list nat) :
  Z.of_nat K <= 65535 -> tiles K (toProvide_ b) held ->
  tiles K (toProvide_ (compact b)) held.
Proof.
  intros HK Ht. unfold compact.
  destruct (toProvide_ b) as [|r0 [|r1 [|r2 l]]] eqn:Htp.
  - rewrite Htp. exact Ht.
  - rewrite Htp. exact Ht.
  - destruct (merge_range r0 r1) as [m|] eqn:Hm; [|rewrite Htp; exact Ht].
    destruct Ht as [Hg Hp].
    inversion Hg as [|? ? Hg0 Hg']; subst.
    inversion Hg' as [|? ? Hg1 _]; subst.
    destruct (covers_merge_range K r0 r1 m HK Hg0 Hg1 Hm) as [Hgm Hpm].
    unfold with_free; cbn [toProvide_]. split.
    + apply Forall_singleton; exact Hgm.
    + cbn [flat_map] in Hp |- *. rewrite app_nil_r in Hp |- *.
      rewrite Hpm. exact Hp.
  - pose proof (merge_sort_Permutation sortable_le (r0 :: r1 :: r2 :: l))
      as Hperm.
    fold (sort_ranges (r0 :: r1 :: r2 :: l)) in Hperm.
    destruct (sort_ranges (r0 :: r1 :: r2 :: l)) as [|s0 rest] eqn:Hsort.
    + apply Permutation_length in Hperm. cbn in Hperm. lia.
    + cbn [toProvide_]. destruct Ht as [Hg Hp].
      assert (Hg' : Forall (good K) (s0 :: rest))
        by (eapply Permutation_Forall; [symmetry; exact Hperm | exact Hg]).
      inversion Hg' as [|? ? Hgs0 Hgrest]; subst.
      eapply tiles_perm.
      * apply (coalesce_keeps K rest HK Hgrest [s0] (covers s0)).
        split; [apply Forall_singleton; exact Hgs0|].
        cbn [flat_map]. rewrite app_nil_r. reflexivity.
      * rewrite <- Hp.
        change (covers s0 ++ flat_map covers rest)
          with (flat_map covers (s0 :: rest)).
        apply Permutation_flat_map. exact Hperm.
Qed.

(** X6. [compact] neither loses nor duplicates a buffer: for every free
    list of non-empty ranges inside a pool of at most 65535 buffers, the
    buffers held by the ranges after [compact] are exactly those held
    before (as multisets), in all three of its cases: fewer than two
    ranges, two ranges, sort and merge. *)
Theorem compact_keeps_the_free_buffers
    (K : nat) (b : BufferProviderV1) (held : list nat) :
  Z.of_nat K <= 65535 -> tiles K (toProvide_ b) held ->
  Forall (good K) (toProvide_ (compact b))
  /\ Permutation (flat_map covers (toProvide_ (compact b))) held.
Proof. intros HK Ht. exact (compact_keeps K b held HK Ht). Qed.

Lemma compact_keeps_the_free_buffers_witness :
  Z.of_nat 6 <= 65535 /\ tiles 6 (toProvide_ scattered) [4; 0; 2]%nat
  /\ tiles 6 (toProvide_ (compact scattered)) [4; 0; 2]%nat.
Proof.
  assert (HK : Z.of_nat 6 <= 65535) by (cbn; lia).
  split; [exact HK|]. split; [exact scattered_tiles|].
  exact (compact_keeps_the_free_buffers 6 scattered _ HK scattered_tiles).
Defined.

(** *** The count of the free buffers *)

(** The counts of ranges that are not empty add up to the number of
    buffers they hold. *)
Lemma good_sum (K : nat) (l : list Range) :
  Forall (good K) l -> sum_counts l = Z.of_nat (length (flat_map covers l)).
Proof.
  induction 1 as [|r l Hr _ IH]; [reflexivity|].
  rewrite sum_counts_cons. cbn [flat_map]. rewrite length_app, covers_length, IH.
  destruct Hr as (_ & Hc & _). lia.
Qed.

Lemma kept_tiles (b : BufferProviderV1) :
  kept b ->
  tiles (Z.to_nat (buffers_size b)) (toProvide_ b)
    (flat_map covers (toProvide_ b)).
Proof. intros (_ & Hg & _). split; [exact Hg | reflexivity]. Qed.

Lemma create_kept (rx_cfg : IoUringRxConfig) :
  1 <= provided_buffer_count rx_cfg <= 65535 ->
  kept (create rx_cfg)
  /\ buffers_size (create rx_cfg) = provided_buffer_count rx_cfg.
Proof.
  intros H. unfold kept, create; cbv zeta.
  cbn [toProvide_ toProvideCount_ buffers_size].
  rewrite (u16_small (provided_buffer_count rx_cfg)) by lia.
  rewrite Z.max_r by lia. change (u16 0) with 0.
  split; [|reflexivity]. split; [lia|]. split.
  - apply Forall_singleton. unfold good; cbn [start count]. lia.
  - rewrite sum_counts_cons, sum_counts_nil. cbn [count]. lia.
Qed.

Lemma returnIndex_kept (b : BufferProviderV1) (i : Z) :
  kept b -> 0 <= i < buffers_size b ->
  kept (returnIndex b i) /\ buffers_size (returnIndex b i) = buffers_size b.
Proof.
  intros Hk Hi. pose proof (kept_tiles b Hk) as Ht.
  destruct Hk as (Hsz & Hg & Hsum).
  apply (returnIndex_tiles _ b (Z.to_nat i)) in Ht; [|lia|lia].
  rewrite Z2Nat.id in Ht by lia. destruct Ht as [Hg' Hp'].
  assert (Hb : buffers_size (returnIndex b i) = buffers_size b) by reflexivity.
  split; [|exact Hb]. unfold kept. rewrite Hb.
  split; [exact Hsz|]. split; [exact Hg'|].
  rewrite (good_sum _ _ Hg'), (Permutation_length Hp').
  rewrite (good_sum _ _ Hg) in Hsum.
  unfold returnIndex, with_free; cbn [toProvideCount_ length]. lia.
Qed.

Lemma compact_size (b : BufferProviderV1) :
  buffers_size (compact b) = buffers_size b
  /\ sizePerBuffer_ (compact b) = sizePerBuffer_ b.
Proof.
  unfold compact.
  destruct (toProvide_ b) as [|r0 [|r1 [|r2 l]]]; try (split; reflexivity).
  - destruct (merge_range r0 r1); split; reflexivity.
  - destruct (sort_ranges _); split; reflexivity.
Qed.

Lemma compact_kept (b : BufferProviderV1) :
  kept b -> kept (compact b) /\ buffers_size (compact b) = buffers_size b.
Proof.
  intros Hk. pose proof (kept_tiles b Hk) as Ht.
  destruct Hk as (Hsz & Hg & Hsum).
  apply compact_keeps in Ht; [|lia]. destruct Ht as [Hg' Hp'].
  destruct (compact_size b) as [Hb _]. split; [|exact Hb].
  unfold kept. rewrite Hb. split; [exact Hsz|]. split; [exact Hg'|].
  rewrite (proj1 (compact_count b)), (good_sum _ _ Hg'),
    (Permutation_length Hp'), <- (good_sum _ _ Hg). exact Hsum.
Qed.

(** [provide] on a kept provider: the last range lies inside [buffers_],
    the closing assertion holds. *)
Lemma provide_last (b : BufferProviderV1) (front : list Range) (r : Range) :
  kept b -> toProvide_ b = front ++ [r] ->
  provide b
  = Provided
      (mkProvide (start r) (sizePerBuffer_ b) (count r) kBgid (start r))
      (with_free b (toProvideCount_ b - count r) front)
  /\ toProvideCount_ b - count r = sum_counts front
  /\ 0 <= start r < buffers_size b
  /\ kept (with_free b (toProvideCount_ b - count r) front).
Proof.
  intros (Hsz & Hg & Hsum) Htp. rewrite Htp in Hg, Hsum.
  apply Forall_app in Hg as [Hfront Hr].
  pose proof (proj1 (Forall_singleton _ _) Hr) as (Hs & Hc & Hin).
  rewrite sum_counts_app, sum_counts_cons, sum_counts_nil in Hsum.
  assert (Hrun : provide b
                 = Provided
                     (mkProvide (start r) (sizePerBuffer_ b) (count r) kBgid
                        (start r))
                     (with_free b (toProvideCount_ b - count r) front)).
  { unfold provide. rewrite Htp, rev_unit, rev_involutive.
    replace (buffers_size b <=? start r) with false
      by (symmetry; apply Z.leb_gt; lia).
    destruct front as [|r2 front'].
    - rewrite sum_counts_nil in Hsum.
      replace (toProvideCount_ b - count r =? 0) with true
        by (symmetry; apply Z.eqb_eq; lia).
      reflexivity.
    - replace (length (rev (r2 :: front')) =? 0)%nat with false; [reflexivity|].
      symmetry. apply Nat.eqb_neq. rewrite length_rev. discriminate. }
  split; [exact Hrun|]. split; [lia|]. split; [lia|].
  unfold kept, with_free; cbn [buffers_size toProvide_ toProvideCount_].
  split; [exact Hsz|]. split; [exact Hfront | lia].
Qed.

Lemma step_kept (b b' : BufferProviderV1) (o : operation) :
  kept b -> in_pool (buffers_size b) o -> step b o = Some b' ->
  kept b' /\ buffers_size b' = buffers_size b.
Proof.
  intros Hk Hin Hstep. destruct o as [i| |]; cbn [step in_pool] in *.
  - inversion Hstep; subst. apply returnIndex_kept; assumption.
  - inversion Hstep; subst. apply compact_kept; assumption.
  - destruct (toProvide_ b) as [|x l] eqn:Htp using rev_ind.
    + unfold provide in Hstep. rewrite Htp in Hstep. discriminate.
    + clear IHl.
      destruct (provide_last b l x Hk Htp) as (Hrun & _ & _ & Hk').
      rewrite Hrun in Hstep. inversion Hstep; subst.
      split; [exact Hk' | reflexivity].
Qed.

Lemma run_kept (ops : list operation) : forall b b' : BufferProviderV1,
  kept b -> Forall (in_pool (buffers_size b)) ops -> run b ops = Some b' ->
  kept b' /\ buffers_size b' = buffers_size b.
Proof.
  induction ops as [|o ops IH]; intros b b' Hk Hin Hrun; cbn [run] in Hrun.
  - inversion Hrun; subst. split; [exact Hk | reflexivity].
  - apply Forall_cons in Hin as [Ho Hin].
    destruct (step b o) as [b1|] eqn:Hstep; [|discriminate].
    destruct (step_kept b b1 o Hk Ho Hstep) as [Hk1 Hb1].
    rewrite <- Hb1 in Hin.
    destruct (IH b1 b' Hk1 Hin Hrun) as [Hk' Hb']. split; [exact Hk'|].
    congruence.
Qed.

(** Every provider a run from the constructor leads to is kept. *)
Lemma created_kept (rx_cfg : IoUringRxConfig) (ops : list operation)
    (b : BufferProviderV1) :
  1 <= provided_buffer_count rx_cfg <= 65535 ->
  Forall (in_pool (provided_buffer_count rx_cfg)) ops ->
  run (create rx_cfg) ops = Some b -> kept b.
Proof.
  intros Hc Hin Hrun. destruct (create_kept rx_cfg Hc) as [Hk Hb].
  rewrite <- Hb in Hin. exact (proj1 (run_kept ops _ _ Hk Hin Hrun)).
Qed.




(** X4. In a pool of 1 to 65535 buffers, on every provider that the
    constructor, [returnIndex] with indices of the pool, [compact] and
    [provide] lead to, [provide] with a free list that is not empty pops
    its last range and hands [io_uring_prep_provide_buffers] that range:
    [buffers_[start]], [sizePerBuffer_], [count], group [kBgid], first id
    [start]. There it never reads the back of an empty vector, [start] is
    an index of [buffers_], and the closing [assert] holds;
    [toProvideCount_] is left as the sum of the ranges that remain. *)
Theorem provide_publishes_the_last_range
    (rx_cfg : IoUringRxConfig) (ops : list operation)
    (b : BufferProviderV1) (front : list Range) (r : Range) :
  1 <= provided_buffer_count rx_cfg <= 65535 ->
  Forall (in_pool (provided_buffer_count rx_cfg)) ops ->
  run (create rx_cfg) ops = Some b ->
  toProvide_ b = front ++ [r] ->
  provide b
  = Provided
      (mkProvide (start r) (sizePerBuffer_ b) (count r) kBgid (start r))
      (with_free b (toProvideCount_ b - count r) front)
  /\ toProvideCount_ b - count r = sum_counts front
  /\ 0 <= start r < buffers_size b.
Proof.
  intros Hc Hin Hrun Htp.
  destruct (provide_last b front r (created_kept rx_cfg ops b Hc Hin Hrun) Htp)
    as (H1 & H2 & H3 & _).
  split; [exact H1|]. split; [exact H2 | exact H3].
Qed.

Lemma provide_publishes_the_last_range_witness :
  1 <= provided_buffer_count cfg_of_four <= 65535
  /\ run (create cfg_of_four) [] = Some (create cfg_of_four)
  /\ toProvide_ (create cfg_of_four) = [] ++ [mkRange 0 4]
  /\ provide (create cfg_of_four)
     = Provided (mkProvide 0 4096 4 1 0) (with_free (create cfg_of_four) 0 []).
Proof.
  assert (Hc : 1 <= provided_buffer_count cfg_of_four <= 65535)
    by (cbn; lia).
  split; [exact Hc|]. split; [reflexivity|]. split; [reflexivity|].
  exact (proj1 (provide_publishes_the_last_range cfg_of_four []
                  (create cfg_of_four) [] (mkRange 0 4) Hc
                  ltac:(constructor) eq_refl eq_refl)).
Defined.

Lemma returnIndex_extends_back (b : BufferProviderV1) (front : list Range)
    (s c : Z) :
  toProvide_ b = front ++ [mkRange s c] -> 0 <= s -> 0 <= c ->
  s + c < 65536 ->
  toProvide_ (returnIndex b (s + c)) = front ++ [mkRange s (u16 (c + 1))].
Proof.
  intros Htp Hs Hc Hi. unfold returnIndex, with_free; cbn [toProvide_].
  rewrite u16_small by lia. rewrite Htp, rev_unit.
  unfold merge_index; cbn [start count].
  replace (s + c =? s - 1) with false by (symmetry; apply Z.eqb_neq; lia).
  rewrite Z.eqb_refl. cbn [rev]. rewrite rev_involutive. reflexivity.
Qed.

Lemma returnIndex_extends_front (b : BufferProviderV1) (front : list Range)
    (s c : Z) :
  toProvide_ b = front ++ [mkRange s c] -> 1 <= s < 65536 ->
  toProvide_ (returnIndex b (s - 1))
  = front ++ [mkRange (s - 1) (u16 (c + 1))].
Proof.
  intros Htp Hs. unfold returnIndex, with_free; cbn [toProvide_].
  rewrite u16_small by lia. rewrite Htp, rev_unit.
  unfold merge_index; cbn [start count].
  rewrite Z.eqb_refl. cbn [rev]. rewrite rev_involutive. reflexivity.
Qed.

Lemma returnIndex_first (b : BufferProviderV1) (i : Z) :
  toProvide_ b = [] -> 0 <= i < 65536 ->
  toProvide_ (returnIndex b i) = [mkRange i 1].
Proof.
  intros Htp Hi. unfold returnIndex, with_free; cbn [toProvide_].
  rewrite u16_small by lia. rewrite Htp. reflexivity.
Qed.

(** A run of indices that goes on where the last range ends. *)
Lemma returnAll_ascending (n : nat) :
  forall (b : BufferProviderV1) (front : list Range) (s c : Z),
    toProvide_ b = front ++ [mkRange s c] -> 0 <= s -> 0 <= c ->
    s + c + Z.of_nat n <= 65536 -> c + Z.of_nat n <= 65535 ->
    toProvide_ (returnAll b (map Z.of_nat (seq (Z.to_nat (s + c)) n)))
    = front ++ [mkRange s (c + Z.of_nat n)].
Proof.
  induction n as [|n IH]; intros b front s c Htp Hs Hc Hi Hn.
  - cbn [seq map]. unfold returnAll; cbn [fold_left].
    rewrite Htp. do 3 f_equal. lia.
  - cbn [seq map]. unfold returnAll in *; cbn [fold_left].
    rewrite Z2Nat.id by lia.
    pose proof (returnIndex_extends_back b front s c Htp Hs Hc ltac:(lia))
      as H1.
    rewrite u16_small in H1 by lia.
    replace (S (Z.to_nat (s + c))) with (Z.to_nat (s + (c + 1))) by lia.
    rewrite (IH _ front s (c + 1) H1) by lia.
    do 3 f_equal. lia.
Qed.

Lemma returnAll_descending (n : nat) :
  forall (b : BufferProviderV1) (front : list Range) (s c : Z),
    toProvide_ b = front ++ [mkRange (s + Z.of_nat n) c] -> 0 <= s -> 0 <= c ->
    s + Z.of_nat n < 65536 -> c + Z.of_nat n <= 65535 ->
    toProvide_ (returnAll b (map Z.of_nat (rev (seq (Z.to_nat s) n))))
    = front ++ [mkRange s (c + Z.of_nat n)].
Proof.
  induction n as [|n IH]; intros b front s c Htp Hs Hc Hi Hn.
  - cbn [seq rev map]. unfold returnAll; cbn [fold_left].
    rewrite Htp. do 3 f_equal; lia.
  - rewrite seq_S, rev_unit. cbn [map]. unfold returnAll in *; cbn [fold_left].
    replace (Z.of_nat (Z.to_nat s + n)) with (s + Z.of_nat (S n) - 1) by lia.
    pose proof (returnIndex_extends_front b front (s + Z.of_nat (S n)) c Htp
                  ltac:(lia)) as H1.
    rewrite u16_small in H1 by lia.
    replace (s + Z.of_nat (S n) - 1) with (s + Z.of_nat n) in H1 |- * by lia.
    rewrite (IH _ front s (c + 1) H1) by lia.
    do 3 f_equal. lia.
Qed.

(** X7. Buffers that come back in index order need no compaction: on an
    empty free list, returning the indices [s, s+1, ..., s+n] one by one,
    or the same indices from the highest down, leaves the single range
    [{start: s, count: n+1}] (indices below 65535). *)
Theorem in_order_returns_need_no_compaction
    (b : BufferProviderV1) (s n : nat) :
  toProvide_ b = [] -> Z.of_nat (s + S n) <= 65535 ->
  toProvide_ (returnAll b (map Z.of_nat (seq s (S n))))
  = [mkRange (Z.of_nat s) (Z.of_nat (S n))]
  /\ toProvide_ (returnAll b (map Z.of_nat (rev (seq s (S n)))))
     = [mkRange (Z.of_nat s) (Z.of_nat (S n))].
Proof.
  intros Htp Hi. split.
  - cbn [seq map]. unfold returnAll; cbn [fold_left].
    pose proof (returnIndex_first b (Z.of_nat s) Htp ltac:(lia)) as H1.
    pose proof (returnAll_ascending n (returnIndex b (Z.of_nat s)) []
                  (Z.of_nat s) 1 H1 ltac:(lia) ltac:(lia) ltac:(lia)
                  ltac:(lia)) as H2.
    unfold returnAll in H2.
    replace (Z.to_nat (Z.of_nat s + 1)) with (S s) in H2 by lia.
    rewrite H2. cbn [app]. do 2 f_equal. lia.
  - rewrite seq_S, rev_unit. cbn [map]. unfold returnAll; cbn [fold_left].
    pose proof (returnIndex_first b (Z.of_nat (s + n)) Htp ltac:(lia)) as H1.
    pose proof (returnAll_descending n (returnIndex b (Z.of_nat (s + n))) []
                  (Z.of_nat s) 1) as H2.
    unfold returnAll in H2. rewrite Nat2Z.id in H2.
    rewrite H2; [cbn [app]; do 2 f_equal; lia | | lia | lia | lia | lia].
    rewrite H1. cbn [app]. do 2 f_equal. lia.
Qed.

Lemma in_order_returns_need_no_compaction_witness :
  toProvide_ four_buffers = [] /\ Z.of_nat (1 + 3) <= 65535
  /\ toProvide_ (returnAll four_buffers [1; 2; 3]) = [mkRange 1 3]
  /\ toProvide_ (returnAll four_buffers [3; 2; 1]) = [mkRange 1 3].
Proof.
  assert (He : toProvide_ four_buffers = []) by reflexivity.
  assert (Hi : Z.of_nat (1 + 3) <= 65535) by (cbn; lia).
  split; [exact He|]. split; [exact Hi|].
  exact (in_order_returns_need_no_compaction four_buffers 1 2 He Hi).
Defined.

(** Returned in order, the 65536 indices wrap the 16-bit count of the
    range they build. *)
Lemma returnAll_wraps (n : nat) (b : BufferProviderV1) :
  toProvide_ b = [] -> Z.of_nat n = 65535 ->
  toProvide_ (compact (returnAll b (map Z.of_nat (seq 0 (S n)))))
  = [mkRange 0 0].
Proof.
  intros Htp Hn. destruct n as [|m]; [discriminate|].
  rewrite seq_S, map_app. unfold returnAll. rewrite fold_left_app.
  cbn [seq map fold_left].
  pose proof (returnIndex_first b (Z.of_nat 0) Htp ltac:(lia)) as H1.
  pose proof (returnAll_ascending m (returnIndex b (Z.of_nat 0)) []
                (Z.of_nat 0) 1 H1 ltac:(lia) ltac:(lia) ltac:(lia)
                ltac:(lia)) as H2.
  unfold returnAll in H2.
  replace (Z.to_nat (Z.of_nat 0 + 1)) with 1%nat in H2 by lia.
  cbn [app] in H2. replace (1 + Z.of_nat m) with 65535 in H2 by lia.
  replace (Z.of_nat 0) with 0 in H2 by lia.
  pose proof (returnIndex_extends_back _ [] 0 65535 H2 ltac:(lia) ltac:(lia)
                ltac:(lia)) as H3.
  replace (Z.of_nat (0 + S m)) with (0 + 65535) by lia.
  replace (Z.of_nat 0) with 0 by lia.
  change ([] ++ [mkRange 0 (u16 (65535 + 1))]) with [mkRange 0 0] in H3.
  assert (Hone : forall (b : BufferProviderV1) (r : Range),
            toProvide_ b = [r] -> compact b = b)
    by (intros b0 r Hb; unfold compact; rewrite Hb; reflexivity).
  rewrite (Hone _ _ H3). exact H3.
Qed.

(** With no index to return the free list stays empty, and the 65536
    indices of a pool of that size, returned in order, leave the one range
    [{start: 0, count: 0}]. *)
Lemma returned_indices_counterexample :
  toProvide_ (compact (returnAll (emptied 0 0) (map Z.of_nat (seq 0 0)))) = []
  /\ toProvide_ (compact (returnAll (emptied 65536 1)
                            (map Z.of_nat (seq 0 (S (Z.to_nat 65535))))))
     = [mkRange 0 0].
Proof.
  split; [reflexivity|].
  apply (returnAll_wraps (Z.to_nat 65535) (emptied 65536 1) eq_refl).
  apply Z2Nat.id. discriminate.
Qed.

(** *** What [compact] leaves *)

(** Of two disjoint ranges the one that sorts first ends before the
    other starts. *)
Lemma disjoint_sorted_apart (K : nat) (a b : Range) :
  Z.of_nat K <= 65535 -> good K a -> good K b ->
  (forall x, In x (covers a) -> ~ In x (covers b)) ->
  sortable_le a b -> start a + count a <= start b.
Proof.
  intros HK Ha Hb Hd Hle.
  pose proof (sortable_le_start K a b HK Ha Hb Hle) as Hs.
  destruct Ha as (? & ? & ?). destruct Hb as (? & ? & ?).
  destruct (Z_le_gt_dec (start a + count a) (start b)) as [|Hgt]; [assumption|].
  exfalso. apply (Hd (Z.to_nat (start b))); apply covers_In; lia.
Qed.

Lemma sorted_apart (K : nat) (l : list Range) :
  Z.of_nat K <= 65535 -> Forall (good K) l -> NoDup (flat_map covers l) ->
  StronglySorted sortable_le l ->
  StronglySorted (fun a b => start a + count a <= start b) l.
Proof.
  intros HK Hg Hnd Hs. induction Hs as [|a l Hs IH Ha]; [constructor|].
  inversion Hg as [|? ? Hga Hgl]; subst.
  cbn [flat_map] in Hnd. apply NoDup_app in Hnd as (_ & Hd & Hndl).
  constructor; [apply IH; assumption|].
  rewrite List.Forall_forall in Ha, Hgl |- *. intros b Hb.
  apply (disjoint_sorted_apart K a b HK Hga (Hgl b Hb)); [|apply Ha, Hb].
  intros x Hxa Hxb. apply (Hd x); [apply list_elem_of_In; exact Hxa|].
  apply list_elem_of_In, in_flat_map. exists b. split; assumption.
Qed.

(** The loop of [compact] on sorted, disjoint ranges: between any two
    ranges of [toProvide2_] at least one buffer is missing. *)
Lemma coalesce_apart (K : nat) (l : list Range) :
  Z.of_nat K <= 65535 ->
  forall (front : list Range) (bk : Range),
    good K bk -> Forall (good K) l ->
    StronglySorted (fun a b => start a + count a <= start b) (bk :: l) ->
    StronglySorted (fun a b => start a + count a < start b) front ->
    Forall (fun x => start x + count x < start bk) front ->
    StronglySorted (fun a b => start a + count a < start b)
      (fold_left coalesce_step l (front ++ [bk])).
Proof.
  intros HK. induction l as [|p l IH]; intros front bk Hbk Hg Hs Hf Hfb.
  - cbn [fold_left]. apply StronglySorted_app. split; [|split].
    + intros x1 x2 H1 H2. apply list_elem_of_singleton in H2. subst x2.
      rewrite Forall_forall in Hfb. apply Hfb, H1.
    + exact Hf.
    + repeat constructor.
  - inversion Hg as [|? ? Hgp Hgl]; subst.
    apply StronglySorted_inv in Hs as [Hs Hbl].
    inversion Hbl as [|? ? Hbp Hbl']; subst.
    pose proof Hs as Hs'. apply StronglySorted_inv in Hs' as [Hsl Hpl].
    destruct Hbk as (Hbs & Hbc & Hbe). destruct Hgp as (Hps & Hpc & Hpe).
    cbn [fold_left]. unfold coalesce_step at 2. rewrite rev_unit.
    unfold merge_range.
    destruct (start bk + count bk =? start p) eqn:E1.
    + apply Z.eqb_eq in E1. rewrite u16_small by lia.
      cbn [rev]. rewrite rev_involutive.
      apply IH; try assumption.
      * unfold good; cbn [start count]. lia.
      * constructor; [exact Hsl|].
        rewrite List.Forall_forall in Hpl |- *. intros x Hx.
        pose proof (Hpl x Hx). cbn [start count]. lia.
    + apply Z.eqb_neq in E1.
      replace (start p + count p =? start bk) with false
        by (symmetry; apply Z.eqb_neq; lia).
      rewrite <- app_assoc. cbn [app].
      change (front ++ [bk; p]) with (front ++ [bk] ++ [p]).
      rewrite app_assoc. apply IH; try assumption.
      * unfold good. lia.
      * apply StronglySorted_app. split; [|split].
        -- intros x1 x2 H1 H2. apply list_elem_of_singleton in H2. subst x2.
           rewrite Forall_forall in Hfb. apply Hfb, H1.
        -- exact Hf.
        -- repeat constructor.
      * apply Forall_app. split.
        -- eapply Forall_impl; [exact Hfb|]. cbn. intros x Hx. lia.
        -- apply Forall_singleton. lia.
Qed.

Lemma sorted_pairs {A : Type} (R : A -> A -> Prop) (l : list A) (a c : A) :
  StronglySorted R l -> In a l -> In c l -> a = c \/ R a c \/ R c a.
Proof.
  intros Hs. induction Hs as [|x l Hs IH Hx]; intros Ha Hc; [contradiction|].
  rewrite List.Forall_forall in Hx.
  destruct Ha as [Ha|Ha], Hc as [Hc|Hc]; subst.
  - left; reflexivity.
  - right; left. apply Hx, Hc.
  - right; right. apply Hx, Ha.
  - apply IH; assumption.
Qed.

Lemma merge_range_self (K : nat) (a : Range) :
  good K a -> merge_range a a = None.
Proof.
  intros (? & ? & ?). unfold merge_range.
  replace (start a + count a =? start a) with false
    by (symmetry; apply Z.eqb_neq; lia).
  reflexivity.
Qed.

Lemma merge_range_apart (a c : Range) :
  0 <= count a -> 0 <= count c -> start a + count a < start c ->
  merge_range a c = None /\ merge_range c a = None.
Proof.
  intros Ha Hc H. unfold merge_range.
  replace (start a + count a =? start c) with false
    by (symmetry; apply Z.eqb_neq; lia).
  replace (start c + count c =? start a) with false
    by (symmetry; apply Z.eqb_neq; lia).
  split; reflexivity.
Qed.

Lemma merge_range_sym (a c : Range) :
  merge_range a c = None -> merge_range c a = None.
Proof.
  unfold merge_range.
  destruct (start a + count a =? start c); [discriminate|].
  destruct (start c + count c =? start a); [discriminate|]. reflexivity.
Qed.

(** X8. After [compact] nothing is left to merge: for a free list of
    non-empty, pairwise disjoint ranges inside a pool of at most 65535
    buffers, [Range::merge] refuses every pair of ranges of the compacted
    list. *)
Theorem compact_leaves_nothing_to_merge
    (K : nat) (b : BufferProviderV1) (a c : Range) :
  Z.of_nat K <= 65535 -> Forall (good K) (toProvide_ b) ->
  NoDup (flat_map covers (toProvide_ b)) ->
  In a (toProvide_ (compact b)) -> In c (toProvide_ (compact b)) ->
  merge_range a c = None.
Proof.
  intros HK Hg Hnd.
  assert (Hgc : Forall (good K) (toProvide_ (compact b))).
  { apply (compact_keeps K b (flat_map covers (toProvide_ b)) HK).
    split; [exact Hg | reflexivity]. }
  revert Hgc. unfold compact.
  destruct (toProvide_ b) as [|r0 [|r1 [|r2 l]]] eqn:Htp.
  - rewrite Htp. intros _ [].
  - rewrite Htp. intros Hgc [Ha|[]] [Hc|[]]. subst.
    inversion Hg; subst. eapply merge_range_self; eassumption.
  - destruct (merge_range r0 r1) eqn:Hm.
    + unfold with_free; cbn [toProvide_]. intros Hgc [Ha|[]] [Hc|[]]. subst.
      inversion Hgc; subst. eapply merge_range_self; eassumption.
    + rewrite Htp. intros _ Ha Hc.
      inversion Hg as [|? ? Hg0 Hg']; subst.
      inversion Hg' as [|? ? Hg1 _]; subst.
      destruct Ha as [Ha|[Ha|[]]], Hc as [Hc|[Hc|[]]]; subst.
      * eapply merge_range_self; eassumption.
      * exact Hm.
      * apply merge_range_sym, Hm.
      * eapply merge_range_self; eassumption.
  - pose proof (merge_sort_Permutation sortable_le (r0 :: r1 :: r2 :: l))
      as Hperm.
    pose proof (StronglySorted_merge_sort sortable_le (r0 :: r1 :: r2 :: l))
      as Hsorted.
    fold (sort_ranges (r0 :: r1 :: r2 :: l)) in Hperm, Hsorted.
    destruct (sort_ranges (r0 :: r1 :: r2 :: l)) as [|s0 rest] eqn:Hsort.
    + apply Permutation_length in Hperm. cbn in Hperm. lia.
    + cbn [toProvide_]. intros Hgc Ha Hc.
      assert (Hg' : Forall (good K) (s0 :: rest))
        by (eapply Permutation_Forall; [symmetry; exact Hperm | exact Hg]).
      assert (Hnd' : NoDup (flat_map covers (s0 :: rest))).
      { pose proof (Permutation_flat_map covers Hperm) as HP.
        rewrite HP. exact Hnd. }
      pose proof (sorted_apart K _ HK Hg' Hnd' Hsorted) as Hap.
      inversion Hg' as [|? ? Hgs0 Hgrest]; subst.
      pose proof (coalesce_apart K rest HK [] s0 Hgs0 Hgrest Hap
                    ltac:(constructor) ltac:(constructor)) as Hfin.
      cbn [app] in Hfin.
      rewrite List.Forall_forall in Hgc.
      destruct (Hgc a Ha) as (? & ? & ?). destruct (Hgc c Hc) as (? & ? & ?).
      destruct (sorted_pairs _ _ a c Hfin Ha Hc) as [E|[Hac|Hca]].
      * subst c. eapply merge_range_self, Hgc, Ha.
      * apply (merge_range_apart a c); lia.
      * apply (merge_range_apart c a); lia.
Qed.

Lemma scattered_nodup : NoDup (flat_map covers (toProvide_ scattered)).
Proof.
  change (NoDup [4; 0; 2]%nat). apply NoDup_ListNoDup.
  repeat constructor; cbn; intuition discriminate.
Qed.

Lemma compact_leaves_nothing_to_merge_witness :
  Z.of_nat 6 <= 65535 /\ Forall (good 6) (toProvide_ scattered)
  /\ NoDup (flat_map covers (toProvide_ scattered))
  /\ In (mkRange 0 1) (toProvide_ (compact scattered))
  /\ In (mkRange 2 1) (toProvide_ (compact scattered))
  /\ merge_range (mkRange 0 1) (mkRange 2 1) = None.
Proof.
  assert (HK : Z.of_nat 6 <= 65535) by (cbn; lia).
  assert (Ha : In (mkRange 0 1) (toProvide_ (compact scattered)))
    by (vm_compute; auto).
  assert (Hc : In (mkRange 2 1) (toProvide_ (compact scattered)))
    by (vm_compute; auto).
  split; [exact HK|]. split; [exact (proj1 scattered_tiles)|].
  split; [exact scattered_nodup|]. split; [exact Ha|]. split; [exact Hc|].
  exact (compact_leaves_nothing_to_merge 6 scattered _ _ HK
           (proj1 scattered_tiles) scattered_nodup Ha Hc).
Defined.

End ClassicPoolFacts.

(** ** The shared-ring buffer provider *)

Module SharedPoolFacts.
Import SharedPool.

Lemma ring_size_loop_done (fuel : nat) (ringSize count : Z) :
  count <= ringSize -> ring_size_loop fuel ringSize count = Done ringSize.
Proof.
  intros H. destruct fuel; cbn [ring_size_loop];
    (replace (ringSize <? count) with false
       by (symmetry; apply Z.ltb_ge; exact H)); reflexivity.
Qed.

(** The doubling loop stops at a power of two that is at least [count]. *)
Lemma ring_size_loop_pow2 (n : nat) : forall (e : Z) (fuel : nat) (c : Z),
  0 <= e -> e + Z.of_nat n = 16 -> (n < fuel)%nat -> c <= 65536 ->
  exists e', 0 <= e' /\ ring_size_loop fuel (2 ^ e) c = Done (2 ^ e')
             /\ c <= 2 ^ e'.
Proof.
  induction n as [|n IH]; intros e fuel c He Hn Hf Hc.
  - assert (e = 16) by lia. subst e. exists 16.
    change (2 ^ 16) with 65536.
    split; [lia|]. split; [apply ring_size_loop_done; exact Hc | exact Hc].
  - destruct (Z_lt_ge_dec (2 ^ e) c) as [Hlt|Hge].
    + destruct fuel as [|fuel]; [lia|]. cbn [ring_size_loop].
      replace (2 ^ e <? c) with true by (symmetry; apply Z.ltb_lt; exact Hlt).
      assert (Hpow : 2 ^ e * 2 = 2 ^ (e + 1))
        by (rewrite Z.pow_add_r by lia; reflexivity).
      assert (Hle : 2 ^ (e + 1) <= 2 ^ 16)
        by (apply Z.pow_le_mono_r; lia).
      change (2 ^ 16) with 65536 in Hle.
      assert (0 < 2 ^ (e + 1)) by (apply Z.pow_pos_nonneg; lia).
      unfold u32. rewrite Hpow, Z.mod_small by lia.
      apply IH; lia.
    + exists e. split; [exact He|].
      split; [apply ring_size_loop_done; lia | lia].
Qed.

Lemma populate_from_length (n : nat) : forall i base size,
  length (populate_from n i base size) = n.
Proof.
  induction n as [|n IH]; intros i base size; cbn [populate_from length];
    [reflexivity | rewrite IH; reflexivity].
Qed.

Lemma u16_range (x : Z) : 0 <= u16 x < 65536.
Proof. unfold u16. apply Z.mod_pos_bound. lia. Qed.

Lemma u16_add_l (x y : Z) : u16 (u16 x + y) = u16 (x + y).
Proof. unfold u16. apply Zplus_mod_idemp_l. Qed.

(** The constructor, for a pool below the size it rejects. *)
Lemma create_batched (rx_cfg : IoUringRxConfig) (m : Z) :
  0 <= provided_buffer_count rx_cfg < 65535 ->
  exists b, create rx_cfg (Mapped m) = Done b
            /\ batched (provided_buffer_count rx_cfg) b 0 0.
Proof.
  intros Hc. unfold create.
  set (c := provided_buffer_count rx_cfg) in *.
  assert (Hu : u64 c = c) by (unfold u64; apply Z.mod_small; lia).
  rewrite Hu.
  destruct (ring_size_loop_pow2 16 0 33 c) as (e & He & Hloop & Hle);
    try lia.
  change (2 ^ 0) with 1 in Hloop. rewrite Hloop.
  replace (65535 <=? c) with false by (symmetry; apply Z.leb_gt; lia).
  eexists. split; [reflexivity|].
  unfold batched; cbn [count_ cachedIndices indices tailCached_ released
                         ringMask_ bufs].
  split; [reflexivity|]. split; [lia|]. split; [reflexivity|].
  split; [reflexivity|]. split; [constructor|].
  assert (H0 : nth_release c 0 = u16 c)
    by (unfold nth_release; f_equal; lia).
  split; [symmetry; exact H0|].
  split; [cbn [seq map]; rewrite H0; reflexivity|].
  exists e. split; [exact He|]. split; [reflexivity|].
  unfold populate_all. rewrite length_app, populate_from_length,
    length_replicate. lia.
Qed.

(** Writing a batch of staged indices into the ring. *)
Lemma flush_ok (c base size mask e : Z) (l : list Z) :
  0 <= e -> mask = 2 ^ e - 1 -> Forall (fun i => 0 <= i < c) l ->
  forall (ring : list io_uring_buf) (tail : Z),
    2 ^ e <= Z.of_nat (length ring) -> 0 <= tail < 65536 ->
    exists ring',
      fold_left (flush_step c base size mask) l (Some (ring, tail))
      = Some (ring', u16 (tail + Z.of_nat (length l)))
      /\ length ring' = length ring.
Proof.
  intros He Hmask Hl. induction Hl as [|i l Hi _ IH]; intros ring tail Hr Ht.
  - exists ring. cbn [fold_left length]. split; [|reflexivity].
    rewrite Z.add_0_r. unfold u16. rewrite Z.mod_small by lia. reflexivity.
  - cbn [fold_left]. unfold flush_step at 2. cbn [mbind option_bind].
    unfold populate, getData.
    replace ((0 <=? i) && (i <? c)) with true
      by (symmetry; apply andb_true_iff; split;
          [apply Z.leb_le | apply Z.ltb_lt]; lia).
    cbn [mbind option_bind].
    assert (Hpos : 0 <= Z.land tail mask < 2 ^ e).
    { subst mask. replace (2 ^ e - 1) with (Z.ones e)
        by (rewrite Z.ones_equiv; lia).
      rewrite Z.land_ones by lia. apply Z.mod_pos_bound.
      apply Z.pow_pos_nonneg; lia. }
    destruct (ring !! Z.to_nat (Z.land tail mask)) as [old|] eqn:Hlook.
    + cbn [mbind option_bind].
      destruct (IH (<[Z.to_nat (Z.land tail mask) :=
                       mkBuf (base + i * size) (u32 size) i]> ring)
                  (u16 (tail + 1))) as (ring' & Hfold & Hlen).
      * rewrite length_insert. exact Hr.
      * apply u16_range.
      * exists ring'. rewrite Hfold. split.
        -- rewrite u16_add_l. do 3 f_equal. cbn [length]. lia.
        -- rewrite Hlen, length_insert. reflexivity.
    + apply lookup_ge_None in Hlook. lia.
Qed.

(** One [returnIndex] of a valid index: stage it, or stage it and flush
    the 32 staged indices. *)
Lemma returnIndex_batched (c : Z) (b : BufferProviderV2) (q r : nat) (i : Z) :
  c < 65535 -> 0 <= i < c -> batched c b q r ->
  exists b', returnIndex b i = Done b'
             /\ if (r =? 31)%nat then batched c b' (S q) 0
                else batched c b' q (S r).
Proof.
  intros Hc Hi (Hcount & Hr & Hcached & Hlen & Hvalid & Htail & Hrel & e
                & He & Hmask & Hring).
  unfold returnIndex. rewrite Hcached.
  replace ((0 <=? Z.of_nat r) && (Z.of_nat r <? 32)) with true
    by (symmetry; apply andb_true_iff; split;
        [apply Z.leb_le | apply Z.ltb_lt]; lia).
  assert (Hu : u16 i = i) by (unfold u16; apply Z.mod_small; lia).
  rewrite Hu, Nat2Z.id, length_insert, Hlen.
  assert (Hu32 : u32 (Z.of_nat r + 1) = Z.of_nat r + 1)
    by (unfold u32; apply Z.mod_small; lia).
  rewrite Hu32.
  assert (Htake : take (S r) (<[r := i]> (indices b))
                  = take r (indices b) ++ [i]).
  { rewrite (take_S_r _ _ i) by (apply list_lookup_insert_eq; lia).
    rewrite take_insert_ge by lia. reflexivity. }
  assert (Hvalid' : Forall (fun i => 0 <= i < c)
                      (take (S r) (<[r := i]> (indices b)))).
  { rewrite Htake. apply Forall_app. split; [exact Hvalid|].
    apply Forall_singleton. exact Hi. }
  destruct (r =? 31)%nat eqn:Hr31.
  - apply Nat.eqb_eq in Hr31. subst r.
    replace (Z.of_nat 31 + 1 <? Z.of_nat 32) with false
      by (symmetry; apply Z.ltb_ge; lia).
    rewrite (take_ge _ 32) in Hvalid' by (rewrite length_insert; lia).
    destruct (flush_ok (count_ b) (buffer_base b) (sizePerBuffer_ b)
                (ringMask_ b) e _ He Hmask
                ltac:(rewrite Hcount; exact Hvalid') (bufs b)
                (tailCached_ b) Hring
                ltac:(rewrite Htail; apply u16_range))
      as (ring' & Hfold & Hlen').
    rewrite Hfold. eexists. split; [reflexivity|].
    unfold batched; cbn [count_ cachedIndices indices tailCached_ released
                           ringMask_ bufs].
    rewrite length_insert, Hlen.
    assert (Hnext : u16 (tailCached_ b + Z.of_nat 32) = nth_release c (S q)).
    { rewrite Htail. unfold nth_release. rewrite u16_add_l. f_equal. lia. }
    rewrite Hnext.
    split; [exact Hcount|]. split; [lia|]. split; [reflexivity|].
    split; [reflexivity|]. split; [constructor|]. split; [reflexivity|].
    split.
    + rewrite Hrel, (seq_S (S q)), map_app. reflexivity.
    + exists e. rewrite Hlen'. auto.
  - apply Nat.eqb_neq in Hr31.
    replace (Z.of_nat r + 1 <? Z.of_nat 32) with true
      by (symmetry; apply Z.ltb_lt; lia).
    eexists. split; [reflexivity|].
    unfold batched; cbn [count_ cachedIndices indices tailCached_ released
                           ringMask_ bufs].
    rewrite length_insert.
    split; [exact Hcount|]. split; [lia|]. split; [lia|].
    split; [exact Hlen|]. split; [exact Hvalid'|]. split; [exact Htail|].
    split; [exact Hrel|]. exists e. auto.
Qed.

Lemma returnAll_batched (c : Z) (idxs : list Z) :
  c < 65535 -> Forall (fun i => 0 <= i < c) idxs ->
  forall (b : BufferProviderV2) (q r : nat),
    batched c b q r ->
    exists b' q' r',
      returnAll b idxs = Done b' /\ batched c b' q' r'
      /\ (32 * q' + r' = 32 * q + r + length idxs)%nat.
Proof.
  intros Hc Hall. induction Hall as [|i idxs Hi _ IH]; intros b q r Hb.
  - exists b, q, r. cbn [returnAll length]. split; [reflexivity|].
    split; [exact Hb | lia].
  - destruct (returnIndex_batched c b q r i Hc Hi Hb) as (b1 & Hret & Hb1).
    cbn [returnAll]. rewrite Hret.
    assert (Hr : (r < 32)%nat) by (destruct Hb as (_ & Hr & _); exact Hr).
    destruct (r =? 31)%nat eqn:Hr31.
    + apply Nat.eqb_eq in Hr31.
      destruct (IH b1 (S q) 0%nat Hb1) as (b' & q' & r' & H1 & H2 & H3).
      exists b', q', r'. cbn [length].
      split; [exact H1|]. split; [exact H2 | lia].
    + apply Nat.eqb_neq in Hr31.
      destruct (IH b1 q (S r) Hb1) as (b' & q' & r' & H1 & H2 & H3).
      exists b', q', r'. cbn [length].
      split; [exact H1|]. split; [exact H2 | lia].
Qed.

(** What has been stored to the ring's tail after any run of
    [returnIndex] calls. *)
Lemma released_after (rx_cfg : IoUringRxConfig) (m : Z) (idxs : list Z) :
  0 <= provided_buffer_count rx_cfg < 65535 ->
  Forall (fun i => 0 <= i < provided_buffer_count rx_cfg) idxs ->
  exists b0 b,
    create rx_cfg (Mapped m) = Done b0 /\ returnAll b0 idxs = Done b
    /\ released b
       = map (nth_release (provided_buffer_count rx_cfg))
           (seq 0 (S (length idxs / 32))).
Proof.
  intros Hc Hall.
  destruct (create_batched rx_cfg m Hc) as (b0 & Hcreate & Hb0).
  destruct (returnAll_batched _ idxs (proj2 Hc) Hall b0 0%nat 0%nat Hb0)
    as (b & q & r & Hret & Hb & Hn).
  exists b0, b. split; [exact Hcreate|]. split; [exact Hret|].
  destruct Hb as (_ & Hr & _ & _ & _ & _ & Hrel & _).
  rewrite Hrel. do 3 f_equal.
  apply (Nat.div_unique (length idxs) 32 q r); lia.
Qed.

(** C7 (as amended). In the shared-ring buffer provider, for a pool of
    [c < 65535] buffers and any sequence of [returnIndex] calls with
    indices of the pool after construction, the values stored to the
    kernel ring's tail with the release-store are, in order,
    [(c + 32 * j) mod 65536] for [j = 0, 1, ..., n / 32], where [n] is
    the number of calls: every store advances the 16-bit tail by one batch
    of 32, wrapping around at 65536 (so the numeric value does drop at a
    wrap). *)
Theorem released_tail_advances_in_batches
    (rx_cfg : IoUringRxConfig) (m : Z) (idxs : list Z) :
  0 <= provided_buffer_count rx_cfg < 65535 ->
  Forall (fun i => 0 <= i < provided_buffer_count rx_cfg) idxs ->
  exists b0 b,
    create rx_cfg (Mapped m) = Done b0 /\ returnAll b0 idxs = Done b
    /\ released b
       = map (fun j => (provided_buffer_count rx_cfg + 32 * Z.of_nat j)
                       mod 65536)
           (seq 0 (S (length idxs / 32))).
Proof. exact (released_after rx_cfg m idxs). Qed.

Lemma first_indices_valid (n : nat) (c : Z) :
  Z.of_nat n <= c -> Forall (fun i => 0 <= i < c) (first_indices n).
Proof.
  intros H. unfold first_indices. apply Forall_map, List.Forall_forall.
  intros i Hi. apply in_seq in Hi. cbn. lia.
Qed.

Lemma released_tail_advances_in_batches_witness :
  0 <= provided_buffer_count (cfg_with_count 40) < 65535
  /\ Forall (fun i => 0 <= i < provided_buffer_count (cfg_with_count 40))
       (first_indices 33)
  /\ exists b0 b,
       create (cfg_with_count 40) (Mapped 1048576) = Done b0
       /\ returnAll b0 (first_indices 33) = Done b
       /\ released b = [40; 72].
Proof.
  assert (Hc : 0 <= provided_buffer_count (cfg_with_count 40) < 65535)
    by (cbn; lia).
  assert (Hv : Forall (fun i => 0 <= i
                                < provided_buffer_count (cfg_with_count 40))
                 (first_indices 33))
    by (apply first_indices_valid; cbn; lia).
  split; [exact Hc|]. split; [exact Hv|].
  destruct (released_tail_advances_in_batches (cfg_with_count 40) 1048576
              (first_indices 33) Hc Hv) as (b0 & b & H1 & H2 & H3).
  exists b0, b. split; [exact H1|]. split; [exact H2|].
  rewrite H3. reflexivity.
Defined.

(** C7, as stated, fails: in a pool of 65504 buffers the constructor
    stores the tail 65504 and the flush after the first 32 returned
    indices stores 0, a value below the one stored before it. *)
Lemma released_tail_counterexample :
  exists b0 b,
    create (cfg_with_count 65504) (Mapped 1048576) = Done b0
    /\ returnAll b0 (first_indices 32) = Done b
    /\ released b = [65504; 0]
    /\ ~ never_decreases (released b).
Proof.
  destruct (released_after (cfg_with_count 65504) 1048576 (first_indices 32))
    as (b0 & b & H1 & H2 & H3).
  - cbn; lia.
  - apply first_indices_valid; cbn; lia.
  - exists b0, b. split; [exact H1|]. split; [exact H2|].
    assert (Hrel : released b = [65504; 0]) by (rewrite H3; reflexivity).
    split; [exact Hrel|].
    intros Hmono. rewrite Hrel in Hmono.
    specialize (Hmono 0%nat 1%nat 65504 0 ltac:(lia) eq_refl eq_refl). lia.
Qed.

(** *** The constructor *)

(** The doubling loop stops at the first power of two that is at least
    [count]. *)
Lemma ring_size_loop_least (N : Z) (n : nat) :
  forall (e : Z) (fuel : nat) (c : Z),
    0 <= e -> e + Z.of_nat n = N -> N <= 31 -> (n < fuel)%nat -> c <= 2 ^ N ->
    exists e', e <= e' <= N /\ ring_size_loop fuel (2 ^ e) c = Done (2 ^ e')
               /\ c <= 2 ^ e' /\ (e' = e \/ 2 ^ (e' - 1) < c).
Proof.
  induction n as [|n IH]; intros e fuel c He Hn HN Hf Hc.
  - assert (e = N) by lia. subst e. exists N.
    split; [lia|]. split; [apply ring_size_loop_done; exact Hc|].
    split; [exact Hc | left; reflexivity].
  - destruct (Z_lt_ge_dec (2 ^ e) c) as [Hlt|Hge].
    + destruct fuel as [|fuel]; [lia|]. cbn [ring_size_loop].
      replace (2 ^ e <? c) with true by (symmetry; apply Z.ltb_lt; exact Hlt).
      assert (Hpow : 2 ^ e * 2 = 2 ^ (e + 1))
        by (rewrite Z.pow_add_r by lia; reflexivity).
      assert (Hle : 2 ^ (e + 1) <= 2 ^ 31)
        by (apply Z.pow_le_mono_r; lia).
      change (2 ^ 31) with 2147483648 in Hle.
      assert (0 < 2 ^ (e + 1)) by (apply Z.pow_pos_nonneg; lia).
      unfold u32. rewrite Hpow, Z.mod_small by lia.
      destruct (IH (e + 1) fuel c) as (e' & He' & Hloop & Hce & Hmin);
        try lia.
      exists e'. split; [lia|]. split; [exact Hloop|]. split; [exact Hce|].
      right. destruct Hmin as [->|Hmin]; [|exact Hmin].
      replace (e + 1 - 1) with e by lia. exact Hlt.
    + exists e. split; [lia|].
      split; [apply ring_size_loop_done; lia|]. split; [lia | left; reflexivity].
Qed.

(** [x & ~(2^k - 1)] *)
Lemma align_down (k x : Z) :
  0 <= k -> Z.land x (Z.lnot (Z.ones k)) = 2 ^ k * (x / 2 ^ k).
Proof.
  intros Hk. rewrite <- Z.ldiff_land, Z.ldiff_ones_r by exact Hk.
  rewrite Z.shiftr_div_pow2, Z.shiftl_mul_pow2 by exact Hk. lia.
Qed.

Lemma ring_mem_size (ringSize : Z) :
  0 <= ringSize ->
  ringSize * 16
  <= Z.land (ringSize * 16 + kBufferAlignMask) (Z.lnot kBufferAlignMask).
Proof.
  intros H. change kBufferAlignMask with (Z.ones 5).
  rewrite align_down by lia. change (Z.ones 5) with 31. change (2 ^ 5) with 32.
  Z.div_mod_to_equations. lia.
Qed.

Lemma huge_page_round_up (x : Z) :
  x <= Z.land (x + kHugePageMask) (Z.lnot kHugePageMask).
Proof.
  change kHugePageMask with (Z.ones 21).
  rewrite align_down by lia. change (Z.ones 21) with 2097151.
  change (2 ^ 21) with 2097152. Z.div_mod_to_equations. lia.
Qed.

Lemma populate_from_lookup (n : nat) : forall (i base size : Z) (j : nat),
  (j < n)%nat ->
  populate_from n i base size !! j
  = Some (mkBuf (base + (i + Z.of_nat j) * size) (u32 size) (i + Z.of_nat j)).
Proof.
  induction n as [|n IH]; intros i base size j Hj; [lia|].
  cbn [populate_from]. destruct j as [|j].
  - cbn. rewrite Z.add_0_r. reflexivity.
  - cbn [lookup list_lookup]. change ((populate_from n (i + 1) base size) !! j
      = Some (mkBuf (base + (i + Z.of_nat (S j)) * size) (u32 size)
                (i + Z.of_nat (S j)))).
    rewrite IH by lia. do 2 f_equal; [f_equal|]; lia.
Qed.

Lemma addAlignment_fits (n : Z) :
  n <= addAlignment n < n + 32 /\ addAlignment n mod 32 = 0.
Proof.
  unfold addAlignment. split.
  - Z.div_mod_to_equations. lia.
  - rewrite Z.mul_comm. apply Z.mod_mul. lia.
Qed.

(** The constructor on a pool below the size it rejects, with what the
    sizing loop made of [ringSize_]. *)
Lemma create_sized (rx_cfg : IoUringRxConfig) (m : Z) :
  0 <= provided_buffer_count rx_cfg < 65535 ->
  exists e,
    0 <= e <= 16 /\ provided_buffer_count rx_cfg <= 2 ^ e
    /\ (e = 0 \/ 2 ^ (e - 1) < provided_buffer_count rx_cfg)
    /\ create rx_cfg (Mapped m)
       = let count := provided_buffer_count rx_cfg in
         let size := addAlignment (recv_size rx_cfg) in
         let ringMemSize :=
           Z.land (2 ^ e * 16 + kBufferAlignMask) (Z.lnot kBufferAlignMask) in
         let mmapSize := count * size + ringMemSize in
         Done (mkProviderV2 count size
                 (if huge_pages rx_cfg
                  then Z.land (mmapSize + kHugePageMask)
                         (Z.lnot kHugePageMask)
                  else mmapSize)
                 (m + ringMemSize) (u16 count) ringMemSize (2 ^ e)
                 (2 ^ e - 1) 0 (replicate 32 0)
                 (populate_all count (m + ringMemSize) size (2 ^ e))
                 (u16 count) [u16 count]).
Proof.
  intros Hc. unfold create.
  set (c := provided_buffer_count rx_cfg) in *.
  assert (Hu : u64 c = c) by (unfold u64; apply Z.mod_small; lia).
  rewrite Hu.
  destruct (ring_size_loop_least 16 16 0 33 c) as (e & He & Hloop & Hle & Hmin);
    try lia.
  change (2 ^ 0) with 1 in Hloop. rewrite Hloop.
  replace (65535 <=? c) with false by (symmetry; apply Z.leb_gt; lia).
  exists e. split; [lia|]. split; [exact Hle|]. split; [|reflexivity].
  destruct Hmin as [->|Hmin]; [left; reflexivity | right; exact Hmin].
Qed.

(** X9. For a pool of fewer than 65535 buffers the constructor returns
    with [ringSize_] the least power of two that is at least the buffer
    count (1 for an empty pool), [ringMask_ = ringSize_ - 1], and a ring
    of exactly [ringSize_] entries. *)
Theorem ring_is_sized_to_the_next_power_of_two
    (rx_cfg : IoUringRxConfig) (m : Z) :
  0 <= provided_buffer_count rx_cfg < 65535 ->
  exists b e,
    create rx_cfg (Mapped m) = Done b /\ 0 <= e <= 16
    /\ ringSize_ b = 2 ^ e /\ ringMask_ b = 2 ^ e - 1
    /\ Z.of_nat (length (bufs b)) = 2 ^ e
    /\ provided_buffer_count rx_cfg <= 2 ^ e
    /\ (e = 0 \/ 2 ^ (e - 1) < provided_buffer_count rx_cfg).
Proof.
  intros Hc. destruct (create_sized rx_cfg m Hc) as (e & He & Hle & Hmin & Hcr).
  cbv zeta in Hcr. eexists; exists e. split; [exact Hcr|].
  cbn [ringSize_ ringMask_ bufs]. split; [exact He|].
  split; [reflexivity|]. split; [reflexivity|].
  split; [|split; assumption].
  unfold populate_all. rewrite length_app, populate_from_length,
    length_replicate. lia.
Qed.

Lemma ring_is_sized_to_the_next_power_of_two_witness :
  0 <= provided_buffer_count (cfg_with_count 40) < 65535
  /\ exists b,
       create (cfg_with_count 40) (Mapped 1048576) = Done b
       /\ ringSize_ b = 64 /\ ringMask_ b = 63.
Proof.
  assert (Hc : 0 <= provided_buffer_count (cfg_with_count 40) < 65535)
    by (cbn; lia).
  split; [exact Hc|].
  destruct (ring_is_sized_to_the_next_power_of_two (cfg_with_count 40)
              1048576 Hc) as (b & e & H1 & _).
  exists b. split; [exact H1|].
  vm_compute in H1. inversion H1. split; reflexivity.
Defined.

(** X10. The layout the constructor leaves, for fewer than 65535 buffers
    and a [recv_size] that is an [int] not below 0: ring entry [i]
    describes buffer [i] (its address [buffer_base + i * sizePerBuffer_],
    its length [sizePerBuffer_], its id [i]) for every [i] below the
    count; a slot holds at least [recv_size] bytes; the payload slots
    start behind the [ringSize_] ring entries of 16 bytes and every slot
    ends inside the mapping; the tail published is the buffer count. *)
Theorem ring_starts_with_every_buffer_in_its_slot
    (rx_cfg : IoUringRxConfig) (m i : Z) :
  0 <= provided_buffer_count rx_cfg < 65535 ->
  0 <= recv_size rx_cfg < 2147483648 ->
  0 <= i < provided_buffer_count rx_cfg ->
  exists b,
    create rx_cfg (Mapped m) = Done b
    /\ bufs b !! Z.to_nat i
       = Some (mkBuf (buffer_base b + i * sizePerBuffer_ b)
                 (sizePerBuffer_ b) i)
    /\ recv_size rx_cfg <= sizePerBuffer_ b
    /\ m + 16 * ringSize_ b <= buffer_base b
    /\ buffer_base b + (i + 1) * sizePerBuffer_ b <= m + bufferMmapSize_ b
    /\ ring_tail b = provided_buffer_count rx_cfg.
Proof.
  intros Hc Hr Hi.
  destruct (create_sized rx_cfg m Hc) as (e & He & Hle & Hmin & Hcr).
  cbv zeta in Hcr. eexists. split; [exact Hcr|].
  cbn [bufs buffer_base sizePerBuffer_ ringSize_ bufferMmapSize_ ring_tail].
  destruct (addAlignment_fits (recv_size rx_cfg)) as [Ha _].
  set (size := addAlignment (recv_size rx_cfg)) in *.
  set (c := provided_buffer_count rx_cfg) in *.
  assert (Hp : 0 < 2 ^ e) by (apply Z.pow_pos_nonneg; lia).
  pose proof (ring_mem_size (2 ^ e) ltac:(lia)) as Hring.
  set (rm := Z.land (2 ^ e * 16 + kBufferAlignMask) (Z.lnot kBufferAlignMask))
    in *.
  split.
  - unfold populate_all. rewrite lookup_app_l
      by (rewrite populate_from_length; lia).
    rewrite populate_from_lookup by lia.
    rewrite Z2Nat.id, Z.add_0_l by lia.
    unfold u32. rewrite Z.mod_small by lia. reflexivity.
  - split; [lia|]. split; [lia|]. split.
    + assert ((i + 1) * size <= c * size) by nia.
      destruct (huge_pages rx_cfg);
        [pose proof (huge_page_round_up (c * size + rm)) | ]; lia.
    + unfold u16. apply Z.mod_small. lia.
Qed.

Lemma ring_starts_with_every_buffer_in_its_slot_witness :
  0 <= provided_buffer_count (cfg_with_count 40) < 65535
  /\ 0 <= recv_size (cfg_with_count 40) < 2147483648
  /\ 0 <= 39 < provided_buffer_count (cfg_with_count 40)
  /\ exists b,
       create (cfg_with_count 40) (Mapped 1048576) = Done b
       /\ bufs b !! 39%nat
          = Some (mkBuf (buffer_base b + 39 * sizePerBuffer_ b)
                    (sizePerBuffer_ b) 39).
Proof.
  assert (Hc : 0 <= provided_buffer_count (cfg_with_count 40) < 65535)
    by (cbn; lia).
  assert (Hr : 0 <= recv_size (cfg_with_count 40) < 2147483648)
    by (cbn; lia).
  assert (Hi : 0 <= 39 < provided_buffer_count (cfg_with_count 40))
    by (cbn; lia).
  split; [exact Hc|]. split; [exact Hr|]. split; [exact Hi|].
  destruct (ring_starts_with_every_buffer_in_its_slot (cfg_with_count 40)
              1048576 39 Hc Hr Hi) as (b & H1 & H2 & _).
  exists b. split; [exact H1 | exact H2].
Defined.



(** Once [ringSize_] has wrapped to 0 doubling keeps it there. *)
Lemma ring_size_loop_zero (fuel : nat) (c : Z) :
  0 < c -> ring_size_loop fuel 0 c = OutOfFuel.
Proof.
  intros Hc. induction fuel as [|fuel IH]; cbn [ring_size_loop];
    (replace (0 <? c) with true by (symmetry; apply Z.ltb_lt; exact Hc));
    [reflexivity | exact IH].
Qed.

Lemma ring_size_loop_wraps (n : nat) : forall (e : Z) (fuel : nat) (c : Z),
  0 <= e -> e + Z.of_nat n = 31 -> 2147483648 < c ->
  ring_size_loop fuel (2 ^ e) c = OutOfFuel.
Proof.
  induction n as [|n IH]; intros e fuel c He Hn Hc.
  - assert (e = 31) by lia. subst e. change (2 ^ 31) with 2147483648.
    destruct fuel as [|fuel]; cbn [ring_size_loop];
      (replace (2147483648 <? c) with true by (symmetry; apply Z.ltb_lt; lia));
      [reflexivity|].
    change (u32 (2147483648 * 2)) with 0. apply ring_size_loop_zero. lia.
  - assert (Hle : 2 ^ (e + 1) <= 2 ^ 31) by (apply Z.pow_le_mono_r; lia).
    change (2 ^ 31) with 2147483648 in Hle.
    assert (Hpow : 2 ^ e * 2 = 2 ^ (e + 1))
      by (rewrite Z.pow_add_r by lia; reflexivity).
    assert (0 < 2 ^ e) by (apply Z.pow_pos_nonneg; lia).
    destruct fuel as [|fuel]; cbn [ring_size_loop];
      (replace (2 ^ e <? c) with true by (symmetry; apply Z.ltb_lt; lia));
      [reflexivity|].
    unfold u32. rewrite Hpow, Z.mod_small by lia. apply IH; lia.
Qed.

(** X12. With a buffer count above [2^31] as a [size_t] (any negative
    [provided_buffer_count] is one) the sizing loop of the constructor
    never ends: the 32-bit [ringSize_] doubles up to [2^31], wraps to 0 and
    stays below the count, whatever number of passes is allowed; the
    constructor does not return. *)
Theorem sizing_loop_never_ends_above_two_to_the_31
    (rx_cfg : IoUringRxConfig) (mmap_addr : mapped) :
  2147483648 < u64 (provided_buffer_count rx_cfg) ->
  (forall fuel : nat,
     ring_size_loop fuel 1 (u64 (provided_buffer_count rx_cfg)) = OutOfFuel)
  /\ create rx_cfg mmap_addr = OutOfFuel.
Proof.
  intros Hc.
  assert (Hall : forall fuel : nat,
            ring_size_loop fuel 1 (u64 (provided_buffer_count rx_cfg))
            = OutOfFuel).
  { intros fuel. change 1 with (2 ^ 0).
    apply (ring_size_loop_wraps 31); lia. }
  split; [exact Hall|]. unfold create. rewrite Hall. reflexivity.
Qed.

Lemma sizing_loop_never_ends_above_two_to_the_31_witness :
  2147483648 < u64 (provided_buffer_count (cfg_with_count (-1)))
  /\ create (cfg_with_count (-1)) (Mapped 1048576) = OutOfFuel.
Proof.
  assert (Hc : 2147483648 < u64 (provided_buffer_count (cfg_with_count (-1))))
    by (vm_compute; reflexivity).
  split; [exact Hc|].
  exact (proj2 (sizing_loop_never_ends_above_two_to_the_31
                  (cfg_with_count (-1)) (Mapped 1048576) Hc)).
Defined.

(** *** What a flush writes *)

(** Ring positions: the 16-bit wrap of the tail does not show in a
    position, the ring size dividing 65536. *)
Lemma slot_shift (e x y : Z) :
  0 <= e <= 16 -> (u16 x + y) mod 2 ^ e = (x + y) mod 2 ^ e.
Proof.
  intros He. unfold u16.
  assert (Hd : (2 ^ e | 65536)).
  { exists (2 ^ (16 - e)). rewrite <- Z.pow_add_r by lia.
    replace (16 - e + e) with 16 by lia. reflexivity. }
  rewrite (Z.add_mod (x mod 65536)), Z.mod_mod_divide by
    (try exact Hd; apply Z.pow_nonzero; lia).
  rewrite <- Z.add_mod by (apply Z.pow_nonzero; lia). reflexivity.
Qed.

Lemma slots_differ (P t j : Z) :
  0 < j < P -> (t + j) mod P <> t mod P.
Proof.
  intros Hj Heq.
  assert (Hz : ((t + j) - t) mod P = 0).
  { rewrite Zminus_mod, Heq, Z.sub_diag. apply Z.mod_0_l. lia. }
  replace (t + j - t) with j in Hz by lia.
  rewrite Z.mod_small in Hz by lia. lia.
Qed.

(** Writing at most [2^e] staged indices into a ring of [2^e] entries:
    index [j] of the batch ends up in the entry [j] places behind the
    tail, and the other entries are as they were. *)
Lemma flush_entries (c base size e : Z) (l : list Z) :
  0 <= e <= 16 -> Forall (fun i => 0 <= i < c) l ->
  forall (ring : list io_uring_buf) (tail : Z),
    2 ^ e <= Z.of_nat (length ring) -> 0 <= tail < 65536 ->
    Z.of_nat (length l) <= 2 ^ e ->
    exists ring',
      fold_left (flush_step c base size (2 ^ e - 1)) l (Some (ring, tail))
      = Some (ring', u16 (tail + Z.of_nat (length l)))
      /\ length ring' = length ring
      /\ (forall (j : nat) (idx : Z),
            l !! j = Some idx ->
            ring' !! Z.to_nat ((tail + Z.of_nat j) mod 2 ^ e)
            = Some (mkBuf (base + idx * size) (u32 size) idx))
      /\ (forall pos : nat,
            (forall j : nat, (j < length l)%nat ->
               pos <> Z.to_nat ((tail + Z.of_nat j) mod 2 ^ e)) ->
            ring' !! pos = ring !! pos).
Proof.
  intros He Hl. induction Hl as [|i l Hi _ IH]; intros ring tail Hr Ht Hn.
  - exists ring. cbn [fold_left length]. split; [|split; [reflexivity|split]].
    + rewrite Z.add_0_r. unfold u16. rewrite Z.mod_small by lia. reflexivity.
    + intros j idx Hj. discriminate.
    + reflexivity.
  - assert (HP : 0 < 2 ^ e) by (apply Z.pow_pos_nonneg; lia).
    cbn [fold_left]. unfold flush_step at 2. cbn [mbind option_bind].
    unfold populate, getData.
    replace ((0 <=? i) && (i <? c)) with true
      by (symmetry; apply andb_true_iff; split;
          [apply Z.leb_le | apply Z.ltb_lt]; lia).
    cbn [mbind option_bind].
    assert (Hland : Z.land tail (2 ^ e - 1) = tail mod 2 ^ e).
    { replace (2 ^ e - 1) with (Z.ones e) by (rewrite Z.ones_equiv; lia).
      apply Z.land_ones. lia. }
    rewrite Hland.
    pose proof (Z.mod_pos_bound tail (2 ^ e) HP) as Hpos.
    cbn [length] in Hn.
    destruct (ring !! Z.to_nat (tail mod 2 ^ e)) as [old|] eqn:Hlook;
      [|apply lookup_ge_None in Hlook; lia].
    cbn [mbind option_bind].
    destruct (IH (<[Z.to_nat (tail mod 2 ^ e) :=
                     mkBuf (base + i * size) (u32 size) i]> ring)
                (u16 (tail + 1))) as (ring' & Hfold & Hlen & Hin & Hout).
    + rewrite length_insert. exact Hr.
    + apply u16_range.
    + lia.
    + exists ring'. rewrite Hfold.
      assert (Hshift : forall j : nat,
                (u16 (tail + 1) + Z.of_nat j) mod 2 ^ e
                = (tail + Z.of_nat (S j)) mod 2 ^ e).
      { intros j. rewrite slot_shift by exact He. f_equal. lia. }
      split; [|split; [|split]].
      * rewrite u16_add_l. do 3 f_equal. cbn [length]. lia.
      * rewrite Hlen, length_insert. reflexivity.
      * intros [|j] idx Hj.
        -- cbn in Hj. inversion Hj; subst idx.
           rewrite Z.add_0_r, Hout.
           ++ apply list_lookup_insert_eq. lia.
           ++ intros j Hjl. rewrite Hshift. intros Heq.
              apply Z2Nat.inj in Heq; try lia.
              ** symmetry in Heq. revert Heq.
                 apply (slots_differ (2 ^ e) tail (Z.of_nat (S j))). lia.
              ** apply Z.mod_pos_bound. exact HP.
        -- cbn in Hj. rewrite <- Hshift. apply Hin. exact Hj.
      * intros pos Hpos'. rewrite Hout.
        -- apply list_lookup_insert_ne.
           specialize (Hpos' 0%nat ltac:(cbn [length]; lia)).
           rewrite Z.add_0_r in Hpos'. congruence.
        -- intros j Hjl. rewrite Hshift. apply Hpos'. cbn [length]. lia.
Qed.

Lemma returnIndex_layout (b b' : BufferProviderV2) (i : Z) :
  returnIndex b i = Done b' -> layout b' = layout b.
Proof.
  unfold returnIndex. destruct (_ && _); [|discriminate].
  destruct (_ <? _).
  - intros H; inversion H; reflexivity.
  - destruct (fold_left _ _ _) as [[ring tail]|]; [|discriminate].
    intros H; inversion H; reflexivity.
Qed.

Lemma returnAll_layout (idxs : list Z) : forall b b' : BufferProviderV2,
  returnAll b idxs = Done b' -> layout b' = layout b.
Proof.
  induction idxs as [|i idxs IH]; intros b b' H; cbn [returnAll] in H.
  - inversion H; reflexivity.
  - destruct (returnIndex b i) as [b1| | |] eqn:H1; try discriminate.
    rewrite (IH _ _ H). eapply returnIndex_layout; eassumption.
Qed.

Lemma returnAll_app (l1 l2 : list Z) : forall b b1 : BufferProviderV2,
  returnAll b l1 = Done b1 -> returnAll b (l1 ++ l2) = returnAll b1 l2.
Proof.
  induction l1 as [|i l1 IH]; intros b b1 H; cbn [returnAll app] in *.
  - inversion H; reflexivity.
  - destruct (returnIndex b i) as [b'| | |]; try discriminate.
    apply IH. exact H.
Qed.

(** Staging: fewer than 32 indices in hand leave the ring alone. *)
Lemma stage_all (l : list Z) : forall (b : BufferProviderV2) (r : nat),
  cachedIndices b = Z.of_nat r -> length (indices b) = 32%nat ->
  (r + length l < 32)%nat -> Forall (fun i => 0 <= i < 65536) l ->
  exists b',
    returnAll b l = Done b' /\ cachedIndices b' = Z.of_nat (r + length l)
    /\ length (indices b') = 32%nat
    /\ take (r + length l) (indices b') = take r (indices b) ++ l
    /\ bufs b' = bufs b /\ tailCached_ b' = tailCached_ b
    /\ ring_tail b' = ring_tail b /\ released b' = released b.
Proof.
  induction l as [|i l IH]; intros b r Hc Hlen Hr Hv.
  - exists b. cbn [returnAll length]. rewrite Nat.add_0_r, app_nil_r. auto 10.
  - inversion Hv as [|? ? Hi Hv']; subst. cbn [length] in Hr.
    cbn [returnAll]. unfold returnIndex at 1. rewrite Hc.
    replace ((0 <=? Z.of_nat r) && (Z.of_nat r <? 32)) with true
      by (symmetry; apply andb_true_iff; split;
          [apply Z.leb_le | apply Z.ltb_lt]; lia).
    assert (Hu : u16 i = i) by (unfold u16; apply Z.mod_small; lia).
    rewrite Hu, Nat2Z.id, length_insert, Hlen.
    assert (Hu32 : u32 (Z.of_nat r + 1) = Z.of_nat (S r))
      by (unfold u32; rewrite Z.mod_small; lia).
    rewrite Hu32.
    replace (Z.of_nat (S r) <? Z.of_nat 32) with true
      by (symmetry; apply Z.ltb_lt; lia).
    match goal with |- context [returnAll ?b1 l] =>
      destruct (IH b1 (S r)) as (b' & H1 & H2 & H3 & H4 & H5 & H6 & H7 & H8)
    end; try assumption; try reflexivity.
    + cbn [indices]. rewrite length_insert. exact Hlen.
    + lia.
    + exists b'. cbn [indices bufs tailCached_ ring_tail released length] in *.
      replace (r + S (length l))%nat with (S r + length l)%nat by lia.
      split; [exact H1|]. split; [exact H2|]. split; [exact H3|].
      split; [|auto].
      rewrite H4. rewrite (take_S_r _ _ i)
        by (apply list_lookup_insert_eq; lia).
      rewrite take_insert_ge by lia. rewrite <- app_assoc. reflexivity.
Qed.

(** A batch of 32 returned indices, from a provider with nothing staged:
    the 32nd call writes them to the ring, in order, behind the tail. *)
Lemma batch_entries (b : BufferProviderV2) (e : Z) (idxs : list Z) :
  5 <= e <= 16 -> ringMask_ b = 2 ^ e - 1 ->
  2 ^ e <= Z.of_nat (length (bufs b)) ->
  cachedIndices b = 0 -> length (indices b) = 32%nat ->
  0 <= tailCached_ b < 65536 -> count_ b <= 65536 ->
  length idxs = 32%nat -> Forall (fun i => 0 <= i < count_ b) idxs ->
  exists b',
    returnAll b idxs = Done b' /\ layout b' = layout b
    /\ ring_tail b' = u16 (tailCached_ b + 32)
    /\ (forall (j : nat) (idx : Z),
          idxs !! j = Some idx ->
          bufs b' !! Z.to_nat ((tailCached_ b + Z.of_nat j) mod 2 ^ e)
          = Some (mkBuf (buffer_base b + idx * sizePerBuffer_ b)
                    (u32 (sizePerBuffer_ b)) idx))
    /\ (forall pos : nat,
          (forall j : nat, (j < 32)%nat ->
             pos <> Z.to_nat ((tailCached_ b + Z.of_nat j) mod 2 ^ e)) ->
          bufs b' !! pos = bufs b !! pos).
Proof.
  intros He Hmask Hring Hc Hlen Ht Hcount Hn Hv.
  assert (Hsplit : idxs = take 31 idxs ++ drop 31 idxs)
    by (symmetry; apply take_drop).
  destruct (drop 31 idxs) as [|i [|? ?]] eqn:Hd;
    try (apply (f_equal length) in Hd; rewrite length_drop, Hn in Hd;
         cbn in Hd; lia).
  set (l := take 31 idxs) in *.
  assert (Hl : length l = 31%nat) by (subst l; rewrite length_take; lia).
  assert (Hv' : Forall (fun i => 0 <= i < count_ b) (l ++ [i]))
    by (rewrite <- Hsplit; exact Hv).
  apply Forall_app in Hv' as [Hvl Hvi].
  pose proof (proj1 (Forall_singleton _ _) Hvi) as Hi. cbn beta in Hi.
  destruct (stage_all l b 0 Hc Hlen ltac:(lia)) as
    (b1 & H1 & H2 & H3 & H4 & H5 & H6 & H7 & H8).
  { eapply Forall_impl; [exact Hvl|]. cbn. intros; lia. }
  pose proof (returnAll_layout _ _ _ H1) as Hlay.
  unfold layout in Hlay. inversion Hlay as [[L1 L2 L3 L4 L5 L6 L7]].
  rewrite Hsplit, (returnAll_app l [i] b b1 H1).
  cbn [returnAll]. unfold returnIndex. rewrite H2.
  cbn [Nat.add] in H2, H4 |- *. rewrite Hl in H4 |- *.
  change ((0 <=? Z.of_nat 31) && (Z.of_nat 31 <? 32)) with true.
  assert (Hu : u16 i = i) by (unfold u16; apply Z.mod_small; lia).
  rewrite Hu, Nat2Z.id, length_insert, H3.
  change (u32 (Z.of_nat 31 + 1) <? Z.of_nat 32) with false.
  assert (Hins : <[31%nat := i]> (indices b1) = l ++ [i]).
  { rewrite insert_take_drop by lia. rewrite H4. cbn [take app].
    rewrite drop_ge by lia. reflexivity. }
  rewrite Hins, L1, L2, L4, L7, H5, H6, Hmask.
  destruct (flush_entries (count_ b) (buffer_base b) (sizePerBuffer_ b) e
              (l ++ [i]) ltac:(lia)
              ltac:(apply Forall_app; split; assumption) (bufs b)
              (tailCached_ b) Hring Ht)
    as (ring' & Hfold & Hlen' & Hin & Hout).
  { rewrite <- Hsplit, Hn.
    assert (2 ^ 5 <= 2 ^ e) by (apply Z.pow_le_mono_r; lia).
    change (2 ^ 5) with 32 in *. lia. }
  rewrite Hfold. rewrite <- Hsplit, Hn in *.
  eexists. split; [reflexivity|].
  unfold layout; cbn [count_ sizePerBuffer_ bufferMmapSize_ buffer_base
                        ringMemSize_ ringSize_ ringMask_ ring_tail bufs].
  split; [congruence|]. split; [reflexivity|].
  split; [exact Hin | exact Hout].
Qed.

(** X13. What a flush hands the kernel. In a pool of [c] buffers
    ([17 <= c < 65535], so that the ring has 32 entries or more), after
    the constructor and [32 * q] returned indices, the next 32 returned
    indices are written to the ring by the 32nd [returnIndex]: for every
    [j < 32] the entry at position [(c + 32 * q + j) mod ringSize_]
    describes the [j]-th of them (its address, [sizePerBuffer_] and its
    id), and the tail published is [(c + 32 * (q + 1)) mod 65536]. *)
Theorem flushed_batch_describes_the_returned_buffers
    (rx_cfg : IoUringRxConfig) (m : Z) (pre idxs : list Z) (q : nat) :
  17 <= provided_buffer_count rx_cfg < 65535 ->
  length pre = (32 * q)%nat -> length idxs = 32%nat ->
  Forall (fun i => 0 <= i < provided_buffer_count rx_cfg) (pre ++ idxs) ->
  exists b0 b,
    create rx_cfg (Mapped m) = Done b0
    /\ returnAll b0 (pre ++ idxs) = Done b
    /\ ring_tail b
       = u16 (provided_buffer_count rx_cfg + 32 * (Z.of_nat q + 1))
    /\ forall (j : nat) (idx : Z),
         idxs !! j = Some idx ->
         bufs b !! Z.to_nat ((provided_buffer_count rx_cfg + 32 * Z.of_nat q
                              + Z.of_nat j) mod ringSize_ b0)
         = Some (mkBuf (buffer_base b0 + idx * sizePerBuffer_ b0)
                   (u32 (sizePerBuffer_ b0)) idx).
Proof.
  intros Hc Hpre Hn Hv. apply Forall_app in Hv as [Hvp Hvi].
  set (c := provided_buffer_count rx_cfg) in *.
  destruct (create_sized rx_cfg m ltac:(lia)) as (e & He & Hle & Hmin & Hcr).
  destruct (create_batched rx_cfg m ltac:(lia)) as (b0 & Hb0 & Hbat).
  assert (He5 : 5 <= e).
  { destruct (Z_lt_ge_dec e 5) as [Hlt|]; [|lia]. exfalso.
    assert (2 ^ e <= 2 ^ 4) by (apply Z.pow_le_mono_r; lia).
    change (2 ^ 4) with 16 in *. fold c in Hle. lia. }
  assert (Hfields : ringSize_ b0 = 2 ^ e /\ ringMask_ b0 = 2 ^ e - 1
                    /\ count_ b0 = c).
  { cbv zeta in Hcr. rewrite Hb0 in Hcr. inversion Hcr. auto. }
  destruct Hfields as (Hsize & Hmask & Hcount).
  destruct (returnAll_batched c pre ltac:(lia) Hvp b0 0%nat 0%nat Hbat)
    as (b1 & q' & r' & H1 & Hbat1 & Hq).
  pose proof (returnAll_layout _ _ _ H1) as Hlay.
  unfold layout in Hlay. inversion Hlay as [[L1 L2 L3 L4 L5 L6 L7]].
  destruct Hbat1 as (_ & Hr' & Hcached & Hlen & _ & Htail & _ & e' & He'
                     & Hmask' & Hring').
  assert (r' = 0%nat /\ q' = q) as [-> ->] by lia.
  assert (Hee : 2 ^ e' = 2 ^ e) by lia.
  rewrite Hee in Hring'.
  destruct (batch_entries b1 e idxs ltac:(lia) ltac:(lia) Hring' Hcached
              Hlen ltac:(rewrite Htail; apply u16_range) ltac:(lia) Hn)
    as (b & H2 & _ & Ht & Hin & _).
  { rewrite L1, Hcount. exact Hvi. }
  exists b0, b. split; [exact Hb0|].
  split; [rewrite (returnAll_app _ _ _ _ H1); exact H2|].
  rewrite Htail in Ht, Hin. unfold nth_release in Ht, Hin.
  split.
  - rewrite Ht, u16_add_l. f_equal. lia.
  - intros j idx Hj. rewrite Hsize, <- L4, <- L2.
    rewrite <- (slot_shift e (c + 32 * Z.of_nat q)) by lia.
    apply Hin. exact Hj.
Qed.

Lemma flushed_batch_describes_the_returned_buffers_witness :
  17 <= provided_buffer_count (cfg_with_count 40) < 65535
  /\ length (@nil Z) = (32 * 0)%nat /\ length (first_indices 32) = 32%nat
  /\ Forall (fun i => 0 <= i < provided_buffer_count (cfg_with_count 40))
       ([] ++ first_indices 32)
  /\ exists b0 b,
       create (cfg_with_count 40) (Mapped 1048576) = Done b0
       /\ returnAll b0 (first_indices 32) = Done b
       /\ ring_tail b = 72
       /\ bufs b !! 43%nat = Some (mkBuf (buffer_base b0 + 3 * 4096) 4096 3).
Proof.
  assert (Hc : 17 <= provided_buffer_count (cfg_with_count 40) < 65535)
    by (cbn; lia).
  assert (Hv : Forall (fun i => 0 <= i
                                < provided_buffer_count (cfg_with_count 40))
                 ([] ++ first_indices 32))
    by (apply first_indices_valid; cbn; lia).
  split; [exact Hc|]. split; [reflexivity|]. split; [reflexivity|].
  split; [exact Hv|].
  destruct (flushed_batch_describes_the_returned_buffers (cfg_with_count 40)
              1048576 [] (first_indices 32) 0 Hc eq_refl eq_refl Hv)
    as (b0 & b & H1 & H2 & H3 & H4).
  exists b0, b. split; [exact H1|]. split; [exact H2|].
  split; [rewrite H3; reflexivity|].
  specialize (H4 3%nat 3 eq_refl).
  assert (Hs : ringSize_ b0 = 64 /\ sizePerBuffer_ b0 = 4096).
  { vm_compute in H1. inversion H1. split; reflexivity. }
  destruct Hs as [Hs1 Hs2]. rewrite Hs1, Hs2 in H4. exact H4.
Defined.

End SharedPoolFacts.

(** ** Creating the ring *)

Module RingSetupFacts.
Import RingSetup.

(** C8 (as amended). Ring-engine initialisation asks the kernel for
    [sqe_count] submission entries and for a completion queue of the
    explicitly configured [cqe_count] when that is positive, and of
    [128 * sqe_count] otherwise (a [cqe_count] of 0 or less): this holds of
    the first call to [io_uring_queue_init_params] and of the retry
    without the newer flags, whatever the kernel answers; both calls carry
    [IORING_SETUP_CQSIZE]. (The configuration values are [int]s;
    [128 * sqe_count] is taken not to overflow.) *)
Theorem cq_size_is_explicit_or_default
    (kernel : init_call -> Z * Z) (rx_cfg : IoUringRxConfig) :
  0 <= sqe_count rx_cfg < 16777216 -> cqe_count rx_cfg < 2147483648 ->
  exists first rest,
    fst (mkIoUring kernel rx_cfg) = first :: rest
    /\ Forall (asks_for rx_cfg) (first :: rest).
Proof.
  intros Hs Hc.
  assert (Hu : u32 (cqe_count_for rx_cfg)
               = if cqe_count rx_cfg <=? 0 then 128 * sqe_count rx_cfg
                 else cqe_count rx_cfg).
  { unfold cqe_count_for, u32.
    destruct (cqe_count rx_cfg <=? 0) eqn:He.
    - apply Z.mod_small. lia.
    - apply Z.leb_gt in He. apply Z.mod_small. lia. }
  assert (Hask : forall f,
            Z.land f IORING_SETUP_CQSIZE = IORING_SETUP_CQSIZE ->
            asks_for rx_cfg
              (mkCall (sqe_count rx_cfg)
                 (mkParams f (u32 (cqe_count_for rx_cfg))))).
  { intros f Hf. unfold asks_for; cbn [entries params cq_entries flags].
    split; [reflexivity|]. split; [exact Hu | exact Hf]. }
  unfold mkIoUring.
  destruct (kernel _) as [ret features] eqn:Hk1.
  destruct (ret <? 0).
  - destruct (kernel (mkCall _ (mkParams (Z.land _ _) _)))
      as [ret2 features2].
    eexists; eexists. split; [reflexivity|].
    apply List.Forall_cons;
      [apply Hask; destruct (defer_taskrun rx_cfg); reflexivity|].
    apply List.Forall_cons;
      [apply Hask; destruct (defer_taskrun rx_cfg); reflexivity|].
    apply List.Forall_nil.
  - eexists; eexists. split; [reflexivity|].
    apply List.Forall_cons;
      [apply Hask; destruct (defer_taskrun rx_cfg); reflexivity|].
    apply List.Forall_nil.
Qed.

Lemma cq_size_is_explicit_or_default_witness :
  0 <= sqe_count small_cq_cfg < 16777216
  /\ cqe_count small_cq_cfg < 2147483648
  /\ exists first rest,
       fst (mkIoUring accepting_kernel small_cq_cfg) = first :: rest
       /\ Forall (asks_for small_cq_cfg) (first :: rest).
Proof.
  assert (H1 : 0 <= sqe_count small_cq_cfg < 16777216) by (cbn; lia).
  assert (H2 : cqe_count small_cq_cfg < 2147483648) by (cbn; lia).
  split; [exact H1|]. split; [exact H2|].
  exact (cq_size_is_explicit_or_default accepting_kernel small_cq_cfg H1 H2).
Defined.

(** C8, as stated, fails: with [sqe_count = 64] and an explicit
    [cqe_count = 100] the kernel is asked for 100 completion entries,
    fewer than [128 * 64 = 8192]. *)
Lemma cq_size_counterexample :
  exists c,
    fst (mkIoUring accepting_kernel small_cq_cfg) = [c]
    /\ cq_entries (params c) = 100
    /\ cq_entries (params c) < 128 * sqe_count small_cq_cfg
    /\ cq_entries (params c)
       <> Z.max (128 * sqe_count small_cq_cfg) (cqe_count small_cq_cfg).
Proof.
  eexists. split; [vm_compute; reflexivity|].
  cbn. repeat split; try reflexivity. discriminate.
Qed.

(** [IORING_SETUP_SUBMIT_ALL | IORING_SETUP_COOP_TASKRUN] is the bits 7
    and 8. *)
Lemma newer_flags_bits (n : Z) :
  0 <= n ->
  Z.testbit (Z.lor IORING_SETUP_SUBMIT_ALL IORING_SETUP_COOP_TASKRUN) n
  = (n =? 7) || (n =? 8).
Proof.
  intros Hn. unfold IORING_SETUP_SUBMIT_ALL, IORING_SETUP_COOP_TASKRUN.
  rewrite Z.lor_spec, !Z.shiftl_1_l, !Z.pow2_bits_eqb by lia.
  rewrite (Z.eqb_sym 7), (Z.eqb_sym 8). reflexivity.
Qed.

(** X14. The retry of [mkIoUring]. On a kernel that refuses
    [IORING_SETUP_SUBMIT_ALL] exactly two calls are made; the first
    carries [SUBMIT_ALL] and [COOP_TASKRUN] (bits 7 and 8); the second asks
    for the same queue sizes with exactly those two flags cleared and every
    other flag ([CQSIZE], the three of [defer_taskrun]) as in the first. *)
Theorem retry_drops_only_the_newer_flags
    (kernel : init_call -> Z * Z) (rx_cfg : IoUringRxConfig) :
  (forall c, Z.testbit (flags (params c)) 7 = true -> fst (kernel c) < 0) ->
  exists first second,
    fst (mkIoUring kernel rx_cfg) = [first; second]
    /\ entries second = entries first
    /\ cq_entries (params second) = cq_entries (params first)
    /\ Z.testbit (flags (params first)) 7 = true
    /\ Z.testbit (flags (params first)) 8 = true
    /\ forall n, 0 <= n ->
         Z.testbit (flags (params second)) n
         = negb ((n =? 7) || (n =? 8)) && Z.testbit (flags (params first)) n.
Proof.
  intros Hold. unfold mkIoUring.
  match goal with |- context [kernel ?c] => set (call1 := c) end.
  assert (H7 : Z.testbit (flags (params call1)) 7 = true)
    by (subst call1; cbn [flags params]; destruct (defer_taskrun rx_cfg);
        reflexivity).
  assert (H8 : Z.testbit (flags (params call1)) 8 = true)
    by (subst call1; cbn [flags params]; destruct (defer_taskrun rx_cfg);
        reflexivity).
  pose proof (Hold call1 H7) as Hret.
  destruct (kernel call1) as [ret features]. cbn [fst] in Hret.
  replace (ret <? 0) with true by (symmetry; apply Z.ltb_lt; exact Hret).
  match goal with |- context [kernel ?c] => set (call2 := c) end.
  destruct (kernel call2) as [ret2 features2].
  exists call1, call2. cbn [fst]. split; [reflexivity|].
  split; [reflexivity|]. split; [reflexivity|].
  split; [exact H7|]. split; [exact H8|].
  intros n Hn. subst call1 call2. cbn [flags params].
  rewrite Z.land_spec, Z.lnot_spec, newer_flags_bits by exact Hn.
  apply andb_comm.
Qed.

Lemma retry_drops_only_the_newer_flags_witness :
  (forall c, Z.testbit (flags (params c)) 7 = true -> fst (older_kernel c) < 0)
  /\ exists first second,
       fst (mkIoUring older_kernel default_cfg) = [first; second]
       /\ flags (params first) = 392 /\ flags (params second) = 8.
Proof.
  assert (Hold : forall c, Z.testbit (flags (params c)) 7 = true ->
                           fst (older_kernel c) < 0).
  { intros c Hc. unfold older_kernel. rewrite Hc. cbn. lia. }
  split; [exact Hold|].
  destruct (retry_drops_only_the_newer_flags older_kernel default_cfg Hold)
    as (first & second & H1 & _).
  exists first, second. split; [exact H1|].
  vm_compute in H1. inversion H1. split; reflexivity.
Defined.

(** X15. What [mkIoUring] returns, whatever the kernel answers. If it
    returns, the last call made was accepted, and the configuration is the
    caller's with [cqe_skip_success_flag] set to [IOSQE_CQE_SKIP_SUCCESS]
    when that call reported [IORING_FEAT_CQE_SKIP], and the caller's
    unchanged otherwise. It is fatal only after two calls that the kernel
    both refused. *)
Theorem returned_config_only_records_cqe_skip
    (kernel : init_call -> Z * Z) (rx_cfg : IoUringRxConfig) :
  match snd (mkIoUring kernel rx_cfg) with
  | Done cfg' =>
    exists c,
      last (fst (mkIoUring kernel rx_cfg)) = Some c /\ 0 <= fst (kernel c)
      /\ cfg' = (if Z.land (snd (kernel c)) IORING_FEAT_CQE_SKIP =? 0
                 then rx_cfg
                 else with_skip_flag rx_cfg IOSQE_CQE_SKIP_SUCCESS)
  | Died _ =>
    length (fst (mkIoUring kernel rx_cfg)) = 2%nat
    /\ Forall (fun c => fst (kernel c) < 0) (fst (mkIoUring kernel rx_cfg))
  | OutOfBounds | OutOfFuel => False
  end.
Proof.
  unfold mkIoUring.
  match goal with |- context [kernel ?c] => set (call1 := c) end.
  destruct (kernel call1) as [ret features] eqn:Hk1.
  destruct (ret <? 0) eqn:Hret.
  - apply Z.ltb_lt in Hret.
    match goal with |- context [kernel ?c] => set (call2 := c) end.
    destruct (kernel call2) as [ret2 features2] eqn:Hk2.
    cbn [fst snd]. unfold checkedErrno, die.
    destruct (ret2 <? 0) eqn:Hret2.
    + apply Z.ltb_lt in Hret2. split; [reflexivity|].
      repeat constructor; [rewrite Hk1 | rewrite Hk2]; assumption.
    + apply Z.ltb_ge in Hret2. exists call2.
      split; [reflexivity|]. rewrite Hk2. split; [exact Hret2 | reflexivity].
  - apply Z.ltb_ge in Hret. cbn [fst snd]. exists call1.
    split; [reflexivity|]. rewrite Hk1. split; [exact Hret | reflexivity].
Qed.

End RingSetupFacts.

(** ** The statistics recorder *)

Module StatsFacts.
Import Stats.

(** C9 (as amended). Whenever a [doneLoop] call finds at least one
    second elapsed since the last flush (and [times] succeeds), it
    flushes: the per-interval counters [loops_], [overflows_] and [idle_]
    are reset to 0 and [lastStats_], [lastBytes_], [lastRequests_] take
    the values of this call. A line is emitted by that flush only if
    requests were completed since the last flush and the rate stored by
    the last flush is not 0 ([requests > lastRequests_ && lastRps_]);
    otherwise the flush is silent. A line that is emitted carries the
    receiver name, the interval, the request and byte differences, the
    idle time, and the loop and overflow counts of the interval. *)
Theorem flush_every_second_line_only_under_load
    (rate : Z -> Z -> Z) (s : RxStats) (c : clocks)
    (bytes requests reads : Z) (is_overflow : bool) :
  second_ns <= steady_now c - lastStats_ s -> 0 <= times_ret c ->
  exists out s',
    doneLoop rate s c bytes requests reads is_overflow = Done (out, s')
    /\ loops_ s' = 0 /\ overflows_ s' = 0 /\ idle_ s' = 0
    /\ lastStats_ s' = steady_now c
    /\ lastBytes_ s' = bytes /\ lastRequests_ s' = requests
    /\ length out = (if prints s requests then 1 else 0)%nat
    /\ Forall (fun ln =>
                 l_name ln = name_ s
                 /\ l_interval_ms ln
                    = (steady_now c - lastStats_ s) / 1000000
                 /\ l_requests ln = u64 (requests - lastRequests_ s)
                 /\ l_bytes ln = u64 (bytes - lastBytes_ s)
                 /\ l_idle_ms ln = idle_ s / 1000000
                 /\ l_loops ln = u64 (loops_ s + 1)
                 /\ l_overflows ln
                    = (if is_overflow then u64 (overflows_ s + 1)
                       else overflows_ s)) out.
Proof.
  intros Hd Ht. unfold doneLoop.
  replace (second_ns <=? steady_now c - lastStats_ s) with true
    by (symmetry; apply Z.leb_le; exact Hd).
  unfold doLog, checkedErrno.
  replace (times_ret c <? 0) with false
    by (symmetry; apply Z.ltb_ge; exact Ht).
  cbn [lastRequests_ lastRps_ name_ lastBytes_ idle_ loops_ overflows_
       countReads_ reads_ lastTimes_ lastClock_ waitStarted_
       ticksPerSecond_].
  eexists; eexists. split; [reflexivity|].
  cbn [loops_ overflows_ idle_ lastStats_ lastBytes_ lastRequests_].
  repeat (split; [reflexivity|]).
  unfold prints.
  destruct ((lastRequests_ s <? requests) && negb (lastRps_ s =? 0)).
  - split; [reflexivity|].
    apply List.Forall_cons; [|apply List.Forall_nil].
    cbn [l_name l_interval_ms l_requests l_bytes l_idle_ms l_loops
         l_overflows].
    split; [reflexivity|]. split; [reflexivity|]. split; [reflexivity|].
    split; [reflexivity|]. split; [reflexivity|]. split; reflexivity.
  - split; [reflexivity | apply List.Forall_nil].
Qed.

Lemma flush_every_second_line_only_under_load_witness :
  second_ns <= steady_now one_second_later
               - lastStats_ (mkStats "rx" true [] 0 100 (mkTms 0 0) 1000
                               0 0 0 0 0 0 0)
  /\ 0 <= times_ret one_second_later
  /\ exists out s',
       doneLoop exact_rate
         (mkStats "rx" true [] 0 100 (mkTms 0 0) 1000 0 0 0 0 0 0 0)
         one_second_later 720 10 3 false = Done (out, s')
       /\ loops_ s' = 0 /\ out = [].
Proof.
  assert (H1 : second_ns <= steady_now one_second_later
                 - lastStats_ (mkStats "rx" true [] 0 100 (mkTms 0 0) 1000
                                 0 0 0 0 0 0 0))
    by (vm_compute; discriminate).
  assert (H2 : 0 <= times_ret one_second_later) by (vm_compute; discriminate).
  split; [exact H1|]. split; [exact H2|].
  destruct (flush_every_second_line_only_under_load exact_rate _
              one_second_later 720 10 3 false H1 H2)
    as (out & s' & Hrun & Hloops & _ & _ & _ & _ & _ & Hlen & _).
  exists out, s'. split; [exact Hrun|]. split; [exact Hloops|].
  destruct out; [reflexivity | discriminate Hlen].
Defined.

(** C9, as stated, fails: a recorder made at time 0 whose first loop
    ends one second later, ten requests and 720 bytes on, flushes without
    emitting a line ([lastRps_] is still 0). *)
Lemma silent_flush_counterexample :
  exists s s',
    create "rx" true 100 at_start = Done s
    /\ second_ns <= steady_now one_second_later - lastStats_ s
    /\ doneLoop exact_rate s one_second_later 720 10 3 false
       = Done ([], s')
    /\ loops_ s' = 0.
Proof.
  eexists; eexists. split; [vm_compute; reflexivity|].
  split; [vm_compute; discriminate|].
  split; [vm_compute; reflexivity | reflexivity].
Qed.

(** In a sorted vector a later element is not below an earlier one. *)
Lemma sorted_lookup_le (l : list Z) :
  StronglySorted Z.le l ->
  forall (i j : nat) (a b : Z),
    (i <= j)%nat -> l !! i = Some a -> l !! j = Some b -> a <= b.
Proof.
  intros Hs. induction Hs as [|x l Hs IH Hx]; intros i j a b Hij Ha Hb.
  - discriminate.
  - destruct i as [|i], j as [|j]; cbn in Ha, Hb; try lia.
    + inversion Ha; inversion Hb; subst. lia.
    + inversion Ha; subst. rewrite List.Forall_forall in Hx.
      apply Hx. apply list_elem_of_In. eapply list_elem_of_lookup_2. exact Hb.
    + eapply (IH i j); try eassumption. lia.
Qed.

Lemma sum_perm (l l' : list Z) :
  Permutation l l' -> foldr Z.add 0 l = foldr Z.add 0 l'.
Proof.
  intros H. induction H; cbn [foldr]; lia.
Qed.

(** X16. [getReadStats] on a [reads_] vector that is not empty: the three
    indices [size / 10], [size / 2] and [(int)(size * 0.9)] all lie inside
    the vector, so [p10], [p50] and [p90] are values that were recorded,
    and [p10 <= p50 <= p90]; the average is the sum of the recorded values
    over their number. *)
Theorem read_percentiles_are_ordered_members (reads : list Z) :
  reads <> [] ->
  exists st,
    getReadStats reads = Some st
    /\ p10 st <= p50 st <= p90 st
    /\ In (p10 st) reads /\ In (p50 st) reads /\ In (p90 st) reads
    /\ avg_total st = foldr Z.add 0 reads
    /\ avg_size st = Z.of_nat (length reads).
Proof.
  intros Hne. unfold getReadStats.
  destruct reads as [|r0 rest] eqn:Hreads; [contradiction|].
  rewrite <- Hreads in *. clear Hne.
  pose proof (merge_sort_Permutation Z.le reads) as Hperm.
  pose proof (StronglySorted_merge_sort Z.le reads) as Hsorted.
  set (sorted := merge_sort Z.le reads) in *.
  assert (Hlen : length sorted = length reads)
    by (apply Permutation_length; exact Hperm).
  assert (Hpos : (0 < length sorted)%nat)
    by (rewrite Hlen, Hreads; cbn; lia).
  set (size := Z.of_nat (length sorted)).
  assert (Hat : forall i, 0 <= i < size ->
            exists x, sorted !! Z.to_nat i = Some x /\ In x reads).
  { intros i Hi. destruct (sorted !! Z.to_nat i) as [x|] eqn:Hl.
    - exists x. split; [reflexivity|].
      apply (Permutation_in _ Hperm), list_elem_of_In.
      eapply list_elem_of_lookup_2. exact Hl.
    - apply lookup_ge_None in Hl. subst size. lia. }
  assert (H10 : 0 <= size / 10 < size)
    by (subst size; Z.div_mod_to_equations; lia).
  assert (H50 : 0 <= size / 2 < size)
    by (subst size; Z.div_mod_to_equations; lia).
  assert (H90 : 0 <= size * 9 / 10 < size)
    by (subst size; Z.div_mod_to_equations; lia).
  destruct (Hat _ H10) as (x10 & L10 & I10).
  destruct (Hat _ H50) as (x50 & L50 & I50).
  destruct (Hat _ H90) as (x90 & L90 & I90).
  eexists. split; [reflexivity|]. cbn [p10 p50 p90 avg_total avg_size].
  rewrite L10, L50, L90. cbn [default from_option].
  split; [split|].
  - refine (sorted_lookup_le sorted Hsorted _ _ _ _ _ L10 L50).
    apply Z2Nat.inj_le; try lia. Z.div_mod_to_equations; lia.
  - refine (sorted_lookup_le sorted Hsorted _ _ _ _ _ L50 L90).
    apply Z2Nat.inj_le; try lia. Z.div_mod_to_equations; lia.
  - split; [exact I10|]. split; [exact I50|]. split; [exact I90|].
    split; [apply sum_perm; exact Hperm | subst size; lia].
Qed.

Lemma read_percentiles_are_ordered_members_witness :
  [3; 1; 2; 7; 5; 4; 9; 8; 6; 10] <> []
  /\ exists st,
       getReadStats [3; 1; 2; 7; 5; 4; 9; 8; 6; 10] = Some st
       /\ p10 st = 2 /\ p50 st = 6 /\ p90 st = 10.
Proof.
  assert (Hne : [3; 1; 2; 7; 5; 4; 9; 8; 6; 10] <> []) by discriminate.
  split; [exact Hne|].
  destruct (read_percentiles_are_ordered_members _ Hne) as (st & H1 & _).
  exists st. split; [exact H1|].
  vm_compute in H1. inversion H1. auto.
Defined.

(** X17. With read counting on, [reads_] is cleared only by a call of
    [doneLoop] that prints a line. Every other call leaves it one entry
    longer: a call within the second, and also a flush that prints nothing
    (no new requests, or no rate stored by the flush before), so that the
    vector keeps growing for as long as no line is printed. *)
Theorem reads_are_cleared_only_when_a_line_is_printed
    (rate : Z -> Z -> Z) (s : RxStats) (c : clocks)
    (bytes requests reads : Z) (is_overflow : bool) :
  countReads_ s = true -> 0 <= times_ret c ->
  exists out s',
    doneLoop rate s c bytes requests reads is_overflow = Done (out, s')
    /\ (if (second_ns <=? steady_now c - lastStats_ s) && prints s requests
        then length out = 1%nat /\ reads_ s' = []
        else out = [] /\ reads_ s' = reads_ s ++ [reads]).
Proof.
  intros Hcount Htimes. unfold doneLoop, prints. rewrite Hcount.
  destruct (second_ns <=? steady_now c - lastStats_ s) eqn:Hflush.
  - unfold doLog, checkedErrno.
    replace (times_ret c <? 0) with false by (symmetry; apply Z.ltb_ge; lia).
    cbn [lastRequests_ lastRps_ countReads_ reads_ andb].
    destruct ((lastRequests_ s <? requests) && negb (lastRps_ s =? 0));
      eexists; eexists; (split; [reflexivity|]); cbn [reads_ andb];
      split; reflexivity.
  - eexists; eexists. split; [reflexivity|]. cbn [andb reads_].
    split; reflexivity.
Qed.

Lemma reads_are_cleared_only_when_a_line_is_printed_witness :
  countReads_ (mkStats "rx" true [4; 2] 0 100 (mkTms 0 0) 1000 0 0 0 0 0 0 0)
  = true
  /\ 0 <= times_ret one_second_later
  /\ exists out s',
       doneLoop exact_rate
         (mkStats "rx" true [4; 2] 0 100 (mkTms 0 0) 1000 0 0 0 0 0 0 0)
         one_second_later 720 10 3 false = Done (out, s')
       /\ out = [] /\ reads_ s' = [4; 2; 3].
Proof.
  split; [reflexivity|]. split; [cbn; lia|].
  destruct (reads_are_cleared_only_when_a_line_is_printed exact_rate
              (mkStats "rx" true [4; 2] 0 100 (mkTms 0 0) 1000 0 0 0 0 0 0 0)
              one_second_later 720 10 3 false eq_refl ltac:(cbn; lia))
    as (out & s' & H1 & H2).
  exists out, s'. split; [exact H1|]. exact H2.
Defined.

End StatsFacts.

(** ** The write path of the readiness engine *)

Module EpollFacts.
Import Epoll.

Lemma armed_after_mod (r : EPollRunner) (fd events : Z) :
  is_Some (interest r !! fd) ->
  armed (mkRunner (rcvbuff_size r) (<[fd := events]> (interest r))) fd
  = negb (Z.land events EPOLLOUT =? 0).
Proof.
  intros _. unfold armed; cbn [interest]. rewrite lookup_insert_eq.
  reflexivity.
Qed.

(** The loop leaves with nothing pending once [send] has failed, and
    with whatever is pending when [send] would block. *)
Lemma write_loop_nothing (sends : list sent) : write_loop sends 0 = Done 0.
Proof. destruct sends; reflexivity. Qed.

(** The loop returns if the kernel sooner or later answers [EAGAIN]. *)
Lemma write_loop_returns (sends : list sent) : forall to_write,
  Exists (fun s => res s < 0 /\ errno s = EAGAIN) sends ->
  exists pending, write_loop sends to_write = Done pending.
Proof.
  induction sends as [|s sends IH]; intros to_write Hex.
  - inversion Hex.
  - cbn [write_loop]. destruct (to_write =? 0); [eauto|].
    destruct ((res s <? 0) && (errno s =? EAGAIN)) eqn:Hblock; [eauto|].
    destruct (res s <? 0) eqn:Hneg.
    + rewrite write_loop_nothing. eauto.
    + apply IH. inversion Hex as [? ? [Hr He]|]; subst; [|assumption].
      apply Z.ltb_ge in Hneg. lia.
Qed.

(** On a live connection [doWrite] returns whenever its loop does: the
    notifier accepts the change of interest. *)
Lemma doWrite_returns (sends : list sent) (r : EPollRunner) (ed : EPollData)
    (pending : Z) :
  live r ed -> write_loop sends (to_write ed) = Done pending ->
  exists r' ed', doWrite sends r ed = Done (r', ed').
Proof.
  intros [[ev Hev] _] Hloop. unfold doWrite, epoll_ctl_mod. rewrite Hloop, Hev.
  destruct (write_in_epoll ed && (pending =? 0)); [cbn; eauto|].
  destruct (negb (write_in_epoll ed) && negb (pending =? 0)); cbn; eauto.
Qed.

(** C10. In the readiness engine, after every return of [doWrite] on a
    live connection, write interest is armed in the notifier if and only
    if the connection still has pending reply bytes: [write_in_epoll] and
    the [EPOLLOUT] bit of the descriptor's registration both equal
    [to_write != 0]. So a write that would block ([EAGAIN] with
    [to_write > 0]) leaves write interest armed, and a fully drained or
    failed write ([to_write = 0]) leaves it disarmed; the connection stays
    live. *)
Theorem write_interest_iff_pending
    (sends : list sent) (r r' : EPollRunner) (ed ed' : EPollData) :
  live r ed -> doWrite sends r ed = Done (r', ed') ->
  write_in_epoll ed' = negb (to_write ed' =? 0)
  /\ armed r' (fd ed') = negb (to_write ed' =? 0)
  /\ fd ed' = fd ed /\ live r' ed'.
Proof.
  intros [[ev Hev] Harmed] Hrun. unfold doWrite, epoll_ctl_mod in Hrun.
  destruct (write_loop sends (to_write ed)) as [pending| | |];
    try discriminate.
  rewrite Hev in Hrun.
  assert (Hsome : is_Some (interest r !! fd ed)) by (rewrite Hev; eauto).
  destruct (write_in_epoll ed) eqn:Hw; destruct (pending =? 0) eqn:Hp;
    cbn in Hrun; inversion Hrun; subst; clear Hrun;
    cbn [write_in_epoll to_write fd]; rewrite ?Hp;
    (split; [reflexivity|]).
  - rewrite armed_after_mod by exact Hsome.
    split; [reflexivity|]. split; [reflexivity|].
    split; cbn [interest fd write_in_epoll].
    + rewrite lookup_insert_eq. eauto.
    + rewrite armed_after_mod by exact Hsome. reflexivity.
  - split; [exact Harmed|]. split; [reflexivity|].
    split; cbn [fd write_in_epoll]; assumption.
  - split; [exact Harmed|]. split; [reflexivity|].
    split; cbn [fd write_in_epoll]; assumption.
  - rewrite armed_after_mod by exact Hsome.
    split; [reflexivity|]. split; [reflexivity|].
    split; cbn [interest fd write_in_epoll].
    + rewrite lookup_insert_eq. eauto.
    + rewrite armed_after_mod by exact Hsome. reflexivity.
Qed.

Lemma write_interest_iff_pending_witness :
  live accepted ten_pending
  /\ exists r' ed',
       doWrite five_then_full accepted ten_pending = Done (r', ed')
       /\ to_write ed' = 5 /\ write_in_epoll ed' = true
       /\ armed r' (fd ed') = true.
Proof.
  assert (Hlive : live accepted ten_pending).
  { split; [vm_compute; eauto | vm_compute; reflexivity]. }
  split; [exact Hlive|].
  destruct (doWrite five_then_full accepted ten_pending)
    as [[r' ed']| | |] eqn:Hrun; try (vm_compute in Hrun; discriminate).
  destruct (write_interest_iff_pending five_then_full accepted r'
              ten_pending ed' Hlive Hrun) as (H1 & H2 & _ & _).
  assert (Hp : to_write ed' = 5)
    by (vm_compute in Hrun; inversion Hrun; reflexivity).
  exists r', ed'. split; [reflexivity|]. split; [exact Hp|].
  rewrite H1, H2, Hp. split; reflexivity.
Defined.

(** The loop only ever takes bytes off [to_write], and never more than
    are pending. *)
Lemma write_loop_bounded (sends : list sent) : forall to_write pending,
  0 <= to_write -> write_loop sends to_write = Done pending ->
  0 <= pending <= to_write.
Proof.
  induction sends as [|s sends IH]; intros to_write pending Hw;
    cbn [write_loop].
  - destruct (to_write =? 0); [|discriminate].
    intros H; inversion H; lia.
  - destruct (to_write =? 0); [intros H; inversion H; lia|].
    destruct ((res s <? 0) && (errno s =? EAGAIN));
      [intros H; inversion H; lia|].
    destruct (res s <? 0).
    + rewrite write_loop_nothing. intros H; inversion H; lia.
    + intros H.
      assert (Hu : 0 <= u32 to_write <= to_write).
      { unfold u32. split; [apply Z.mod_pos_bound; lia|].
        apply Z.mod_le; lia. }
      assert (Hr : 0 <= u32 (res s))
        by (unfold u32; apply Z.mod_pos_bound; lia).
      apply IH in H; lia.
Qed.

(** X18. [doWrite] never lets the pending byte count grow or wrap below
    zero, whatever [send] returns (more than was asked for included): what
    is pending afterwards lies between 0 and what was pending before. *)
Theorem pending_bytes_never_grow_or_underflow
    (sends : list sent) (r r' : EPollRunner) (ed ed' : EPollData) :
  0 <= to_write ed -> doWrite sends r ed = Done (r', ed') ->
  0 <= to_write ed' <= to_write ed.
Proof.
  intros Hw Hrun. unfold doWrite in Hrun.
  destruct (write_loop sends (to_write ed)) as [pending| | |] eqn:Hloop;
    try discriminate.
  pose proof (write_loop_bounded _ _ _ Hw Hloop) as Hb.
  destruct (write_in_epoll ed && (pending =? 0)).
  - destruct (epoll_ctl_mod _ _ _) as [ret m].
    destruct (checkedErrno ret _); try discriminate.
    inversion Hrun; subst; exact Hb.
  - destruct (negb (write_in_epoll ed) && negb (pending =? 0)).
    + destruct (epoll_ctl_mod _ _ _) as [ret m].
      destruct (checkedErrno ret _); try discriminate.
      inversion Hrun; subst; exact Hb.
    + inversion Hrun; subst; exact Hb.
Qed.

Lemma pending_bytes_never_grow_or_underflow_witness :
  0 <= to_write ten_pending
  /\ exists r' ed',
       doWrite five_then_full accepted ten_pending = Done (r', ed')
       /\ 0 <= to_write ed' <= to_write ten_pending.
Proof.
  assert (Hw : 0 <= to_write ten_pending) by (cbn; lia).
  split; [exact Hw|].
  destruct (doWrite five_then_full accepted ten_pending)
    as [[r' ed']| | |] eqn:Hrun; try (vm_compute in Hrun; discriminate).
  exists r', ed'. split; [reflexivity|].
  exact (pending_bytes_never_grow_or_underflow five_then_full accepted r'
           ten_pending ed' Hw Hrun).
Defined.

(** X19. A [send] that fails with anything but [EAGAIN] ends [doWrite]
    at once with nothing pending: the reply bytes still owed are dropped
    ([to_write = 0]), write interest is taken off the descriptor if it
    was armed, and no further [send] is tried. *)
Theorem failed_send_drops_the_pending_reply
    (s : sent) (rest : list sent) (r : EPollRunner) (ed : EPollData) :
  live r ed -> to_write ed <> 0 -> res s < 0 -> errno s <> EAGAIN ->
  exists r',
    doWrite (s :: rest) r ed = Done (r', mkData (type ed) (fd ed) 0 false)
    /\ armed r' (fd ed) = false.
Proof.
  intros [[ev Hev] Harmed] Hw Hres Herr. unfold doWrite. cbn [write_loop].
  replace (to_write ed =? 0) with false by (symmetry; apply Z.eqb_neq; exact Hw).
  replace (errno s =? EAGAIN) with false
    by (symmetry; apply Z.eqb_neq; exact Herr).
  rewrite andb_false_r.
  replace (res s <? 0) with true by (symmetry; apply Z.ltb_lt; exact Hres).
  rewrite write_loop_nothing. change (0 =? 0) with true.
  rewrite andb_true_r. cbn [negb]. rewrite andb_false_r.
  unfold epoll_ctl_mod. rewrite Hev.
  destruct (write_in_epoll ed) eqn:Hwe.
  - cbn. eexists. split; [reflexivity|].
    apply armed_after_mod. rewrite Hev. eauto.
  - exists r. split; [reflexivity | exact Harmed].
Qed.

Lemma failed_send_drops_the_pending_reply_witness :
  live accepted ten_pending /\ to_write ten_pending <> 0
  /\ exists r',
       doWrite broken_pipe accepted ten_pending
       = Done (r', mkData 0 7 0 false).
Proof.
  assert (Hlive : live accepted ten_pending).
  { split; [vm_compute; eauto | vm_compute; reflexivity]. }
  assert (Hw : to_write ten_pending <> 0) by (cbn; lia).
  split; [exact Hlive|]. split; [exact Hw|].
  destruct (failed_send_drops_the_pending_reply (mkSent (-1) 32) []
              accepted ten_pending Hlive Hw ltac:(cbn; lia)
              ltac:(cbn; unfold EAGAIN; lia)) as (r' & H1 & _).
  exists r'. exact H1.
Defined.

(** X20. [doWrite] either leaves the registration of the descriptor as
    it is (then [write_in_epoll] is unchanged too), or flips
    [write_in_epoll] and registers the descriptor anew with a mask that
    has [EPOLLIN] but not [EPOLLET]: the edge triggering that [doAccept]
    asked for ([EPOLLIN | EPOLLET]) is gone from the first change of
    write interest on. *)
Theorem changing_write_interest_drops_edge_triggering
    (sends : list sent) (r r' : EPollRunner) (ed ed' : EPollData) :
  live r ed -> doWrite sends r ed = Done (r', ed') ->
  (write_in_epoll ed' = write_in_epoll ed /\ r' = r)
  \/ (write_in_epoll ed' = negb (write_in_epoll ed)
      /\ exists ev,
           interest r' !! fd ed = Some ev
           /\ Z.land ev EPOLLIN = EPOLLIN /\ Z.land ev EPOLLET = 0).
Proof.
  intros [[ev Hev] Harmed] Hrun. unfold doWrite, epoll_ctl_mod in Hrun.
  destruct (write_loop sends (to_write ed)) as [pending| | |];
    try discriminate.
  rewrite Hev in Hrun.
  destruct (write_in_epoll ed) eqn:Hw; destruct (pending =? 0) eqn:Hp;
    cbn in Hrun; inversion Hrun; subst; clear Hrun;
    cbn [write_in_epoll interest].
  - right. split; [reflexivity|]. eexists.
    rewrite lookup_insert_eq. split; [reflexivity|]. split; reflexivity.
  - left. split; reflexivity.
  - left. split; reflexivity.
  - right. split; [reflexivity|]. eexists.
    rewrite lookup_insert_eq. split; [reflexivity|]. split; reflexivity.
Qed.

Lemma changing_write_interest_drops_edge_triggering_witness :
  live accepted ten_pending
  /\ interest accepted !! 7 = Some (Z.lor EPOLLIN EPOLLET)
  /\ exists r' ed' ev,
       doWrite five_then_full accepted ten_pending = Done (r', ed')
       /\ interest r' !! 7 = Some ev /\ Z.land ev EPOLLET = 0.
Proof.
  assert (Hlive : live accepted ten_pending).
  { split; [vm_compute; eauto | vm_compute; reflexivity]. }
  split; [exact Hlive|]. split; [reflexivity|].
  destruct (doWrite five_then_full accepted ten_pending)
    as [[r' ed']| | |] eqn:Hrun; try (vm_compute in Hrun; discriminate).
  destruct (changing_write_interest_drops_edge_triggering five_then_full
              accepted r' ten_pending ed' Hlive Hrun)
    as [[Hsame _]|[_ (ev & Hev & _ & Het)]].
  - exfalso. vm_compute in Hrun. inversion Hrun; subst.
    cbn in Hsame. discriminate.
  - exists r', ed', ev. split; [reflexivity|]. split; [exact Hev | exact Het].
Defined.

End EpollFacts.

(** ** The read completions of the ring engine *)

Module RingEngineFacts.
Import RingEngine.

(** A read completion with [-ENOBUFS] ends [processRead] in [die]. *)
Lemma processRead_enobufs (c : completion) (r : IOUringRunner) :
  res (cqe c) = - ENOBUFS ->
  processRead c r = (Died (enobufs_diagnostic r), counted_enobufs r).
Proof.
  intros Hres. unfold processRead, sock_didRead, bind, get.
  rewrite Hres. reflexivity.
Qed.

(** C4. In the ring engine, when a read completion carries
    [res == -ENOBUFS] the engine reports a diagnostic and aborts: draining
    the ready completions stops at that one with the fatal diagnostic of
    [die], whatever completions follow it; no read (and nothing else) has
    been posted for the socket: the submission queue, [expected], the
    sockets and the buffer provider are as they were, only [enobuffCount_]
    has been incremented for the diagnostic. *)
Theorem enobufs_is_fatal
    (processAccept processClose : completion -> M unit)
    (c : completion) (rest : list completion) (reads : Z)
    (r : IOUringRunner) :
  get_tag (user_data (cqe c)) = kRead -> res (cqe c) = - ENOBUFS ->
  exists diag r',
    drain processAccept processClose (c :: rest) reads r = (Died diag, r')
    /\ diag = enobufs_diagnostic r
    /\ sq r' = sq r /\ expected r' = expected r /\ heap r' = heap r
    /\ buffers_ r' = buffers_ r
    /\ enobuffCount_ r' = u32 (enobuffCount_ r + 1).
Proof.
  intros Htag Hres.
  exists (enobufs_diagnostic r), (counted_enobufs r).
  split; [|repeat split].
  cbn [drain]. unfold bind at 1. unfold processCqe. rewrite Htag.
  change (kRead =? kAccept) with false. change (kRead =? kRead) with true.
  cbv iota. unfold bind at 1.
  rewrite (processRead_enobufs c r Hres). reflexivity.
Qed.

Lemma enobufs_is_fatal_witness :
  get_tag (user_data (cqe enobufs_completion)) = kRead
  /\ res (cqe enobufs_completion) = - ENOBUFS
  /\ exists diag r',
       drain no_handler no_handler [enobufs_completion; next_completion] 0
         one_sock = (Died diag, r')
       /\ sq r' = [] /\ enobuffCount_ r' = 1.
Proof.
  assert (H1 : get_tag (user_data (cqe enobufs_completion)) = kRead)
    by reflexivity.
  assert (H2 : res (cqe enobufs_completion) = - ENOBUFS) by reflexivity.
  split; [exact H1|]. split; [exact H2|].
  destruct (enobufs_is_fatal no_handler no_handler enobufs_completion
              [next_completion] 0 one_sock H1 H2)
    as (diag & r' & Hrun & _ & Hsq & _ & _ & _ & Hn).
  exists diag, r'. split; [exact Hrun|].
  split; [rewrite Hsq; reflexivity | rewrite Hn; reflexivity].
Defined.

(** Running engine code: the monad's operations and the field updates. *)
#[local] Ltac run_engine :=
  cbv beta iota zeta
    delta [bind get put ret lift when log sock_at store_sock set_heap
           set_buffers fill_sqe set_expected close_fd delSock didRead
           finishedRequests grow_sendBuff incr_enobuffCount isFixedFiles
           isMultiShotRecv];
  cbn [rxCfg_ expected stopping sq buffers_ enobuffCount_ requestsRx_
       bytesRx_ socks_ sendBuff_size heap closed_fds logged sq_entries
       submits].

(** *** Tagged addresses *)

Lemma low_bits (x : Z) : Z.land x 15 = x mod 16.
Proof. change 15 with (Z.ones 4). apply Z.land_ones. lia. Qed.

Lemma high_bits (x : Z) : Z.land x (Z.lnot 15) = 16 * (x / 16).
Proof.
  change 15 with (Z.ones 4). rewrite SharedPoolFacts.align_down by lia.
  reflexivity.
Qed.

(** An address that [untag] gives has no kind in it. *)
Lemma untag_low (u : Z) : Z.land (untag u) 15 = 0.
Proof.
  unfold untag. rewrite <- Z.land_assoc, (Z.land_comm (Z.lnot 15)).
  rewrite Z.land_lnot_diag. apply Z.land_0_r.
Qed.

(** [tag] on an aligned address and one of the kinds it accepts. *)
Lemma tag_aligned (ptr x : Z) :
  Z.land ptr 15 = 0 -> 0 <= x <= 4 -> tag ptr x = Done (Z.lor ptr x).
Proof.
  intros Hp Hx. unfold tag. rewrite Hp. cbn [Z.eqb negb].
  replace (4 <? x) with false by (symmetry; apply Z.ltb_ge; lia).
  unfold u64. rewrite Z.mod_small by lia. reflexivity.
Qed.

(** X21. Tagging round trip, in a build with the checks of [tag]: for the
    address of a 16-byte aligned object and a kind from 0 to 4 (the engine
    uses 0 to 3) [tag] returns, [untag] gives the address back and
    [get_tag] the kind, so a completion leads back to the object and the
    handler its submission named. *)
Theorem tag_round_trip (ptr x : Z) :
  ptr mod 16 = 0 -> 0 <= x <= 4 ->
  exists v, tag ptr x = Done v /\ untag v = ptr /\ get_tag v = x.
Proof.
  intros Hp Hx. exists (Z.lor ptr x).
  split; [apply tag_aligned; [rewrite low_bits; exact Hp | exact Hx]|].
  unfold untag, get_tag.
  rewrite !Z.land_lor_distr_l, !low_bits, !high_bits, Hp.
  rewrite (Z.mod_small x) by lia. rewrite (Z.div_small x) by lia.
  rewrite Z.mul_0_r, Z.lor_0_r, Z.lor_0_l. split; [|reflexivity].
  Z.div_mod_to_equations. lia.
Qed.

Lemma tag_round_trip_witness :
  4096 mod 16 = 0 /\ 0 <= kWrite <= 4
  /\ exists v, tag 4096 kWrite = Done v /\ untag v = 4096
               /\ get_tag v = kWrite.
Proof.
  assert (H1 : 4096 mod 16 = 0) by reflexivity.
  assert (H2 : 0 <= kWrite <= 4) by (unfold kWrite; lia).
  split; [exact H1|]. split; [exact H2|].
  exact (tag_round_trip 4096 kWrite H1 H2).
Defined.

(** *** Closing

    A read completion that carries no data and is not [-ENOBUFS], without
    fixed files: the descriptor is closed and the socket object deleted
    at once. *)
Lemma processRead_closes (c : completion) (r : IOUringRunner) (s : BasicSock) :
  fixed_files (rxCfg_ r) = false ->
  heap r !! untag (user_data (cqe c)) = Some s ->
  res (cqe c) <= 0 -> res (cqe c) <> - ENOBUFS ->
  exists r',
    processRead c r = (Done tt, r')
    /\ heap r' = delete (untag (user_data (cqe c))) (heap r)
    /\ closed_fds r' = closed_fds r ++ [fd_ s]
    /\ socks_ r' = socks_ r - 1
    /\ sq r' = sq r /\ expected r' = expected r
    /\ buffers_ r' = buffers_ r /\ rxCfg_ r' = rxCfg_ r.
Proof.
  intros Hfixed Hheap Hres Hne.
  unfold processRead, sock_didRead.
  unfold bind at 1. unfold bind at 1. unfold get at 1. cbv beta iota.
  replace (res (cqe c) <=? 0) with true by (symmetry; apply Z.leb_le; lia).
  unfold ret at 1. cbv beta iota. cbn [recycleBufferIdx amount].
  change (0 <? -1) with false. unfold when at 1.
  unfold bind at 1. unfold ret at 1. cbv beta iota.
  replace (0 <? res (cqe c)) with false by (symmetry; apply Z.ltb_ge; lia).
  replace (res (cqe c) =? - ENOBUFS) with false
    by (symmetry; apply Z.eqb_neq; exact Hne).
  unfold bind at 1. unfold get at 1. cbv beta iota.
  unfold bind at 1.
  destruct ((res (cqe c) <? 0) && negb (stopping r)
            && negb (res (cqe c) =? - ECONNRESET));
    run_engine; rewrite Hfixed; run_engine; rewrite Hheap; run_engine;
    (eexists; split; [reflexivity|]; cbn; auto 10).
Qed.

(** X22. Without fixed files a read completion with [res <= 0] (end of
    stream, or an error other than [-ENOBUFS]) closes the descriptor and
    deletes the socket object at once; a completion of a failed send for
    the same socket that is processed after it makes [processCqe] read
    [closing()] through the pointer of the deleted object: the run leaves
    the objects it owns. *)
Theorem failed_send_after_close_reads_a_freed_socket
    (processAccept processClose : completion -> M unit)
    (c1 c2 : completion) (rest : list completion) (reads : Z)
    (r : IOUringRunner) (s : BasicSock) :
  fixed_files (rxCfg_ r) = false ->
  get_tag (user_data (cqe c1)) = kRead ->
  get_tag (user_data (cqe c2)) = kWrite ->
  untag (user_data (cqe c2)) = untag (user_data (cqe c1)) ->
  heap r !! untag (user_data (cqe c1)) = Some s ->
  res (cqe c1) <= 0 -> res (cqe c1) <> - ENOBUFS -> res (cqe c2) < 0 ->
  exists r',
    drain processAccept processClose (c1 :: c2 :: rest) reads r
    = (OutOfBounds, r')
    /\ heap r' = delete (untag (user_data (cqe c1))) (heap r)
    /\ closed_fds r' = closed_fds r ++ [fd_ s].
Proof.
  intros Hfixed Ht1 Ht2 Hsame Hheap Hres1 Hne Hres2.
  destruct (processRead_closes c1 r s Hfixed Hheap Hres1 Hne)
    as (r1 & Hrun & Hh & Hc & _).
  exists r1. split; [|split; assumption].
  cbn [drain]. unfold bind at 1. unfold processCqe at 1. rewrite Ht1.
  change (kRead =? kAccept) with false. change (kRead =? kRead) with true.
  cbv iota. unfold bind at 1. rewrite Hrun. unfold ret at 1. cbv beta iota.
  unfold bind at 1. unfold processCqe at 1. rewrite Ht2.
  change (kWrite =? kAccept) with false. change (kWrite =? kRead) with false.
  change (kWrite =? kWrite) with true. cbv iota.
  replace (res (cqe c2) <? 0) with true by (symmetry; apply Z.ltb_lt; lia).
  unfold bind at 1. unfold bind at 1. unfold sock_at at 1.
  unfold bind at 1. unfold get at 1. cbv beta iota.
  rewrite Hsame, Hh, lookup_delete_eq. reflexivity.
Qed.

Lemma failed_send_after_close_reads_a_freed_socket_witness :
  fixed_files (rxCfg_ plain_sock) = false
  /\ get_tag (user_data (cqe eof_completion)) = kRead
  /\ get_tag (user_data (cqe failed_send_completion)) = kWrite
  /\ res (cqe eof_completion) <= 0 /\ res (cqe failed_send_completion) < 0
  /\ exists r',
       drain no_handler no_handler [eof_completion; failed_send_completion] 0
         plain_sock = (OutOfBounds, r')
       /\ closed_fds r' = [5].
Proof.
  split; [reflexivity|]. split; [reflexivity|]. split; [reflexivity|].
  split; [cbn; lia|]. split; [cbn; lia|].
  destruct (failed_send_after_close_reads_a_freed_socket no_handler no_handler
              eof_completion failed_send_completion [] 0 plain_sock
              (mkSock 5 (Parser.fresh Parser.zeroed) Parser.no_results false))
    as (r' & H1 & _ & H3); try reflexivity; try (cbn; lia).
  - cbn. unfold ENOBUFS. lia.
  - exists r'. split; [exact H1 | exact H3].
Defined.

(** *** What [processRead] does to the provider *)

Lemma keeps_ret {A : Type} (a : A) : keeps_buffers (ret a).
Proof. intros r. reflexivity. Qed.

Lemma keeps_lift {A : Type} (o : outcome A) : keeps_buffers (lift o).
Proof. intros r. reflexivity. Qed.

Lemma keeps_get : keeps_buffers get.
Proof. intros r. reflexivity. Qed.

Lemma keeps_bind_post {A B : Type} (P : A -> Prop) (m : M A) (k : A -> M B) :
  (forall r a r', m r = (Done a, r') -> P a) ->
  keeps_buffers m -> (forall a, P a -> keeps_buffers (k a)) ->
  keeps_buffers (bind m k).
Proof.
  intros HP Hm Hk r. unfold bind. specialize (Hm r).
  destruct (m r) as [[a|d| |] r'] eqn:Hrun; cbn [snd] in *; try exact Hm.
  rewrite (Hk a (HP r a r' Hrun) r'). exact Hm.
Qed.

Lemma keeps_bind {A B : Type} (m : M A) (k : A -> M B) :
  keeps_buffers m -> (forall a, keeps_buffers (k a)) ->
  keeps_buffers (bind m k).
Proof.
  intros Hm Hk. apply (keeps_bind_post (fun _ => True)); auto.
Qed.

Lemma keeps_when (b : bool) (m : M unit) :
  keeps_buffers m -> keeps_buffers (when b m).
Proof. intros Hm. destruct b; [exact Hm | apply keeps_ret]. Qed.

Lemma keeps_fill_sqe (e : io_uring_sqe) : keeps_buffers (fill_sqe e).
Proof. intros r. reflexivity. Qed.

Lemma keeps_set_expected (n : Z) : keeps_buffers (set_expected n).
Proof. intros r. reflexivity. Qed.

Lemma keeps_io_uring_submit : keeps_buffers io_uring_submit.
Proof.
  intros r. unfold io_uring_submit, bind, get.
  destruct (submits r); reflexivity.
Qed.

Lemma keeps_set_heap (h : gmap Z BasicSock) : keeps_buffers (set_heap h).
Proof. intros r. reflexivity. Qed.

Lemma keeps_incr_enobuffCount : keeps_buffers incr_enobuffCount.
Proof. intros r. reflexivity. Qed.

Lemma keeps_finishedRequests (n : Z) : keeps_buffers (finishedRequests n).
Proof. intros r. reflexivity. Qed.

Lemma keeps_didRead (x : Z) : keeps_buffers (didRead x).
Proof. intros r. reflexivity. Qed.

Lemma keeps_delSock : keeps_buffers delSock.
Proof. intros r. reflexivity. Qed.

Lemma keeps_grow_sendBuff (len : Z) : keeps_buffers (grow_sendBuff len).
Proof. intros r. reflexivity. Qed.

Lemma keeps_close_fd (fd : Z) : keeps_buffers (close_fd fd).
Proof. intros r. reflexivity. Qed.

Lemma keeps_log (l : list item) : keeps_buffers (log l).
Proof. intros r. reflexivity. Qed.

Lemma keeps_sock_at (ptr : Z) : keeps_buffers (sock_at ptr).
Proof. intros r. unfold sock_at, bind, get. destruct (heap r !! ptr); reflexivity. Qed.

Lemma keeps_store_sock (ptr : Z) (s : BasicSock) :
  keeps_buffers (store_sock ptr s).
Proof. intros r. reflexivity. Qed.

Create HintDb keeps.
#[local] Hint Resolve keeps_ret keeps_lift keeps_get keeps_fill_sqe
  keeps_set_expected keeps_io_uring_submit keeps_set_heap
  keeps_incr_enobuffCount keeps_finishedRequests keeps_didRead keeps_delSock
  keeps_grow_sendBuff keeps_close_fd keeps_log keeps_sock_at keeps_store_sock
  : keeps.

#[local] Ltac keeps :=
  repeat first
    [ progress auto with keeps
    | apply keeps_bind; [|intros ?]
    | apply keeps_when
    | match goal with
      | |- keeps_buffers (if ?b then _ else _) => destruct b
      | |- keeps_buffers (match ?x with _ => _ end) => destruct x
      | |- keeps_buffers (let '(_, _) := ?x in _) => destruct x
      end ].

Lemma keeps_submit_loop (fuel : nat) : keeps_buffers (submit_loop fuel).
Proof.
  induction fuel as [|fuel IH]; cbn [submit_loop]; unfold die; keeps.
Qed.

Lemma keeps_get_sqe : keeps_buffers get_sqe.
Proof.
  pose proof keeps_submit_loop. unfold get_sqe, submit. keeps.
Qed.

Lemma keeps_sock_consume (ptr : Z) (mem : list byte) (data n : Z) :
  keeps_buffers (sock_consume ptr mem data n).
Proof. unfold sock_consume. keeps. Qed.

Lemma keeps_sock_didRead (ptr : Z) (c : completion) :
  keeps_buffers (sock_didRead ptr c).
Proof.
  pose proof keeps_sock_consume. unfold sock_didRead.
  apply keeps_bind; [auto with keeps|]. intros r. cbv zeta. unfold die. keeps.
Qed.

Lemma keeps_addRead (ptr : Z) : keeps_buffers (addRead ptr).
Proof. pose proof keeps_get_sqe. unfold addRead. keeps. Qed.

Lemma keeps_addSend (ptr len : Z) : keeps_buffers (addSend ptr len).
Proof. pose proof keeps_get_sqe. unfold addSend. cbv zeta. keeps. Qed.

Lemma keeps_didSend (ptr : Z) : keeps_buffers (didSend ptr).
Proof. unfold didSend. keeps. Qed.

(** The index [didRead] asks to recycle is the one of the completion, or
    none. *)
Lemma sock_didRead_idx (ptr : Z) (c : completion) (r r' : IOUringRunner)
    (got : DidReadResult) :
  sock_didRead ptr c r = (Done got, r') ->
  recycleBufferIdx got = -1
  \/ recycleBufferIdx got = providedBufferIdx (cqe c).
Proof.
  unfold sock_didRead. unfold bind at 1. unfold get at 1. cbv beta iota zeta.
  destruct (res (cqe c) <=? 0); [intros H; inversion H; auto|].
  destruct (negb (kUseBufferProviderVersion r =? 0)).
  - destruct (negb (hasData _ _)); [discriminate|].
    destruct (isMultiShotRecv r && recvmsg (rxCfg_ r)).
    + destruct (_ <? 0); [discriminate|].
      destruct (recvmsg_out c) as [[payload len]|].
      * unfold bind. destruct (sock_consume _ _ _ _ r) as [[[]| | |] r1];
          try discriminate. intros H; inversion H; auto.
      * intros H; inversion H; auto.
    + unfold bind. destruct (sock_consume _ _ _ _ r) as [[[]| | |] r1];
        try discriminate. intros H; inversion H; auto.
  - unfold bind. destruct (sock_consume _ _ _ _ r) as [[[]| | |] r1];
      try discriminate. intros H; inversion H; auto.
Qed.

(** X23. [processRead] gives a provided buffer back only if its index is
    above 0 ([if (res.recycleBufferIdx > 0)]): after a completion whose
    buffer id is 0, as after one without a buffer, the provider is exactly
    as before, whatever else the handler does; the buffer with id 0 is
    handed to the kernel once and never again. *)
Theorem buffer_zero_is_never_given_back (c : completion) (r : IOUringRunner) :
  providedBufferIdx (cqe c) <= 0 ->
  buffers_ (snd (processRead c r)) = buffers_ r.
Proof.
  intros Hidx. revert r. change (keeps_buffers (processRead c)).
  pose proof keeps_addRead. pose proof keeps_addSend. pose proof keeps_didSend.
  pose proof keeps_get_sqe. unfold processRead. cbv zeta.
  apply (keeps_bind_post (fun got => recycleBufferIdx got <= 0)).
  - intros r got r' Hrun.
    destruct (sock_didRead_idx _ _ _ _ _ Hrun) as [-> | ->]; lia.
  - apply keeps_sock_didRead.
  - intros got Hgot.
    replace (0 <? recycleBufferIdx got) with false
      by (symmetry; apply Z.ltb_ge; exact Hgot).
    unfold die. keeps.
Qed.

Lemma buffer_zero_is_never_given_back_witness :
  providedBufferIdx (cqe buffer_zero_completion) <= 0
  /\ fst (processRead buffer_zero_completion one_sock) = Done tt
  /\ buffers_ (snd (processRead buffer_zero_completion one_sock))
     = buffers_ one_sock.
Proof.
  assert (Hidx : providedBufferIdx (cqe buffer_zero_completion) <= 0)
    by (vm_compute; discriminate).
  split; [exact Hidx|]. split; [vm_compute; reflexivity|].
  exact (buffer_zero_is_never_given_back buffer_zero_completion one_sock Hidx).
Defined.

(** *** Publishing the free list *)

(** With room in the submission queue [get_sqe] only counts the entry it
    hands out. *)
Lemma get_sqe_room (r : IOUringRunner) :
  sq_full r = false ->
  get_sqe r
  = (Done tt,
     mkRunner (rxCfg_ r) (expected r + 1) (stopping r) (sq r) (buffers_ r)
       (enobuffCount_ r) (requestsRx_ r) (bytesRx_ r) (socks_ r)
       (sendBuff_size r) (heap r) (closed_fds r) (logged r) (sq_entries r)
       (submits r)).
Proof.
  intros Hroom. unfold get_sqe. unfold bind at 1. unfold get at 1.
  cbv beta iota. unfold bind at 1. rewrite Hroom. reflexivity.
Qed.

Lemma room_for (r : IOUringRunner) (n : nat) :
  Z.of_nat (length (sq r) + S n) <= sq_entries r -> sq_full r = false.
Proof. intros H. unfold sq_full. apply Z.leb_gt. lia. Qed.

(** The loop of [provideBuffers] pops the whole free list, last range
    first, when the submission queue has room for it. *)
Lemma provide_loop_all (l : list ClassicPool.Range) :
  forall (b : ClassicPool.BufferProviderV1) (r : IOUringRunner) (fuel : nat),
    buffers_ r = Classic b -> ClassicPool.toProvide_ b = l ->
    ClassicPool.kept b -> (length l <= fuel)%nat ->
    Z.of_nat (length (sq r) + length l) <= sq_entries r ->
    exists r',
      provide_loop fuel r = (Done tt, r')
      /\ buffers_ r' = Classic (ClassicPool.with_free b 0 [])
      /\ sq r'
         = sq r ++ map (provide_sqe (ClassicPool.sizePerBuffer_ b)) (rev l)
      /\ expected r' = expected r + Z.of_nat (length l)
      /\ rxCfg_ r' = rxCfg_ r /\ heap r' = heap r
      /\ submits r' = submits r /\ sq_entries r' = sq_entries r.
Proof.
  induction l as [|x front IH] using rev_ind; intros b r fuel Hb Hl Hc Hf Hroom.
  - exists r.
    assert (Hrun : provide_loop fuel r = (Done tt, r)).
    { destruct fuel; cbn [provide_loop]; unfold bind, get; cbv beta iota;
        rewrite Hb; unfold ClassicPool.canProvide; rewrite Hl; reflexivity. }
    split; [exact Hrun|]. cbn [rev map length].
    rewrite app_nil_r, Z.add_0_r. split; [|auto 10].
    rewrite Hb. f_equal.
    destruct Hc as (_ & _ & Hsum). rewrite Hl in Hsum. cbn in Hsum.
    destruct b; cbn in *; subst; reflexivity.
  - rewrite length_app in Hf, Hroom. cbn [length] in Hf, Hroom.
    destruct fuel as [|fuel]; [lia|].
    destruct (ClassicPoolFacts.provide_last b front x Hc Hl)
      as (Hp & _ & _ & Hc2).
    cbn [provide_loop]. unfold bind at 1. unfold get at 1. cbv beta iota.
    rewrite Hb. unfold ClassicPool.canProvide. rewrite Hl, length_app.
    cbn [length]. replace (length front + 1 =? 0)%nat with false
      by (symmetry; apply Nat.eqb_neq; lia).
    cbn [negb]. rewrite Hp.
    match goal with |- context [ClassicPool.with_free b ?n front] =>
      set (b2 := ClassicPool.with_free b n front) in * end.
    unfold bind at 1.
    rewrite (get_sqe_room r) by (apply (room_for r (length front)); lia).
    run_engine.
    match goal with |- context [provide_loop fuel ?r2] =>
      destruct (IH b2 r2 fuel) as (r' & H1 & H2 & H3 & H4 & H5 & H6 & H7 & H8)
    end; try reflexivity; try assumption; try lia.
    { cbn [sq sq_entries]. rewrite length_app. cbn [length]. lia. }
    exists r'. split; [exact H1|].
    cbn [rxCfg_ expected sq heap submits sq_entries] in H3, H4, H5, H6, H7, H8.
    split; [rewrite H2; reflexivity|]. split.
    + rewrite H3, rev_unit, <- app_assoc. reflexivity.
    + split; [rewrite H4, ?length_app; cbn [length]; lia | auto 10].
Qed.

(** X24. [provideBuffers(true)] with the classic provider of a pool of 1
    to 65535 buffers, in whatever state the constructor, [returnIndex]
    with indices of the pool, [compact] and [provide] have left it, and
    with room in the submission queue for one entry per range: after the
    optional [compact], one entry is queued per range of the free list,
    the last range first, each a [provide_buffers] for that range with
    [IOSQE_CQE_SKIP_SUCCESS] and no user data; [expected] grows by the
    number of ranges, nothing is submitted on the way, and the free list
    is left empty with [toProvideCount_ = 0]. *)
Theorem provideBuffers_publishes_every_free_range
    (r : IOUringRunner) (ops : list ClassicPool.operation)
    (b : ClassicPool.BufferProviderV1) :
  kUseBufferProviderVersion r = 1 -> buffers_ r = Classic b ->
  1 <= provided_buffer_count (rxCfg_ r) <= 65535 ->
  Forall (ClassicPool.in_pool (provided_buffer_count (rxCfg_ r))) ops ->
  ClassicPool.run (ClassicPool.create (rxCfg_ r)) ops = Some b ->
  let bc := if provided_buffer_compact (rxCfg_ r) =? 0 then b
            else ClassicPool.compact b in
  Z.of_nat (length (sq r) + length (ClassicPool.toProvide_ bc))
  <= sq_entries r ->
  exists r',
    provideBuffers true r = (Done tt, r')
    /\ buffers_ r' = Classic (ClassicPool.with_free bc 0 [])
    /\ sq r' = sq r ++ map (provide_sqe (ClassicPool.sizePerBuffer_ b))
                         (rev (ClassicPool.toProvide_ bc))
    /\ expected r'
       = expected r + Z.of_nat (length (ClassicPool.toProvide_ bc))
    /\ submits r' = submits r.
Proof.
  intros Hv Hb Hcount Hin Hrun bc Hroom.
  pose proof (ClassicPoolFacts.created_kept _ _ _ Hcount Hin Hrun) as Hc.
  assert (Hcc : ClassicPool.kept bc).
  { subst bc. destruct (_ =? 0); [exact Hc|].
    apply ClassicPoolFacts.compact_kept. exact Hc. }
  assert (Hsz : ClassicPool.sizePerBuffer_ bc = ClassicPool.sizePerBuffer_ b).
  { subst bc. destruct (_ =? 0); [reflexivity|].
    apply ClassicPoolFacts.compact_size. }
  unfold provideBuffers. unfold bind at 1. unfold get at 1. cbv beta iota.
  rewrite Hv. change (negb (1 =? 1)) with false. cbv iota.
  cbn [orb negb]. rewrite Hb.
  set (r1 := mkRunner (rxCfg_ r) (expected r) (stopping r) (sq r)
               (Classic bc) (enobuffCount_ r) (requestsRx_ r) (bytesRx_ r)
               (socks_ r) (sendBuff_size r) (heap r) (closed_fds r)
               (logged r) (sq_entries r) (submits r)).
  destruct (provide_loop_all (ClassicPool.toProvide_ bc) bc r1
              (length (ClassicPool.toProvide_ bc)) eq_refl eq_refl Hcc
              ltac:(lia) Hroom) as (r' & H1 & H2 & H3 & H4 & _ & _ & H7 & _).
  exists r'. rewrite Hsz in H3. split; [|auto 10].
  rewrite <- H1. subst bc r1.
  destruct (provided_buffer_compact (rxCfg_ r) =? 0); cbn [negb].
  - unfold bind, ret, get. cbv beta iota. rewrite Hb.
    destruct r; cbn in *; subst; reflexivity.
  - unfold bind, set_buffers, get, put. cbv beta iota.
    cbn [buffers_]. reflexivity.
Qed.

Lemma provideBuffers_publishes_every_free_range_witness :
  kUseBufferProviderVersion classic_runner = 1
  /\ 1 <= provided_buffer_count (rxCfg_ classic_runner) <= 65535
  /\ ClassicPool.run (ClassicPool.create (rxCfg_ classic_runner)) []
     = Some (ClassicPool.create ClassicPool.cfg_of_four)
  /\ exists r',
       provideBuffers true classic_runner = (Done tt, r')
       /\ sq r' = [provide_sqe 4096 (ClassicPool.mkRange 0 4)]
       /\ expected r' = 1.
Proof.
  assert (Hv : kUseBufferProviderVersion classic_runner = 1) by reflexivity.
  assert (Hc : 1 <= provided_buffer_count (rxCfg_ classic_runner) <= 65535)
    by (cbn; lia).
  split; [exact Hv|]. split; [exact Hc|]. split; [reflexivity|].
  destruct (provideBuffers_publishes_every_free_range classic_runner [] _ Hv
              eq_refl Hc ltac:(constructor) eq_refl)
    as (r' & H1 & _ & H3 & H4 & _).
  - vm_compute. discriminate.
  - exists r'. split; [exact H1|]. split; [exact H3 | exact H4].
Defined.

#[local] Ltac take_sqe :=
  rewrite get_sqe_room
    by (unfold sq_full; cbn [sq sq_entries]; rewrite ?length_app;
        cbn [length]; apply Z.leb_gt; lia);
  run_engine.

(** *** The answering path *)

(** X25. The answering path of [processRead], without buffer provider
    and with room for two entries in the submission queue: a read
    completion with [res > 0] (and no [IORING_CQE_F_MORE]) whose bytes the
    parser takes, and after which reply bytes are owed, queues exactly two
    submissions, in this order: one [send] of all reply bytes owed (as a
    [uint32_t]) tagged [kWrite], and the next read tagged [kRead]; nothing
    is submitted on the way; the socket's [do_send] is cleared,
    [requestsRx_] grows by the frames counted in [do_send] (as an [int])
    and [bytesRx_] by [res]. *)
Theorem read_completion_queues_one_reply
    (c : completion) (r : IOUringRunner) (s : BasicSock)
    (consumed : Parser.ConsumeResults) (p' : Parser.ProtocolParser) :
  let sock := untag (user_data (cqe c)) in
  let sends := Parser.add_results (do_send s) consumed in
  let fixed := if fixed_files (rxCfg_ r) then IOSQE_FIXED_FILE else 0 in
  kUseBufferProviderVersion r = 0 -> heap r !! sock = Some s ->
  0 < res (cqe c) -> Z.land (flags (cqe c)) IORING_CQE_F_MORE = 0 ->
  Parser.consume (parser s) (buffer c) 0 (res (cqe c)) = Done (consumed, p') ->
  0 < Parser.to_write sends ->
  Z.of_nat (length (sq r)) + 2 <= sq_entries r ->
  exists r',
    processRead c r = (Done tt, r')
    /\ sq r'
       = sq r ++ [mkSqe (Send (fd_ s) (u32 (Parser.to_write sends))
                           MSG_WAITALL)
                    (Z.lor fixed (cqe_skip_success_flag (rxCfg_ r))) 0 0
                    (Z.lor sock kWrite);
                  mkSqe (if recvmsg (rxCfg_ r) then Recvmsg (fd_ s)
                         else Recv (fd_ s) (ReadSize r))
                    fixed 0 0 (Z.lor sock kRead)]
    /\ expected r' = expected r + 2
    /\ submits r' = submits r
    /\ heap r'
       = <[sock := mkSock (fd_ s) p' Parser.no_results (closed_ s)]> (heap r)
    /\ requestsRx_ r' = u64 (requestsRx_ r + as_int (Parser.count sends))
    /\ bytesRx_ r' = u64 (bytesRx_ r + res (cqe c))
    /\ buffers_ r' = buffers_ r.
Proof.
  intros sock sends fixed Hv Hheap Hres Hmore Hcons Hw Hroom.
  assert (Hno : negb (kUseBufferProviderVersion r =? 0) = false)
    by (rewrite Hv; reflexivity).
  assert (Htw : tag sock kWrite = Done (Z.lor sock kWrite))
    by (apply tag_aligned; [apply untag_low | unfold kWrite; lia]).
  assert (Htr : tag sock kRead = Done (Z.lor sock kRead))
    by (apply tag_aligned; [apply untag_low | unfold kRead; lia]).
  unfold processRead, sock_didRead, sock_consume, addSend, didSend, addRead.
  fold sock. run_engine.
  replace (res (cqe c) <=? 0) with false by (symmetry; apply Z.leb_gt; lia).
  rewrite Hno. run_engine. rewrite Hheap. run_engine. rewrite Hcons.
  run_engine. cbn [amount recycleBufferIdx]. change (0 <? -1) with false.
  replace (0 <? res (cqe c)) with true by (symmetry; apply Z.ltb_lt; lia).
  run_engine. rewrite lookup_insert_eq. run_engine.
  cbn [do_send fd_ parser closed_]. fold sends.
  replace (0 <? Parser.to_write sends) with true
    by (symmetry; apply Z.ltb_lt; lia).
  run_engine. take_sqe. rewrite lookup_insert_eq. run_engine.
  rewrite Htw. run_engine.
  cbn [do_send fd_ parser closed_]. rewrite lookup_insert_eq. run_engine.
  cbn [do_send fd_ parser closed_].
  rewrite Hmore. change (0 =? 0) with true. rewrite orb_true_r. run_engine.
  take_sqe.
  rewrite lookup_insert_eq. run_engine. rewrite Htr. run_engine.
  cbn [do_send fd_ parser closed_].
  fold fixed.
  repeat match goal with
         | |- context [kUseBufferProviderVersion ?x] =>
           lazymatch x with
           | r => fail
           | _ => change (kUseBufferProviderVersion x)
                    with (kUseBufferProviderVersion r)
           end
         | |- context [ReadSize ?x] =>
           lazymatch x with
           | r => fail
           | _ => change (ReadSize x) with (ReadSize r)
           end
         end.
  rewrite Hno.
  destruct (recvmsg (rxCfg_ r)); run_engine;
    (eexists; split; [reflexivity|]);
    cbn [sq expected heap requestsRx_ bytesRx_ buffers_ submits];
    rewrite !insert_insert_eq, <- app_assoc;
    (split; [reflexivity|]); (split; [lia|]); auto 10.
Qed.

Lemma read_completion_queues_one_reply_witness :
  kUseBufferProviderVersion plain_sock = 0
  /\ heap plain_sock !! untag (user_data (cqe one_frame_completion))
     = Some (mkSock 5 (Parser.fresh Parser.zeroed) Parser.no_results false)
  /\ 0 < res (cqe one_frame_completion)
  /\ Z.of_nat (length (sq plain_sock)) + 2 <= sq_entries plain_sock
  /\ exists r',
       processRead one_frame_completion plain_sock = (Done tt, r')
       /\ sq r' = [mkSqe (Send 5 1 MSG_WAITALL) 0 0 0 (Z.lor 4096 kWrite);
                   mkSqe (Recv 5 4096) 0 0 0 (Z.lor 4096 kRead)]
       /\ requestsRx_ r' = 1 /\ bytesRx_ r' = 9.
Proof.
  split; [reflexivity|]. split; [reflexivity|]. split; [cbn; lia|].
  split; [cbn; lia|].
  destruct (read_completion_queues_one_reply one_frame_completion plain_sock
              (mkSock 5 (Parser.fresh Parser.zeroed) Parser.no_results false)
              (Parser.mkResults 1 1) (Parser.fresh Parser.zeroed))
    as (r' & H1 & H2 & _ & _ & _ & H6 & H7 & _);
    try reflexivity; try (cbn; lia).
  exists r'. split; [exact H1|]. split; [exact H2|].
  split; [exact H6 | exact H7].
Defined.

(** *** A full submission queue *)

(** X29. [get_sqe] on a full submission queue, all of whose entries are
    counted in [expected], while the engine is not stopping: it calls
    [io_uring_submit] before it hands out an entry. If the kernel takes
    every entry, the queue is empty afterwards and [expected] is 1, for
    the entry handed out; if the kernel takes none, the run ends with
    "literally submitted nothing, wanted <expected>". *)
Theorem full_queue_is_submitted_first
    (r : IOUringRunner) (got : Z) (rest : list Z) :
  sq_full r = true -> 0 < sq_entries r ->
  expected r = Z.of_nat (length (sq r)) ->
  submits r = got :: rest -> stopping r = false ->
  (got = expected r ->
   exists r',
     get_sqe r = (Done tt, r')
     /\ sq r' = [] /\ expected r' = 1 /\ submits r' = rest
     /\ heap r' = heap r /\ buffers_ r' = buffers_ r)
  /\ (got = 0 ->
      exists r',
        get_sqe r
        = (Died [Txt "literally submitted nothing, wanted ";
                 Num (expected r)], r')
        /\ expected r' = expected r /\ submits r' = rest).
Proof.
  intros Hfull Hpos Hexp Hsub Hstop.
  assert (Hlen : sq_entries r <= Z.of_nat (length (sq r)))
    by (apply Z.leb_le; exact Hfull).
  assert (Hne : (expected r =? 0) = false)
    by (apply Z.eqb_neq; lia).
  split; intros Hgot.
  - unfold get_sqe. unfold bind at 1. unfold get at 1. cbv beta iota.
    rewrite Hfull. unfold submit. run_engine. rewrite Hsub. cbn [length].
    cbn [submit_loop]. run_engine. rewrite Hne.
    unfold io_uring_submit. run_engine. rewrite Hsub. run_engine.
    replace (got =? expected r) with true by (symmetry; apply Z.eqb_eq; exact Hgot).
    cbn [negb andb]. run_engine.
    replace (expected r - got) with 0 by lia.
    assert (Hdone : forall (fuel : nat) (x : IOUringRunner),
              expected x = 0 -> submit_loop fuel x = (Done tt, x)).
    { intros fuel x Hx. destruct fuel; cbn [submit_loop]; run_engine;
        rewrite Hx; reflexivity. }
    rewrite Hdone by reflexivity. cbv beta iota. run_engine.
    replace (drop (Z.to_nat got) (sq r)) with (@nil io_uring_sqe)
      by (symmetry; apply drop_ge; lia).
    unfold sq_full. cbn [sq sq_entries length].
    replace (sq_entries r <=? Z.of_nat 0) with false
      by (symmetry; apply Z.leb_gt; lia).
    run_engine. eexists. split; [reflexivity|]. cbn. auto 10.
  - unfold get_sqe. unfold bind at 1. unfold get at 1. cbv beta iota.
    rewrite Hfull. unfold submit. run_engine. rewrite Hsub. cbn [length].
    cbn [submit_loop]. run_engine. rewrite Hne.
    unfold io_uring_submit. run_engine. rewrite Hsub. run_engine.
    rewrite Hstop. subst got. rewrite Z.eqb_sym, Hne.
    cbn [negb andb Z.eqb]. unfold die. run_engine.
    eexists. split; [reflexivity|]. cbn. auto.
Qed.

Lemma full_queue_is_submitted_first_witness :
  sq_full full_queue = true /\ 0 < sq_entries full_queue
  /\ expected full_queue = Z.of_nat (length (sq full_queue))
  /\ exists r',
       get_sqe full_queue = (Done tt, r')
       /\ sq r' = [] /\ expected r' = 1 /\ submits r' = [].
Proof.
  assert (H1 : sq_full full_queue = true) by reflexivity.
  assert (H2 : 0 < sq_entries full_queue) by (cbn; lia).
  assert (H3 : expected full_queue = Z.of_nat (length (sq full_queue)))
    by reflexivity.
  split; [exact H1|]. split; [exact H2|]. split; [exact H3|].
  destruct (proj1 (full_queue_is_submitted_first full_queue 2 [] H1 H2 H3
                     eq_refl eq_refl) eq_refl)
    as (r' & Hrun & Hsq & Hexp & Hsub & _).
  exists r'. auto.
Defined.

End RingEngineFacts.

(** ** The read path and the dispatch of the readiness engine *)

Module EpollLoopFacts.
Import EpollLoop.

(** Being live is a matter of the interest list alone. *)
Lemma live_same_entry (r1 r2 : Epoll.EPollRunner) (d1 d2 : Epoll.EPollData) :
  Epoll.fd d2 = Epoll.fd d1 ->
  Epoll.write_in_epoll d2 = Epoll.write_in_epoll d1 ->
  Epoll.interest r2 !! Epoll.fd d1 = Epoll.interest r1 !! Epoll.fd d1 ->
  Epoll.live r1 d1 -> Epoll.live r2 d2.
Proof.
  intros Hfd Hw Hi [Hs Ha]. unfold Epoll.live, Epoll.armed in *.
  rewrite Hfd, Hw, Hi. split; assumption.
Qed.

(** An engine stays sound when each of its connections was one before, on
    the same descriptor, and is live now. *)
Lemma sound_update (e e' : Engine) :
  sound e ->
  (forall ptr c', sockets_ e' !! ptr = Some c' ->
     exists c, sockets_ e !! ptr = Some c
               /\ Epoll.fd (ed c') = Epoll.fd (ed c)
               /\ Epoll.live (runner_of e') (ed c')) ->
  sound e'.
Proof.
  intros [_ Huniq] Hstep. split.
  - intros ptr c' Hc'. destruct (Hstep ptr c' Hc') as (c & _ & _ & Hl).
    exact Hl.
  - intros p1 p2 c1 c2 H1 H2 Hfd.
    destruct (Hstep p1 c1 H1) as (d1 & Hd1 & Hf1 & _).
    destruct (Hstep p2 c2 H2) as (d2 & Hd2 & Hf2 & _).
    apply (Huniq p1 p2 d1 d2 Hd1 Hd2). congruence.
Qed.

(** What [doWrite] does to the interest list: the entry of the
    connection's descriptor at most, and the connection stays live. *)
Lemma doWrite_keeps_live (sends : list Epoll.sent)
    (r r' : Epoll.EPollRunner) (d d' : Epoll.EPollData) :
  Epoll.live r d -> Epoll.doWrite sends r d = Done (r', d') ->
  Epoll.fd d' = Epoll.fd d /\ Epoll.live r' d'
  /\ forall fd', fd' <> Epoll.fd d ->
       Epoll.interest r' !! fd' = Epoll.interest r !! fd'.
Proof.
  intros [[ev Hev] Harmed] Hrun.
  unfold Epoll.doWrite, Epoll.epoll_ctl_mod in Hrun.
  destruct (Epoll.write_loop sends (Epoll.to_write d)) as [pending| | |];
    try discriminate.
  rewrite Hev in Hrun.
  destruct (Epoll.write_in_epoll d) eqn:Hw; destruct (pending =? 0) eqn:Hp;
    cbn in Hrun; inversion Hrun; subst; clear Hrun;
    (split; [reflexivity|]); unfold Epoll.live, Epoll.armed;
    cbn [Epoll.fd Epoll.write_in_epoll Epoll.interest].
  - rewrite lookup_insert_eq. split; [split; [eauto | reflexivity]|].
    intros fd' Hne. apply lookup_insert_ne. congruence.
  - unfold Epoll.armed in Harmed. rewrite Hev in *.
    split; [split; [eauto | exact Harmed]|]. reflexivity.
  - unfold Epoll.armed in Harmed. rewrite Hev in *.
    split; [split; [eauto | exact Harmed]|]. reflexivity.
  - rewrite lookup_insert_eq. split; [split; [eauto | reflexivity]|].
    intros fd' Hne. apply lookup_insert_ne. congruence.
Qed.

(** Giving a connection up keeps the others sound. *)
Lemma drop_socket_sound (e e' : Engine) (ptr ret : Z) (c : Conn) :
  sound e -> sockets_ e !! ptr = Some c ->
  drop_socket e ptr c = Done (ret, e') ->
  sound e' /\ ret = -1 /\ sockets_ e' = delete ptr (sockets_ e)
  /\ interest e' = delete (Epoll.fd (ed c)) (interest e).
Proof.
  intros Hs Hc Hrun. unfold drop_socket, epoll_ctl_del in Hrun.
  destruct (interest e !! Epoll.fd (ed c)) as [ev|] eqn:Hev;
    cbn in Hrun; [|discriminate].
  inversion Hrun; subst; clear Hrun. cbn [sockets_ interest].
  split; [|repeat split; reflexivity].
  apply (sound_update e); [exact Hs|]. cbn [sockets_].
  intros p c' Hc'. apply lookup_delete_Some in Hc' as [Hne Hc'].
  exists c'. split; [exact Hc'|]. split; [reflexivity|].
  destruct Hs as [Hlive Huniq].
  apply (live_same_entry (runner_of e) _ (ed c') (ed c'));
    [reflexivity | reflexivity | | exact (Hlive p c' Hc')].
  cbn [runner_of Epoll.interest interest]. apply lookup_delete_ne.
  intros Heq. apply Hne. exact (Huniq ptr p c c' Hc Hc' Heq).
Qed.

(** [doRead] keeps the engine sound; it returns 0 with the connection
    still there, or -1. *)
Lemma doRead_sound (recvs : list received) : forall (e e' : Engine) ptr ret,
  sound e -> doRead recvs e ptr = Done (ret, e') ->
  sound e' /\ (ret = 0 /\ is_Some (sockets_ e' !! ptr) \/ ret = -1).
Proof.
  induction recvs as [|a rest IH]; intros e e' ptr ret Hs Hrun;
    cbn [doRead] in Hrun;
    destruct (sockets_ e !! ptr) as [c|] eqn:Hc; try discriminate.
  destruct (res a <=? 0).
  - destruct ((res a <? 0) && (errno a =? Epoll.EAGAIN)).
    + inversion Hrun; subst. split; [exact Hs|]. left.
      rewrite Hc. eauto.
    + destruct (drop_socket_sound e e' ptr ret c Hs Hc Hrun)
        as (Hs' & Hret & _). split; [exact Hs' | right; exact Hret].
  - destruct (Parser.consume _ _ _ _) as [[consumed p']| | |];
      try discriminate.
    match type of Hrun with
    | (if _ then doRead rest ?e1 ptr else _) = _ =>
      assert (Hs1 : sound e1 /\ is_Some (sockets_ e1 !! ptr))
    end.
    { split.
      - apply (sound_update e); [exact Hs|]. cbn [sockets_].
        intros p c' Hc'. destruct (decide (p = ptr)) as [->|Hne].
        + rewrite lookup_insert_eq in Hc'. inversion Hc'; subst; clear Hc'.
          exists c. split; [exact Hc|]. split; [reflexivity|].
          cbn [ed]. destruct Hs as [Hlive _].
          apply (live_same_entry (runner_of e) _ (ed c));
            [reflexivity | reflexivity | reflexivity | exact (Hlive ptr c Hc)].
        + rewrite lookup_insert_ne in Hc' by congruence.
          exists c'. split; [exact Hc'|]. split; [reflexivity|].
          destruct Hs as [Hlive _].
          apply (live_same_entry (runner_of e) _ (ed c'));
            [reflexivity | reflexivity | reflexivity | exact (Hlive p c' Hc')].
      - cbn [sockets_]. rewrite lookup_insert_eq. eauto. }
    destruct Hs1 as [Hs1 Hin].
    destruct (res a =? as_int _).
    + exact (IH _ _ _ _ Hs1 Hrun).
    + inversion Hrun; subst. split; [exact Hs1|]. left. split; [reflexivity|].
      exact Hin.
Qed.

(** X26. Whatever [doSocket] does with a ready connection (read, answer,
    give it up), the engine comes out sound when it went in sound: every
    connection it still holds is registered with the notifier, with write
    interest as its [write_in_epoll] says, and no two of them share a
    descriptor. *)
Theorem doSocket_keeps_the_connections_registered
    (recvs : list received) (sends : list Epoll.sent) (e e' : Engine)
    (ptr events : Z) (write_queue write_queue' : list Z) (reads reads' : Z) :
  sound e ->
  doSocket recvs sends e ptr events write_queue reads
  = Done (e', write_queue', reads') ->
  sound e'.
Proof.
  intros Hs Hrun. unfold doSocket in Hrun.
  match type of Hrun with
  | match ?x with _ => _ end = _ =>
    destruct x as [[ret e1]| | |] eqn:Hread; try discriminate
  end.
  assert (Hs1 : sound e1).
  { destruct (negb (Z.land events Epoll.EPOLLIN =? 0)).
    - exact (proj1 (doRead_sound _ _ _ _ _ Hs Hread)).
    - inversion Hread; subst; exact Hs. }
  destruct (negb (ret =? 0)); [inversion Hrun; subst; exact Hs1|].
  destruct (sockets_ e1 !! ptr) as [c|] eqn:Hc; [|discriminate].
  destruct (negb (Z.land events Epoll.EPOLLOUT =? 0)
            || negb (Epoll.to_write (ed c) =? 0) && negb (batch_send e1)).
  - destruct (Epoll.doWrite sends (runner_of e1) (ed c))
      as [[r' ed']| | |] eqn:Hw; try discriminate.
    inversion Hrun; subst; clear Hrun.
    pose proof Hs1 as [Hlive Huniq].
    destruct (doWrite_keeps_live _ _ _ _ _ (Hlive ptr c Hc) Hw)
      as (Hfd & Hl' & Hother).
    apply (sound_update e1); [exact Hs1|]. cbn [sockets_].
    intros p c' Hc'. destruct (decide (p = ptr)) as [->|Hne].
    + rewrite lookup_insert_eq in Hc'. inversion Hc'; subst; clear Hc'.
      exists c. split; [exact Hc|]. split; [exact Hfd|]. cbn [ed].
      apply (live_same_entry r' _ ed' ed');
        [reflexivity | reflexivity | reflexivity | exact Hl'].
    + rewrite lookup_insert_ne in Hc' by congruence.
      exists c'. split; [exact Hc'|]. split; [reflexivity|].
      apply (live_same_entry (runner_of e1) _ (ed c') (ed c'));
        [reflexivity | reflexivity | | exact (Hlive p c' Hc')].
      cbn [runner_of Epoll.interest interest]. apply Hother.
      intros Heq. apply Hne. symmetry.
      exact (Huniq ptr p c c' Hc Hc' (eq_sym Heq)).
  - destruct (negb (Epoll.to_write (ed c) =? 0));
      inversion Hrun; subst; exact Hs1.
Qed.

Lemma doSocket_keeps_the_connections_registered_witness :
  sound one_connection
  /\ exists e',
       doSocket two_frames_arrive [Epoll.mkSent 3 0] one_connection 4096
         Epoll.EPOLLIN [] 0 = Done (e', [], 1)
       /\ sound e'.
Proof.
  assert (Hs : sound one_connection).
  { split.
    - intros ptr c Hc. unfold one_connection in Hc; cbn [sockets_] in Hc.
      apply lookup_singleton_Some in Hc as [_ <-].
      split; [vm_compute; eauto | vm_compute; reflexivity].
    - intros p1 p2 c1 c2 H1 H2 _.
      unfold one_connection in H1, H2; cbn [sockets_] in H1, H2.
      apply lookup_singleton_Some in H1 as [<- _].
      apply lookup_singleton_Some in H2 as [<- _]. reflexivity. }
  split; [exact Hs|].
  destruct (doSocket two_frames_arrive [Epoll.mkSent 3 0] one_connection 4096
              Epoll.EPOLLIN [] 0) as [[[e' wq] reads']| | |] eqn:Hrun;
    try (vm_compute in Hrun; discriminate).
  pose proof (doSocket_keeps_the_connections_registered _ _ _ _ _ _ _ _ _ _
                Hs Hrun) as Hs'.
  assert (Hwq : wq = [] /\ reads' = 1)
    by (vm_compute in Hrun; inversion Hrun; split; reflexivity).
  destruct Hwq as [-> ->]. exists e'. split; [reflexivity | exact Hs'].
Defined.

(** X27. When the receive call reports the end of the stream, or fails
    with anything but [EAGAIN], [doSocket] gives the connection up and
    returns at once: the descriptor is taken off the notifier and closed,
    the connection is erased and the socket count lowered. Nothing is
    sent, also when the event says the descriptor is writable, so reply
    bytes still owed are dropped; the receive buffer and the byte and
    request counters stay as they were. *)
Theorem end_of_stream_gives_the_connection_up
    (a : received) (rest : list received) (sends : list Epoll.sent)
    (e : Engine) (ptr events : Z) (c : Conn) (write_queue : list Z)
    (reads : Z) :
  sound e -> sockets_ e !! ptr = Some c ->
  Z.land events Epoll.EPOLLIN <> 0 ->
  res a <= 0 -> ~ (res a < 0 /\ errno a = Epoll.EAGAIN) ->
  doSocket (a :: rest) sends e ptr events write_queue reads
  = Done (mkEngine (delete (Epoll.fd (ed c)) (interest e)) (rcvbuff e)
            (batch_send e) (delete ptr (sockets_ e)) (bytesRx_ e)
            (requestsRx_ e) (as_int (socks_ e - 1))
            (closed_fds e ++ [Epoll.fd (ed c)]),
          write_queue, u32 (reads + 1)).
Proof.
  intros [Hlive _] Hc Hin Hres Herr. unfold doSocket.
  replace (Z.land events Epoll.EPOLLIN =? 0) with false
    by (symmetry; apply Z.eqb_neq; exact Hin).
  cbn [negb doRead]. rewrite Hc.
  replace (res a <=? 0) with true by (symmetry; apply Z.leb_le; exact Hres).
  replace ((res a <? 0) && (errno a =? Epoll.EAGAIN)) with false.
  2:{ symmetry. apply andb_false_iff.
      destruct (Z.ltb_spec (res a) 0) as [Hlt|]; [|left; reflexivity].
      right. apply Z.eqb_neq. intros Heq. apply Herr. split; assumption. }
  destruct (Hlive ptr c Hc) as [[ev Hev] _].
  cbn [runner_of Epoll.interest] in Hev.
  unfold drop_socket, epoll_ctl_del. rewrite Hev. reflexivity.
Qed.

Lemma end_of_stream_gives_the_connection_up_witness :
  exists e',
    doSocket [mkReceived 0 0 []] [Epoll.mkSent 3 0] owing_a_reply 4096
      (Z.lor Epoll.EPOLLIN Epoll.EPOLLOUT) [] 0 = Done (e', [], 1)
    /\ sockets_ e' = ∅ /\ closed_fds e' = [7].
Proof.
  assert (Hs : sound owing_a_reply).
  { split.
    - intros ptr c Hc. unfold owing_a_reply in Hc; cbn [sockets_] in Hc.
      apply lookup_singleton_Some in Hc as [_ <-].
      split; [vm_compute; eauto | vm_compute; reflexivity].
    - intros p1 p2 c1 c2 H1 H2 _.
      unfold owing_a_reply in H1, H2; cbn [sockets_] in H1, H2.
      apply lookup_singleton_Some in H1 as [<- _].
      apply lookup_singleton_Some in H2 as [<- _]. reflexivity. }
  eexists. split.
  - apply (end_of_stream_gives_the_connection_up (mkReceived 0 0 []) []
             [Epoll.mkSent 3 0] owing_a_reply 4096
             (Z.lor Epoll.EPOLLIN Epoll.EPOLLOUT)
             (mkConn (Epoll.mkData kSocket 7 3 true)
                (Parser.fresh Parser.zeroed)) [] 0 Hs).
    + reflexivity.
    + vm_compute. discriminate.
    + cbn. lia.
    + cbn. lia.
  - split; [|reflexivity]. cbn [sockets_]. vm_compute. reflexivity.
Defined.

(** A connection just accepted is live, and the engine stays sound. *)
Lemma accept_sound (e : Engine) (a : incoming) :
  sound e -> interest e !! sock_fd a = None ->
  sockets_ e !! at_ a = None ->
  sound
    (mkEngine (<[sock_fd a := Z.lor Epoll.EPOLLIN Epoll.EPOLLET]> (interest e))
       (rcvbuff e) (batch_send e)
       (<[at_ a := mkConn (Epoll.mkData kSocket (sock_fd a) 0 false)
                     (Parser.fresh Parser.zeroed)]> (sockets_ e))
       (bytesRx_ e) (requestsRx_ e) (as_int (socks_ e + 1)) (closed_fds e)).
Proof.
  intros [Hlive Huniq] Hfd Hat.
  assert (Hold : forall p c, sockets_ e !! p = Some c ->
                   Epoll.fd (ed c) <> sock_fd a).
  { intros p c Hc Heq. destruct (Hlive p c Hc) as [[ev Hev] _].
    cbn [runner_of Epoll.interest] in Hev. congruence. }
  split.
  - intros p c Hc. cbn [sockets_] in Hc.
    unfold Epoll.live, Epoll.armed. cbn [runner_of Epoll.interest interest].
    destruct (decide (p = at_ a)) as [->|Hne].
    + rewrite lookup_insert_eq in Hc. inversion Hc; subst; clear Hc.
      cbn [ed Epoll.fd Epoll.write_in_epoll]. rewrite lookup_insert_eq.
      split; [eauto | reflexivity].
    + rewrite lookup_insert_ne in Hc by congruence.
      rewrite lookup_insert_ne by (intros Heq; exact (Hold p c Hc (eq_sym Heq))).
      exact (Hlive p c Hc).
  - intros p1 p2 c1 c2 H1 H2 Heq. cbn [sockets_] in H1, H2.
    destruct (decide (p1 = at_ a)) as [->|Hn1];
      destruct (decide (p2 = at_ a)) as [->|Hn2]; [reflexivity| | |].
    + rewrite lookup_insert_eq in H1. inversion H1; subst; clear H1.
      rewrite lookup_insert_ne in H2 by congruence.
      exfalso. exact (Hold p2 c2 H2 (eq_sym Heq)).
    + rewrite lookup_insert_eq in H2. inversion H2; subst; clear H2.
      rewrite lookup_insert_ne in H1 by congruence.
      exfalso. exact (Hold p1 c1 H1 Heq).
    + rewrite lookup_insert_ne in H1 by congruence.
      rewrite lookup_insert_ne in H2 by congruence.
      exact (Huniq p1 p2 c1 c2 H1 H2 Heq).
Qed.

(** The answers still to come stay fresh once the first is registered. *)
Lemma fresh_for_step (e e1 : Engine) (a : incoming) (rest : list incoming) :
  interest e1 = <[sock_fd a := Z.lor Epoll.EPOLLIN Epoll.EPOLLET]> (interest e) ->
  (exists c, sockets_ e1 = <[at_ a := c]> (sockets_ e)) ->
  Forall (fun b => sock_fd b <> sock_fd a /\ at_ b <> at_ a) rest ->
  fresh_for e rest -> fresh_for e1 rest.
Proof.
  intros Hi [c Hsk]. induction rest as [|b rest IH]; intros Hd Hf;
    [exact I|].
  cbn [fresh_for] in *. destruct Hf as (H0 & Hfd & Hat & Hrest & Hf).
  apply Forall_cons in Hd as [[Hb1 Hb2] Hd].
  split; [exact H0|]. rewrite Hi, Hsk.
  split; [rewrite lookup_insert_ne by congruence; exact Hfd|].
  split; [rewrite lookup_insert_ne by congruence; exact Hat|].
  split; [exact Hrest|]. exact (IH Hd Hf).
Qed.

(** [doAccept] only ever adds registrations. *)
Lemma doAccept_keeps_registrations (accepts : list incoming) :
  forall (e e' : Engine) (fd ev : Z),
  doAccept accepts e = Done e' -> interest e !! fd = Some ev ->
  interest e' !! fd = Some ev.
Proof.
  induction accepts as [|b l IH]; intros e e' fd ev Hrun Hfd;
    [discriminate|].
  cbn [doAccept] in Hrun.
  destruct ((sock_fd b =? -1) && (accept_errno b =? Epoll.EAGAIN));
    [inversion Hrun; subst; exact Hfd|].
  destruct (if sock_fd b =? -1 then _ else _); try discriminate.
  unfold epoll_ctl_add in Hrun.
  destruct (sock_fd b <? 0); [discriminate|].
  destruct (interest e !! sock_fd b) eqn:Hb; [discriminate|].
  cbn [checkedErrno Z.ltb Z.compare] in Hrun.
  apply (IH _ _ fd ev) in Hrun; [exact Hrun|]. cbn [interest].
  rewrite lookup_insert_ne by congruence. exact Hfd.
Qed.

(** X28. [doAccept] takes every connection the kernel has waiting and
    returns when [accept4] answers [EAGAIN]. Each new connection is then
    held by the engine, all zero but for its descriptor (nothing owed, the
    parser between two frames), and registered for edge-triggered read
    events without write interest; the connections from before are as
    they were, and the engine is sound. *)
Theorem doAccept_registers_every_new_connection
    (news : list incoming) (stop : incoming) (later : list incoming)
    (e : Engine) :
  sound e -> fresh_for e news ->
  sock_fd stop = -1 -> accept_errno stop = Epoll.EAGAIN ->
  exists e',
    doAccept (news ++ stop :: later) e = Done e'
    /\ sound e'
    /\ (forall a, a ∈ news ->
          sockets_ e' !! at_ a
          = Some (mkConn (Epoll.mkData kSocket (sock_fd a) 0 false)
                    (Parser.fresh Parser.zeroed))
          /\ interest e' !! sock_fd a
             = Some (Z.lor Epoll.EPOLLIN Epoll.EPOLLET))
    /\ (forall ptr c, sockets_ e !! ptr = Some c ->
          sockets_ e' !! ptr = Some c).
Proof.
  intros Hs Hf Hstop Herr. revert e Hs Hf.
  induction news as [|a news IH]; intros e Hs Hf.
  - exists e. cbn [app doAccept]. rewrite Hstop, Herr. cbn.
    split; [reflexivity|]. split; [exact Hs|].
    split; [intros a Ha; inversion Ha | auto].
  - cbn [fresh_for] in Hf. destruct Hf as (H0 & Hfd & Hat & Hd & Hf).
    cbn [app doAccept].
    replace (sock_fd a =? -1) with false by (symmetry; apply Z.eqb_neq; lia).
    cbn [andb]. unfold epoll_ctl_add.
    replace (sock_fd a <? 0) with false by (symmetry; apply Z.ltb_ge; lia).
    rewrite Hfd. cbn [checkedErrno Z.ltb Z.compare].
    match goal with
    | |- exists e', doAccept _ ?e1 = _ /\ _ =>
      destruct (IH e1) as (e' & Hrun & Hs' & Hnew & Hold)
    end.
    { exact (accept_sound e a Hs Hfd Hat). }
    { apply (fresh_for_step e _ a); [reflexivity | | exact Hd | exact Hf].
      eexists; reflexivity. }
    exists e'. split; [exact Hrun|]. split; [exact Hs'|].
    assert (Hreg : interest e' !! sock_fd a
                   = Some (Z.lor Epoll.EPOLLIN Epoll.EPOLLET)).
    { apply (doAccept_keeps_registrations _ _ _ _ _ Hrun).
      cbn [interest]. apply lookup_insert_eq. }
    split.
    + intros b Hb. apply elem_of_cons in Hb as [->|Hb].
      * split; [|exact Hreg].
        apply Hold. cbn [sockets_]. apply lookup_insert_eq.
      * exact (Hnew b Hb).
    + intros ptr c Hc. apply Hold. cbn [sockets_].
      rewrite lookup_insert_ne by congruence. exact Hc.
Qed.

Lemma doAccept_registers_every_new_connection_witness :
  exists e',
    doAccept two_arrivals idle_engine = Done e'
    /\ sound e'
    /\ interest e' !! 8 = Some (Z.lor Epoll.EPOLLIN Epoll.EPOLLET).
Proof.
  assert (Hs : sound idle_engine).
  { split.
    - intros ptr c Hc. unfold idle_engine in Hc; cbn [sockets_] in Hc.
      rewrite lookup_empty in Hc. discriminate.
    - intros p1 p2 c1 c2 H1. unfold idle_engine in H1; cbn [sockets_] in H1.
      rewrite lookup_empty in H1. discriminate. }
  destruct (doAccept_registers_every_new_connection
              [mkIncoming 7 0 4096; mkIncoming 8 0 8192] no_more []
              idle_engine Hs) as (e' & Hrun & Hs' & Hnew & _).
  - cbn [fresh_for sock_fd at_].
    repeat split; try lia; try (vm_compute; reflexivity);
      repeat constructor; cbn; lia.
  - reflexivity.
  - reflexivity.
  - exists e'. split; [exact Hrun|]. split; [exact Hs'|].
    apply (Hnew (mkIncoming 8 0 8192)). apply elem_of_cons. right.
    apply elem_of_cons. left. reflexivity.
Defined.

End EpollLoopFacts.
